(** * KimHoa three-card tournament server: the game engine of [server.js]

    A shallow embedding of the room state machine of [src/server.js]
    (deck, hand evaluation, turn order, the socket handlers for betting,
    folding, all-in and duels, hand resolution and tournament control),
    followed by the properties proved about it.

    Conventions.
    - The engine is given twice.  First on integers: balances, stakes, the
      pot and the amount of a bet are modelled by [Z], which is what they
      are as long as every bet carries an amount that [parseInt] reads as a
      number.  Then on JS numbers (the definitions with the suffix [N]):
      [parseInt] makes NaN of a missing or non-numeric amount, the
      place-bet handler accepts it, and balances, stakes and the pot are
      NaN from then on.  The second engine computes what the first
      computes on integer balances and amounts ([handleN_lift]).
    - The score of an evaluated hand is [NaN] when the hand has fewer than
      three cards (reads of missing array entries): scores are modelled by
      [num].
    - A player object is shared between [room.players] and
      [room.tournamentPlayers]; the roster is modelled by the list of seat
      numbers of its members, so that reading [tp.money] through the roster
      sees the balance stored in [room.players].
    - A handler either rejects ([socket.emit("error", ...)] and return,
      before any mutation) or runs to completion: handlers return
      [Rejected e] or [Accepted s]. *)

From Stdlib Require Import ZArith Lia Sorted Permutation.
From stdpp Require Import base decidable option list strings.

Local Open Scope Z_scope.

(** ** JS numbers that may be NaN *)

Inductive num : Type :=
  | Num (z : Z)
  | NaN.

Definition num_add (a b : num) : num :=
  match a, b with Num x, Num y => Num (x + y) | _, _ => NaN end.

Definition num_sub (a b : num) : num :=
  match a, b with Num x, Num y => Num (x - y) | _, _ => NaN end.

Definition num_mul (a b : num) : num :=
  match a, b with Num x, Num y => Num (x * y) | _, _ => NaN end.

(** [a === b] on numbers: [NaN] is not equal to itself. *)
Definition num_eqb (a b : num) : bool :=
  match a, b with Num x, Num y => x =? y | _, _ => false end.

(** [a > b] and [a < b]: every comparison with [NaN] is false. *)
Definition num_gtb (a b : num) : bool :=
  match a, b with Num x, Num y => y <? x | _, _ => false end.

Definition num_ltb (a b : num) : bool :=
  match a, b with Num x, Num y => x <? y | _, _ => false end.

(** ** [Array.prototype.sort] with a comparator

    The JS sort is stable; for a comparator that is a total preorder the
    result is the unique stable sorted arrangement, which insertion from the
    right computes.  [cmp a b <= 0] keeps [a] in front of [b]. *)

Section JsSort.
Context {A : Type} (cmp : A → A → Z).

Fixpoint insertBy (x : A) (l : list A) : list A :=
  match l with
  | [] => [x]
  | y :: l' => if cmp x y <=? 0 then x :: l else y :: insertBy x l'
  end.

Definition sortBy (l : list A) : list A := foldr insertBy [] l.

End JsSort.

(** ** Cards *)

Inductive Rank : Type :=
  | R2 | R3 | R4 | R5 | R6 | R7 | R8 | R9 | R10 | RJ | RQ | RK | RA.

Inductive Suit : Type := Hearts | Diamonds | Clubs | Spades.

#[global] Instance Rank_eq_dec : EqDecision Rank.
Proof. solve_decision. Defined.

#[global] Instance Suit_eq_dec : EqDecision Suit.
Proof. solve_decision. Defined.

(** A card is created only by [createDeck], with [value = getCardValue(rank)]
    and [symbol = getCardSymbol(suit)]: both are functions of the two stored
    fields. *)
Record card : Type := Card { rank : Rank; suit : Suit }.

#[global] Instance card_eq_dec : EqDecision card.
Proof. solve_decision. Defined.

Definition getCardValue (r : Rank) : Z :=
  match r with
  | R2 => 2 | R3 => 3 | R4 => 4 | R5 => 5 | R6 => 6 | R7 => 7 | R8 => 8
  | R9 => 9 | R10 => 10 | RJ => 11 | RQ => 12 | RK => 13 | RA => 14
  end.

Definition cardValue (c : card) : Z := getCardValue (rank c).

Definition suits_list : list Suit := [Hearts; Diamonds; Clubs; Spades].

Definition ranks_list : list Rank :=
  [R2; R3; R4; R5; R6; R7; R8; R9; R10; RJ; RQ; RK; RA].

Definition createDeck : list card :=
  s ← suits_list; r ← ranks_list; [Card r s].

(** [[deck[i], deck[j]] = [deck[j], deck[i]]] *)
Definition swap {A} (i j : nat) (l : list A) : list A :=
  match l !! i, l !! j with
  | Some a, Some b => <[j:=a]> (<[i:=b]> l)
  | _, _ => l
  end.

(** Fisher-Yates.  [pick i] stands for the draw [Math.random()] made at loop
    index [i]; [Math.floor(Math.random() * (i + 1))] ranges over [0..i], which
    is what [pick i mod (i + 1)] ranges over. *)
Fixpoint shuffleFrom (pick : nat → nat) (i : nat) (deck : list card) : list card :=
  match i with
  | O => deck
  | S i' => shuffleFrom pick i' (swap i (pick i `mod` (i + 1))%nat deck)
  end.

Definition shuffleDeck (pick : nat → nat) (deck : list card) : list card :=
  shuffleFrom pick (length deck - 1)%nat deck.

(** ** Hand evaluation *)

Inductive handType : Type :=
  | HighCard | Pair | Straight | Flush | StraightFlush | ThreeOfAKind.

#[global] Instance handType_eq_dec : EqDecision handType.
Proof. solve_decision. Defined.

(** The [description] text of the JS result is display only and is left out. *)
Record handEval : Type := HandEval { htype : handType; hvalue : num }.

Definition evaluateHand (cards : list card) : handEval :=
  let sorted := sortBy (λ a b, cardValue b - cardValue a) cards in
  let values := cardValue <$> sorted in
  let ranks := rank <$> sorted in
  let suits := suit <$> sorted in
  (* values[i]; a missing entry is undefined, NaN in arithmetic and different
     from every number under === *)
  let v (i : nat) := from_option Num NaN (values !! i) in
  if bool_decide (ranks !! 0%nat = ranks !! 1%nat)
     && bool_decide (ranks !! 1%nat = ranks !! 2%nat)
  then HandEval ThreeOfAKind (num_mul (v 0%nat) (Num 100))
  else
    let isSameSuit := forallb (λ s, bool_decide (Some s = suits !! 0%nat)) suits in
    let isStraight :=
      (num_eqb (num_sub (v 0%nat) (v 1%nat)) (Num 1)
       && num_eqb (num_sub (v 1%nat) (v 2%nat)) (Num 1))
      || (num_eqb (v 0%nat) (Num 14) && num_eqb (v 1%nat) (Num 3)
          && num_eqb (v 2%nat) (Num 2)) in
    if isSameSuit && isStraight
    then HandEval StraightFlush (num_mul (v 0%nat) (Num 1000))
    else if isSameSuit
    then HandEval Flush
           (num_add (num_add (num_mul (v 0%nat) (Num 10000))
                             (num_mul (v 1%nat) (Num 100))) (v 2%nat))
    else if isStraight
    then HandEval Straight (num_mul (v 0%nat) (Num 100))
    else if bool_decide (ranks !! 0%nat = ranks !! 1%nat)
    then HandEval Pair (num_add (num_mul (v 0%nat) (Num 100)) (v 2%nat))
    else if bool_decide (ranks !! 1%nat = ranks !! 2%nat)
    then HandEval Pair (num_add (num_mul (v 1%nat) (Num 100)) (v 0%nat))
    else HandEval HighCard
           (num_add (num_add (num_mul (v 0%nat) (Num 10000))
                             (num_mul (v 1%nat) (Num 100))) (v 2%nat)).

(** The table [types] of [compareHands]. *)
Definition types (t : handType) : Z :=
  match t with
  | HighCard => 1 | Pair => 2 | Straight => 3 | Flush => 4
  | StraightFlush => 5 | ThreeOfAKind => 6
  end.

Definition compareHands (h1 h2 : handEval) : Z :=
  if types (htype h2) <? types (htype h1) then 1
  else if types (htype h1) <? types (htype h2) then -1
  else if num_gtb (hvalue h1) (hvalue h2) then 1
  else if num_ltb (hvalue h1) (hvalue h2) then -1
  else 0.

(** ** Players and rooms *)

(** The fields [position] and [connected] of the JS player object are used by
    the transport code only and are left out; [actedThisRound] is absent
    (falsy) until first written, which reads as [false]. *)
Record player : Type := Player {
  id : string;
  name : string;
  money : Z;
  hand : list card;
  viewedCards : bool;
  folded : bool;
  currentBet : Z;
  allIn : bool;
  actedThisRound : bool
}.

Definition set_money (x : Z) (p : player) : player :=
  Player (id p) (name p) x (hand p) (viewedCards p) (folded p)
         (currentBet p) (allIn p) (actedThisRound p).
Definition set_hand (x : list card) (p : player) : player :=
  Player (id p) (name p) (money p) x (viewedCards p) (folded p)
         (currentBet p) (allIn p) (actedThisRound p).
Definition set_viewedCards (x : bool) (p : player) : player :=
  Player (id p) (name p) (money p) (hand p) x (folded p)
         (currentBet p) (allIn p) (actedThisRound p).
Definition set_folded (x : bool) (p : player) : player :=
  Player (id p) (name p) (money p) (hand p) (viewedCards p) x
         (currentBet p) (allIn p) (actedThisRound p).
Definition set_currentBet (x : Z) (p : player) : player :=
  Player (id p) (name p) (money p) (hand p) (viewedCards p) (folded p)
         x (allIn p) (actedThisRound p).
Definition set_allIn (x : bool) (p : player) : player :=
  Player (id p) (name p) (money p) (hand p) (viewedCards p) (folded p)
         (currentBet p) x (actedThisRound p).
Definition set_actedThisRound (x : bool) (p : player) : player :=
  Player (id p) (name p) (money p) (hand p) (viewedCards p) (folded p)
         (currentBet p) (allIn p) x.

Inductive phase : Type := Waiting | Playing | Ended.

(** An entry of [room.betHistory] (the timestamp is left out). *)
Record betRecord : Type := BetRecord {
  bet_playerId : string;
  bet_playerName : string;
  declaredAmount : Z;
  actualAmount : Z;
  bet_viewedCards : bool
}.

(** The room object.  [handsPlayed] and [startingPlayerCount] do not exist
    before start-game ([None] is undefined); [tournamentPlayers] lists the
    seat numbers of the roster's player objects.  The fields [code],
    [tournamentRound], [createdAt] and [settings] play no part in the engine
    and are left out. *)
Record room : Type := Room {
  host : string;
  players : list player;
  gameState : phase;
  currentRound : Z;
  dealerIndex : Z;
  pot : Z;
  deck : list card;
  currentTurn : Z;
  minBet : Z;
  tournamentPlayers : list nat;
  betHistory : list betRecord;
  lastRaise : option string;
  handsPlayed : option Z;
  startingPlayerCount : option Z
}.

Definition set_players (x : list player) (r : room) : room :=
  Room (host r) x (gameState r) (currentRound r) (dealerIndex r) (pot r) (deck r)
       (currentTurn r) (minBet r) (tournamentPlayers r) (betHistory r)
       (lastRaise r) (handsPlayed r) (startingPlayerCount r).
Definition set_gameState (x : phase) (r : room) : room :=
  Room (host r) (players r) x (currentRound r) (dealerIndex r) (pot r) (deck r)
       (currentTurn r) (minBet r) (tournamentPlayers r) (betHistory r)
       (lastRaise r) (handsPlayed r) (startingPlayerCount r).
Definition set_currentRound (x : Z) (r : room) : room :=
  Room (host r) (players r) (gameState r) x (dealerIndex r) (pot r) (deck r)
       (currentTurn r) (minBet r) (tournamentPlayers r) (betHistory r)
       (lastRaise r) (handsPlayed r) (startingPlayerCount r).
Definition set_pot (x : Z) (r : room) : room :=
  Room (host r) (players r) (gameState r) (currentRound r) (dealerIndex r) x (deck r)
       (currentTurn r) (minBet r) (tournamentPlayers r) (betHistory r)
       (lastRaise r) (handsPlayed r) (startingPlayerCount r).
Definition set_currentTurn (x : Z) (r : room) : room :=
  Room (host r) (players r) (gameState r) (currentRound r) (dealerIndex r) (pot r) (deck r)
       x (minBet r) (tournamentPlayers r) (betHistory r)
       (lastRaise r) (handsPlayed r) (startingPlayerCount r).
Definition set_tournamentPlayers (x : list nat) (r : room) : room :=
  Room (host r) (players r) (gameState r) (currentRound r) (dealerIndex r) (pot r) (deck r)
       (currentTurn r) (minBet r) x (betHistory r)
       (lastRaise r) (handsPlayed r) (startingPlayerCount r).
Definition set_betHistory (x : list betRecord) (r : room) : room :=
  Room (host r) (players r) (gameState r) (currentRound r) (dealerIndex r) (pot r) (deck r)
       (currentTurn r) (minBet r) (tournamentPlayers r) x
       (lastRaise r) (handsPlayed r) (startingPlayerCount r).
(** [room.minBet = x; room.lastRaise = socket.id] *)
Definition raiseTo (x : Z) (sid : string) (r : room) : room :=
  Room (host r) (players r) (gameState r) (currentRound r) (dealerIndex r) (pot r) (deck r)
       (currentTurn r) x (tournamentPlayers r) (betHistory r)
       (Some sid) (handsPlayed r) (startingPlayerCount r).

(** ** Turn order *)

(** [room.players[idx]] for a JS number [idx]. *)
Definition seatAt (ps : list player) (idx : Z) : option player :=
  if idx <? 0 then None else ps !! Z.to_nat idx.

(** The [while (count < n)] scan shared by the two functions below, with
    [fuel = n - count] iterations left.  A seat index outside the array makes
    the JS read a field of undefined and throw; that happens only for a
    dealer index below -1, which no room has (rooms are created with -1 and
    [startNewHand] keeps the index within the seats); the scan then yields
    -1. *)
Fixpoint scanSeats (eligible : player → bool) (ps : list player) (n : Z)
         (fuel : nat) (idx : Z) : Z :=
  match fuel with
  | O => -1
  | S fuel' =>
      match seatAt ps idx with
      | Some p => if eligible p then idx
                  else scanSeats eligible ps n fuel' (Z.rem (idx + 1) n)
      | None => -1
      end
  end.

Definition canAct (p : player) : bool :=
  negb (folded p) && (0 <? money p) && negb (allIn p).

Definition inHand (p : player) : bool :=
  negb (folded p) && (0 <? money p).

Definition getNextActivePlayerIndex (r : room) (startIndex : Z) : Z :=
  let n := Z.of_nat (length (players r)) in
  if n =? 0 then -1
  else scanSeats canAct (players r) n (length (players r)) (Z.rem (startIndex + 1) n).

Definition getFirstPlayerAfterDealer (r : room) : Z :=
  let n := Z.of_nat (length (players r)) in
  if n =? 0 then -1
  else scanSeats inHand (players r) n (length (players r)) (Z.rem (dealerIndex r + 1) n).

(** ** Starting a hand *)

(** [for (i < k) if (deck.length) hand.push(deck.pop())] *)
Fixpoint dealCards (k : nat) (h d : list card) : list card * list card :=
  match k with
  | O => (h, d)
  | S k' =>
      match last d with
      | Some c => dealCards k' (h ++ [c]) (removelast d)
      | None => dealCards k' h d
      end
  end.

(** The body of the [forEach] of [startNewHand] for one player, threading
    [room.pot] and [room.deck]. *)
Definition anteUp (p : player) (pt : Z) (d : list card) : player * Z * list card :=
  let p0 :=
    set_actedThisRound false (set_allIn false (set_currentBet 0
      (set_folded false (set_viewedCards false (set_hand [] p))))) in
  if 0 <? money p0 then
    let ante := Z.min 100 (money p0) in
    let '(h, d') := dealCards 3 (hand p0) d in
    (set_hand h (set_currentBet ante (set_money (money p0 - ante) p0)), pt + ante, d')
  else (set_folded true p0, pt, d).

Fixpoint anteAll (ps : list player) (pt : Z) (d : list card)
  : list player * Z * list card :=
  match ps with
  | [] => ([], pt, d)
  | p :: ps' =>
      let '(p', pt', d') := anteUp p pt d in
      let '(ps'', pt'', d'') := anteAll ps' pt' d' in
      (p' :: ps'', pt'', d'')
  end.

(** [(room.handsPlayed || 0) + 1] *)
Definition nextHandsPlayed (h : option Z) : option Z :=
  Some (default 0 h + 1).

(** [startNewHand].  With no seat at all the JS dealer index becomes NaN;
    every room has at least its host, and [Z.rem] is the JS [%] for a
    non-zero divisor. *)
Definition startNewHand (pick : nat → nat) (r : room) : room :=
  let '(ps, pt, d) := anteAll (players r) 0 (shuffleDeck pick createDeck) in
  let dealer := Z.rem (dealerIndex r + 1) (Z.of_nat (length ps)) in
  let r1 := Room (host r) ps (gameState r) 1 dealer pt d (currentTurn r) 100
                 (tournamentPlayers r) [] None (handsPlayed r)
                 (startingPlayerCount r) in
  let r2 := set_currentTurn (getFirstPlayerAfterDealer r1) r1 in
  Room (host r2) (players r2) (gameState r2) (currentRound r2) (dealerIndex r2) (pot r2)
       (deck r2) (currentTurn r2) (minBet r2) (tournamentPlayers r2)
       (betHistory r2) (lastRaise r2) (nextHandsPlayed (handsPlayed r2))
       (startingPlayerCount r2).

(** ** Round and hand completion *)

Definition isRoundComplete (r : room) : bool :=
  let able := List.filter canAct (players r) in
  if (length able =? 0)%nat then true else forallb actedThisRound able.

Definition checkAndAdvanceRound (r : room) : room * bool :=
  let active := List.filter inHand (players r) in
  if (length active <=? 1)%nat then (r, false)
  else
    let r1 := set_players (set_actedThisRound false <$> players r) r in
    let r2 := set_currentRound (currentRound r1 + 1) r1 in
    (set_currentTurn (getFirstPlayerAfterDealer r2) r2, true).

Definition isHandFinished (r : room) : bool :=
  let active := List.filter inHand (players r) in
  if (length active <=? 1)%nat then true
  else
    let able := List.filter (λ p, negb (allIn p) && (0 <? money p)) active in
    (length able =? 0)%nat.

(** ** Resolving a hand *)

(** The value returned by [resolveHand]. *)
Record handResult : Type := HandResult {
  winner : option player;
  eliminated : list player;
  resultPot : Z
}.

Definition addMoney (x : Z) (p : player) : player := set_money (money p + x) p.

(** The player objects of [room.players], each with its seat number: the
    arrays [active] and [winners] of [resolveHand] hold player objects, and
    [w.money += ...] writes to the seat of [w]. *)
Definition seated (ps : list player) : list (nat * player) := imap pair ps.

Definition activeSeats (r : room) : list (nat * player) :=
  List.filter (λ e, inHand e.2) (seated (players r)).

(** The array [winners] computed by [resolveHand] for a non-empty [active]. *)
Definition winnersOf (active : list (nat * player)) : list (nat * player) :=
  if (length active =? 1)%nat then take 1 active
  else
    let evaluated := (λ e, (e, evaluateHand (hand e.2))) <$> active in
    let sorted := sortBy (λ a b, compareHands b.2 a.2) evaluated in
    let bestScore := from_option (λ e, hvalue e.2) NaN (sorted !! 0%nat) in
    fst <$> List.filter (λ e, num_eqb (hvalue e.2) bestScore) sorted.

(** The payout: [winners.forEach(w => w.money += share)] or
    [winners[0].money += room.pot]. *)
Definition payWinners (pt : Z) (winners : list (nat * player)) (ps : list player)
  : list player :=
  if (1 <? length winners)%nat then
    let share := pt `div` Z.of_nat (length winners) in
    foldl (λ acc w, alter (addMoney share) w.1 acc) ps winners
  else if (length winners =? 1)%nat then
    match winners !! 0%nat with
    | Some w => alter (addMoney pt) w.1 ps
    | None => ps
    end
  else ps.

Definition resolveHand (r : room) : room * handResult :=
  let active := activeSeats r in
  if (length active =? 0)%nat then (r, HandResult None [] (pot r))
  else
    let winners := winnersOf active in
    let ps := payWinners (pot r) winners (players r) in
    (set_players ps r,
     HandResult (w ← winners !! 0%nat; ps !! w.1)
                (List.filter (λ p, money p <=? 0) ps) (pot r)).

(** ** After a hand *)

(** What [afterHandEnded] does besides updating the room: it either emits
    [tournament-ended] with the champion and the rankings, or schedules with
    [setTimeout] the callback that starts the next hand. *)
Inductive effect : Type :=
  | TournamentEnded (champ : option player) (rankings : list player)
  | NextHandTimer.

(** [tp.money > 0] for the roster member seated at [i]. *)
Definition solvent (ps : list player) (i : nat) : bool :=
  from_option (λ p, 0 <? money p) false (ps !! i).

(** [a >= b] where either side may be undefined (then false). *)
Definition geDefined (a b : option Z) : bool :=
  match a, b with Some x, Some y => y <=? x | _, _ => false end.

Definition pruneRoster (r : room) : room :=
  set_tournamentPlayers (List.filter (solvent (players r)) (tournamentPlayers r)) r.

(** The constant [tournamentEnded] of [afterHandEnded], read on the pruned
    room. *)
Definition tournamentEnded (r : room) : bool :=
  (length (tournamentPlayers r) <=? 1)%nat
  || geDefined (handsPlayed r) (startingPlayerCount r).

Definition afterHandEnded (r : room) : room * effect * bool :=
  let r1 := pruneRoster r in
  if tournamentEnded r1 then
    let rankings := sortBy (λ a b, money b - money a) (players r1) in
    let champ := i ← tournamentPlayers r1 !! 0%nat; players r1 !! i in
    (set_gameState Ended r1, TournamentEnded champ rankings, true)
  else (r1, NextHandTimer, false).

(** ** The server around one room *)

(** The room together with the number of pending [setTimeout] callbacks,
    each of which will run [startNewHand(room)] when it fires. *)
Record server : Type := Server { theRoom : room; timers : nat }.

Inductive error : Type :=
  | PlayerNotFound
  | AlreadyFolded
  | AlreadyAllIn
  | AlreadyViewed
  | NotYourTurn
  | BelowMinBet
  | NotEnoughMoney
  | SomeoneFolded
  | RoundTooEarly
  | StakeNotMatched
  | NotHost
  | TooFewPlayers.

Inductive outcome (S : Type) : Type :=
  | Rejected (e : error)
  | Accepted (s : S).
Arguments Rejected {S} e.
Arguments Accepted {S} s.

(** The state after a handler has run: unchanged on rejection. *)
Definition run {S} (o : outcome S) (s : S) : S :=
  match o with Rejected _ => s | Accepted s' => s' end.

Definition onRoom (f : room → outcome room) (k : server → server) (s : server)
  : outcome server :=
  match f (theRoom s) with
  | Rejected e => Rejected e
  | Accepted r => Accepted (k (Server r (timers s)))
  end.

(** [room.players.find(p => p.id === socket.id)] together with
    [room.players.indexOf(player)]. *)
Definition findPlayer (sid : string) (ps : list player) : option (nat * player) :=
  list_find (λ p, id p = sid) ps.

(** The tail shared by the place-bet, fold, all-in and compare-cards
    handlers.  First [if (isRoundComplete(room)) checkAndAdvanceRound(room)]. *)
Definition closeRound (r : room) : room :=
  if isRoundComplete r then (checkAndAdvanceRound r).1 else r.

(** Then [if (isHandFinished(room)) { resolveHand; prune; afterHandEnded }]. *)
Definition closeHand (s : server) : server :=
  if isHandFinished (theRoom s) then
    let r2 := pruneRoster (resolveHand (theRoom s)).1 in
    let '(r3, eff, _) := afterHandEnded r2 in
    Server r3 (match eff with NextHandTimer => S (timers s) | _ => timers s end)
  else s.

Definition settle (s : server) : server :=
  closeHand (Server (closeRound (theRoom s)) (timers s)).

(** The callback given to [setTimeout] by [afterHandEnded]. *)
Definition fireTimer (pick : nat → nat) (s : server) : option server :=
  match timers s with
  | O => None
  | S k => Some (Server (startNewHand pick (theRoom s)) k)
  end.

(** ** The socket handlers

    Each handler is given the socket id of the sender and runs on the room
    found under the room code (a missing room is rejected before any of the
    code below).  [apply_*] is the handler up to the turn change; the handlers
    that can end a round or a hand then run [settle]. *)

Definition apply_start_game (pick : nat → nat) (sid : string) (r : room)
  : outcome room :=
  if negb (bool_decide (host r = sid)) then Rejected NotHost
  else if (length (players r) <? 2)%nat then Rejected TooFewPlayers
  else
    Accepted (startNewHand pick
      (Room (host r) (players r) Playing (currentRound r) (dealerIndex r)
            (pot r) (deck r) (currentTurn r) (minBet r)
            (seq 0 (length (players r))) (betHistory r) (lastRaise r)
            (Some 0) (Some (Z.of_nat (length (players r)))))).

Definition apply_view_cards (sid : string) (r : room) : outcome room :=
  match findPlayer sid (players r) with
  | None => Rejected PlayerNotFound
  | Some (i, player) =>
      if viewedCards player then Rejected AlreadyViewed
      else if negb (currentTurn r =? Z.of_nat i) then Rejected NotYourTurn
      else Accepted (set_players (<[i := set_viewedCards true player]> (players r)) r)
  end.

(** The place-bet handler for an amount that [parseInt] reads as the
    integer [amount]; [apply_place_betN] is the handler for any amount. *)
Definition apply_place_bet (sid : string) (amount : Z) (r : room) : outcome room :=
  match findPlayer sid (players r) with
  | None => Rejected PlayerNotFound
  | Some (i, player) =>
      if folded player then Rejected AlreadyFolded
      else if negb (currentTurn r =? Z.of_nat i) then Rejected NotYourTurn
      else if amount <? minBet r then Rejected BelowMinBet
      else
        let actual := if viewedCards player then amount else amount `div` 2 in
        if money player <? actual then Rejected NotEnoughMoney
        else
          let player' :=
            set_actedThisRound true
              (set_currentBet (currentBet player + actual)
                 (set_money (money player - actual) player)) in
          let r1 := set_pot (pot r + actual)
                      (set_players (<[i := player']> (players r)) r) in
          let r2 := if minBet r1 <? amount then raiseTo amount sid r1 else r1 in
          let r3 := set_betHistory
                      (betHistory r2 ++
                       [BetRecord sid (name player) amount actual (viewedCards player)])
                      r2 in
          Accepted (set_currentTurn (getNextActivePlayerIndex r3 (Z.of_nat i)) r3)
  end.

Definition apply_fold (sid : string) (r : room) : outcome room :=
  match findPlayer sid (players r) with
  | None => Rejected PlayerNotFound
  | Some (i, player) =>
      if folded player then Rejected AlreadyFolded
      else if negb (currentTurn r =? Z.of_nat i) then Rejected NotYourTurn
      else
        let player' := set_actedThisRound true (set_folded true player) in
        let r1 := set_players (<[i := player']> (players r)) r in
        Accepted (set_currentTurn (getNextActivePlayerIndex r1 (Z.of_nat i)) r1)
  end.

Definition apply_all_in (sid : string) (r : room) : outcome room :=
  match findPlayer sid (players r) with
  | None => Rejected PlayerNotFound
  | Some (i, player) =>
      if folded player then Rejected AlreadyFolded
      else if allIn player then Rejected AlreadyAllIn
      else if negb (currentTurn r =? Z.of_nat i) then Rejected NotYourTurn
      else
        let allInAmount := money player in
        let player' :=
          set_actedThisRound true
            (set_allIn true
               (set_currentBet (currentBet player + allInAmount)
                  (set_money 0 player))) in
        let r1 := set_pot (pot r + allInAmount)
                    (set_players (<[i := player']> (players r)) r) in
        let r2 := if minBet r1 <? allInAmount then raiseTo allInAmount sid r1 else r1 in
        Accepted (set_currentTurn (getNextActivePlayerIndex r2 (Z.of_nat i)) r2)
  end.

(** [viewed ? minBet : Math.floor(minBet / 2)] *)
Definition requiredActual (player : player) (r : room) : Z :=
  if viewedCards player then minBet r else minBet r `div` 2.

Definition apply_compare_cards (sid target : string) (r : room) : outcome room :=
  match findPlayer sid (players r), findPlayer target (players r) with
  | Some (i, player), Some (j, opponent) =>
      if folded player || folded opponent then Rejected SomeoneFolded
      else if currentRound r <? 2 then Rejected RoundTooEarly
      else if negb (currentTurn r =? Z.of_nat i) then Rejected NotYourTurn
      else if currentBet player <? requiredActual player r then Rejected StakeNotMatched
      else
        let hand1 := evaluateHand (hand player) in
        let hand2 := evaluateHand (hand opponent) in
        let result := compareHands hand1 hand2 in
        (* loser.folded = true, when there is a loser *)
        let ps1 :=
          if 0 <? result then alter (set_folded true) j (players r)
          else if result <? 0 then alter (set_folded true) i (players r)
          else players r in
        let ps2 := alter (set_actedThisRound true) i ps1 in
        let r1 := set_players ps2 r in
        Accepted (set_currentTurn (getNextActivePlayerIndex r1 (Z.of_nat i)) r1)
  | _, _ => Rejected PlayerNotFound
  end.

Definition on_start_game (pick : nat → nat) (sid : string) : server → outcome server :=
  onRoom (apply_start_game pick sid) (λ s, s).

Definition on_view_cards (sid : string) : server → outcome server :=
  onRoom (apply_view_cards sid) (λ s, s).

Definition on_place_bet (sid : string) (amount : Z) : server → outcome server :=
  onRoom (apply_place_bet sid amount) settle.

Definition on_fold (sid : string) : server → outcome server :=
  onRoom (apply_fold sid) settle.

Definition on_all_in (sid : string) : server → outcome server :=
  onRoom (apply_all_in sid) settle.

Definition on_compare_cards (sid target : string) : server → outcome server :=
  onRoom (apply_compare_cards sid target) settle.

(** The player intents of one hand, and the handler each one reaches; the
    amount of a bet is the integer [parseInt] reads ([actionN] has the bets
    whose amount is not a number as well). *)
Inductive action : Type :=
  | PlaceBet (sid : string) (amount : Z)
  | Fold (sid : string)
  | AllIn (sid : string)
  | ViewCards (sid : string)
  | CompareCards (sid target : string).

Definition handle (a : action) : server → outcome server :=
  match a with
  | PlaceBet sid amount => on_place_bet sid amount
  | Fold sid => on_fold sid
  | AllIn sid => on_all_in sid
  | ViewCards sid => on_view_cards sid
  | CompareCards sid target => on_compare_cards sid target
  end.

(** ** Creating a room and taking a seat *)

(** The player object built by create-room and join-room. *)
Definition newPlayer (sid nm : string) : player :=
  Player sid nm 10000 [] false false 0 false false.

(** The room object built by create-room. *)
Definition createRoom (sid nm : string) : room :=
  Room sid [newPlayer sid nm] Waiting 0 (-1) 0 [] 0 100 [] [] None None None.

(** [room.players.push(player)] of join-room, once its checks have passed
    (the room is waiting, has fewer than 8 seats and no player of that
    name). *)
Definition seatPlayer (sid nm : string) (r : room) : room :=
  set_players (players r ++ [newPlayer sid nm]) r.

(** ** Notions of the specification *)

(** The category order of the game as the specification lists it, lowest
    first, and the lexicographic order on (category, value) it induces. *)
Definition categoryOrder : list handType :=
  [HighCard; Pair; Straight; Flush; StraightFlush; ThreeOfAKind].

Definition below (c1 c2 : handType) : Prop :=
  ∃ i j : nat, categoryOrder !! i = Some c1 ∧ categoryOrder !! j = Some c2 ∧ (i < j)%nat.

Definition lexBelow (c1 : handType) (v1 : Z) (c2 : handType) (v2 : Z) : Prop :=
  below c1 c2 ∨ (c1 = c2 ∧ v1 < v2).


(** The sum of [f] over a list. *)
Fixpoint sumOver {A} (f : A → Z) (l : list A) : Z :=
  match l with
  | [] => 0
  | x :: l' => f x + sumOver f l'
  end.

(** The ante a player is charged at the start of a hand. *)
Definition anteOf (p : player) : Z := Z.min 100 (money p).

(** What [startNewHand] makes of a player: [anteSpec p p'] relates the player
    before and after. *)
Definition anteSpec (p p' : player) : Prop :=
  id p' = id p ∧ name p' = name p
  ∧ viewedCards p' = false ∧ allIn p' = false ∧ actedThisRound p' = false
  ∧ (0 < money p →
     length (hand p') = 3%nat ∧ folded p' = false
     ∧ currentBet p' = anteOf p ∧ money p' = money p - anteOf p)
  ∧ (money p <= 0 →
     hand p' = [] ∧ folded p' = true ∧ currentBet p' = 0 ∧ money p' = money p).

(** What closing a round and a hand may change of a player when the pot is
    [pt]: the acted flag, and the balance of a player still in the hand,
    which can only grow when the pot is not negative. *)
Definition settled (pt : Z) (p p' : player) : Prop :=
  id p' = id p ∧ name p' = name p ∧ hand p' = hand p
  ∧ viewedCards p' = viewedCards p ∧ folded p' = folded p
  ∧ currentBet p' = currentBet p ∧ allIn p' = allIn p
  ∧ (inHand p = false → money p' = money p)
  ∧ (0 <= pt → money p <= money p').

(** The amount an accepted action moves from the sender's balance to the
    pot: [actualAmount] for a bet, [allInAmount] for an all-in, nothing for
    the other actions. *)
Definition charged (a : action) (r : room) : Z :=
  match a with
  | PlaceBet sid amount =>
      match findPlayer sid (players r) with
      | Some (_, p) => if viewedCards p then amount else amount `div` 2
      | None => 0
      end
  | AllIn sid =>
      match findPlayer sid (players r) with
      | Some (_, p) => money p
      | None => 0
      end
  | _ => 0
  end.

(** The states of one hand on the integer engine: [startNewHand] on a room
    [r0] (with [n0] timers pending), then accepted actions, the bets with
    integer amounts; the list collects the charges of these actions, latest
    first.  [inHandFromN] has the hands with any amounts. *)
Inductive inHandFrom (pick : nat → nat) (r0 : room) (n0 : nat)
  : list Z → server → Prop :=
  | hand_started :
      inHandFrom pick r0 n0 [] (Server (startNewHand pick r0) n0)
  | hand_action (charges : list Z) (s s' : server) (a : action) :
      inHandFrom pick r0 n0 charges s →
      handle a s = Accepted s' →
      inHandFrom pick r0 n0 (charged a (theRoom s) :: charges) s'.

(** The accounting invariant of a hand. *)
Definition potInv (r : room) : Prop :=
  pot r = sumOver currentBet (players r)
  ∧ Forall (λ p, 0 <= currentBet p) (players r)
  ∧ 0 <= minBet r
  ∧ Forall (λ p, folded p = false → 0 <= money p) (players r).

(** The part of a handler that validates and applies the action. *)
Definition applyAction (a : action) (r : room) : outcome room :=
  match a with
  | PlaceBet sid amount => apply_place_bet sid amount r
  | Fold sid => apply_fold sid r
  | AllIn sid => apply_all_in sid r
  | ViewCards sid => apply_view_cards sid r
  | CompareCards sid target => apply_compare_cards sid target r
  end.

(** During a hand an all-in player has no money left. *)
Definition allInBroke (r : room) : Prop :=
  Forall (λ p, allIn p = true → money p = 0) (players r).

(** The steps of the server on one room: an accepted action, or a pending
    timer firing (with the draws [pick] of its shuffle). *)
Inductive serverStep : server → server → Prop :=
  | step_action (a : action) (s s' : server) :
      handle a s = Accepted s' → serverStep s s'
  | step_timer (pick : nat → nat) (s s' : server) :
      fireTimer pick s = Some s' → serverStep s s'.

(** ** A two-player table, used to exercise the statements

    An and Binh sit down, An starts the game; the shuffle draws 0 at every
    step. *)
Definition noShuffle (i : nat) : nat := 0%nat.

Definition duelRoom : room :=
  seatPlayer "sock-2" "Binh" (createRoom "sock-1" "An").

Definition duelStart : server :=
  run (on_start_game noShuffle "sock-1" (Server duelRoom 0)) (Server duelRoom 0).

(** Binh, first to act, folds: the hand is resolved and the next hand is
    scheduled. *)
Definition duelFolded : server := run (on_fold "sock-2" duelStart) duelStart.

(** Before the timer fires, An goes all-in. *)
Definition duelAllIn : server := run (on_all_in "sock-1" duelFolded) duelFolded.

(** A showdown between three fours and the straight 4-3-2. *)
Definition showdownRoom : room :=
  Room "sock-1"
       [Player "sock-1" "An" 9900
               [Card R4 Spades; Card R4 Hearts; Card R4 Diamonds]
               false false 100 false false;
        Player "sock-2" "Binh" 9900
               [Card R4 Clubs; Card R3 Hearts; Card R2 Diamonds]
               false false 100 false false]
       Playing 1 0 200 [] 1 100 [0%nat; 1%nat] [] None (Some 1) (Some 2).

(** The player seated at [i]. *)
Definition seatOf (i : nat) (s : server) : player :=
  default (newPlayer EmptyString EmptyString) (players (theRoom s) !! i).

(** Binh opens blind at the minimum and An calls blind: round 2 begins, with
    Binh to act. *)
Definition duelRound2 : server :=
  let s1 := run (on_place_bet "sock-2" 100 duelStart) duelStart in
  run (on_place_bet "sock-1" 100 s1) s1.

(** Binh opens blind declaring 19000: the minimum is above An's balance. *)
Definition duelRaised : server :=
  run (on_place_bet "sock-2" 19000 duelStart) duelStart.



(** ** Further notions *)

(** [res] is the answer of a cyclic scan of the seats that starts right after
    seat [from] and takes the first player accepted by [el]: either nobody is
    accepted and [res] is -1, or [res] is the seat [k] steps after [from]
    (1 to n steps, so [from] itself comes last), its player is accepted and
    the players of the seats passed over are not. *)
Definition firstAfter (el : player → bool) (ps : list player) (from res : Z)
  : Prop :=
  let n := Z.of_nat (length ps) in
  (res = -1 ∧ Forall (λ p, el p = false) ps)
  ∨ (∃ k : Z, 1 <= k <= n ∧ res = (from + k) `mod` n
       ∧ (∃ p, ps !! Z.to_nat res = Some p ∧ el p = true)
       ∧ ∀ j p, 1 <= j < k →
                ps !! Z.to_nat ((from + j) `mod` n) = Some p → el p = false).

(** The socket that sends an action. *)
Definition sender (a : action) : string :=
  match a with
  | PlaceBet sid _ | Fold sid | AllIn sid | ViewCards sid
  | CompareCards sid _ => sid
  end.

(** What an action never undoes at a seat: the player sitting there, the
    cards dealt, and the folded, viewed and all-in flags once set. *)
Definition keepsSeat (p p' : player) : Prop :=
  id p' = id p ∧ name p' = name p ∧ hand p' = hand p
  ∧ (folded p = true → folded p' = true)
  ∧ (viewedCards p = true → viewedCards p' = true)
  ∧ (allIn p = true → allIn p' = true).

(** The array [winners] of [resolveHand] (empty when nobody is left in the
    hand). *)
Definition resolveWinners (r : room) : list (nat * player) :=
  if (length (activeSeats r) =? 0)%nat then [] else winnersOf (activeSeats r).

(** The turn is well placed: either it is -1 and no player can act, or it is
    the seat of a player who can. *)
Definition turnOk (r : room) : Prop :=
  (currentTurn r = -1 ∧ Forall (λ p, canAct p = false) (players r))
  ∨ (∃ (i : nat) (p : player),
       currentTurn r = Z.of_nat i ∧ players r !! i = Some p ∧ canAct p = true).

(** ** Disconnection

    The disconnect handler, for a socket that [players] (the map of
    sockets) registers with this room.  [None] is [rooms.delete]: the host
    leaving a waiting room closes it.  The flag [connected], which the
    handler clears and no code of the server reads, is not part of the
    player record. *)
Definition isWaiting (r : room) : bool :=
  match gameState r with Waiting => true | _ => false end.





(** ** The lobby

    create-room and join-room on the room they build or find.  The string
    methods [trim] and [toLowerCase] are parameters of the model. *)
Inductive joinError : Type := MissingInfo | RoomStarted | RoomFull | NameTaken.

Definition create_room (trim : string → string) (sid playerName : string)
  : option room :=
  if bool_decide (trim playerName = EmptyString) then None
  else Some (createRoom sid (trim playerName)).

Definition join_room (trim lower : string → string) (sid playerName : string)
           (r : room) : joinError + room :=
  if bool_decide (playerName = EmptyString) then inl MissingInfo
  else if negb (isWaiting r) then inl RoomStarted
  else if (8 <=? length (players r))%nat then inl RoomFull
  else if existsb (λ p, bool_decide (lower (name p) = lower (trim playerName)))
                  (players r)
       then inl NameTaken
       else inr (seatPlayer sid (trim playerName) r).

(** The rooms of the lobby: created, then joined any number of times. *)
Inductive lobby (trim lower : string → string) : room → Prop :=
  | lobby_created (sid playerName : string) (r : room) :
      create_room trim sid playerName = Some r → lobby trim lower r
  | lobby_joined (sid playerName : string) (r r' : room) :
      lobby trim lower r →
      join_room trim lower sid playerName r = inr r' →
      lobby trim lower r'.

(** ** The engine on JS numbers

    The place-bet handler reads its amount with [parseInt], which returns an
    integer or NaN (for a missing or non-numeric amount), and neither of its
    two tests on the amount refuses NaN.  From such a bet on, balances,
    stakes and the pot can be NaN.  This part gives the engine of a hand on
    balances that are JS numbers, integer or NaN: the same functions as
    above, each carrying the suffix [N].  The minimum bet, the round and the
    counters stay integers: they are only ever assigned integers.  On rooms
    whose balances are integers and bets whose amount is an integer, it is
    the engine above ([handleN_lift]). *)

(** [a >= b] on numbers. *)
Definition num_geb (a b : num) : bool :=
  match a, b with Num x, Num y => y <=? x | _, _ => false end.

(** [Math.floor(a / k)] for a positive count [k]. *)
Definition num_floordiv (a : num) (k : nat) : num :=
  match a with Num x => Num (x `div` Z.of_nat k) | NaN => NaN end.

Record playerN : Type := PlayerN {
  idN : string;
  nameN : string;
  moneyN : num;
  handN : list card;
  viewedCardsN : bool;
  foldedN : bool;
  currentBetN : num;
  allInN : bool;
  actedThisRoundN : bool
}.

Definition set_moneyN (x : num) (p : playerN) : playerN :=
  PlayerN (idN p) (nameN p) x (handN p) (viewedCardsN p) (foldedN p)
          (currentBetN p) (allInN p) (actedThisRoundN p).
Definition set_viewedCardsN (x : bool) (p : playerN) : playerN :=
  PlayerN (idN p) (nameN p) (moneyN p) (handN p) x (foldedN p)
          (currentBetN p) (allInN p) (actedThisRoundN p).
Definition set_foldedN (x : bool) (p : playerN) : playerN :=
  PlayerN (idN p) (nameN p) (moneyN p) (handN p) (viewedCardsN p) x
          (currentBetN p) (allInN p) (actedThisRoundN p).
Definition set_currentBetN (x : num) (p : playerN) : playerN :=
  PlayerN (idN p) (nameN p) (moneyN p) (handN p) (viewedCardsN p) (foldedN p)
          x (allInN p) (actedThisRoundN p).
Definition set_allInN (x : bool) (p : playerN) : playerN :=
  PlayerN (idN p) (nameN p) (moneyN p) (handN p) (viewedCardsN p) (foldedN p)
          (currentBetN p) x (actedThisRoundN p).
Definition set_actedThisRoundN (x : bool) (p : playerN) : playerN :=
  PlayerN (idN p) (nameN p) (moneyN p) (handN p) (viewedCardsN p) (foldedN p)
          (currentBetN p) (allInN p) x.

Record betRecordN : Type := BetRecordN {
  bet_playerIdN : string;
  bet_playerNameN : string;
  declaredAmountN : num;
  actualAmountN : num;
  bet_viewedCardsN : bool
}.

Record roomN : Type := RoomN {
  hostN : string;
  playersN : list playerN;
  gameStateN : phase;
  currentRoundN : Z;
  dealerIndexN : Z;
  potN : num;
  deckN : list card;
  currentTurnN : Z;
  minBetN : Z;
  tournamentPlayersN : list nat;
  betHistoryN : list betRecordN;
  lastRaiseN : option string;
  handsPlayedN : option Z;
  startingPlayerCountN : option Z
}.

Definition set_playersN (x : list playerN) (r : roomN) : roomN :=
  RoomN (hostN r) x (gameStateN r) (currentRoundN r) (dealerIndexN r) (potN r)
        (deckN r) (currentTurnN r) (minBetN r) (tournamentPlayersN r)
        (betHistoryN r) (lastRaiseN r) (handsPlayedN r) (startingPlayerCountN r).
Definition set_gameStateN (x : phase) (r : roomN) : roomN :=
  RoomN (hostN r) (playersN r) x (currentRoundN r) (dealerIndexN r) (potN r)
        (deckN r) (currentTurnN r) (minBetN r) (tournamentPlayersN r)
        (betHistoryN r) (lastRaiseN r) (handsPlayedN r) (startingPlayerCountN r).
Definition set_currentRoundN (x : Z) (r : roomN) : roomN :=
  RoomN (hostN r) (playersN r) (gameStateN r) x (dealerIndexN r) (potN r)
        (deckN r) (currentTurnN r) (minBetN r) (tournamentPlayersN r)
        (betHistoryN r) (lastRaiseN r) (handsPlayedN r) (startingPlayerCountN r).
Definition set_potN (x : num) (r : roomN) : roomN :=
  RoomN (hostN r) (playersN r) (gameStateN r) (currentRoundN r) (dealerIndexN r) x
        (deckN r) (currentTurnN r) (minBetN r) (tournamentPlayersN r)
        (betHistoryN r) (lastRaiseN r) (handsPlayedN r) (startingPlayerCountN r).
Definition set_currentTurnN (x : Z) (r : roomN) : roomN :=
  RoomN (hostN r) (playersN r) (gameStateN r) (currentRoundN r) (dealerIndexN r)
        (potN r) (deckN r) x (minBetN r) (tournamentPlayersN r)
        (betHistoryN r) (lastRaiseN r) (handsPlayedN r) (startingPlayerCountN r).
Definition set_tournamentPlayersN (x : list nat) (r : roomN) : roomN :=
  RoomN (hostN r) (playersN r) (gameStateN r) (currentRoundN r) (dealerIndexN r)
        (potN r) (deckN r) (currentTurnN r) (minBetN r) x
        (betHistoryN r) (lastRaiseN r) (handsPlayedN r) (startingPlayerCountN r).
Definition set_betHistoryN (x : list betRecordN) (r : roomN) : roomN :=
  RoomN (hostN r) (playersN r) (gameStateN r) (currentRoundN r) (dealerIndexN r)
        (potN r) (deckN r) (currentTurnN r) (minBetN r) (tournamentPlayersN r)
        x (lastRaiseN r) (handsPlayedN r) (startingPlayerCountN r).
(** [room.minBet = x; room.lastRaise = socket.id] *)
Definition raiseToN (x : Z) (sid : string) (r : roomN) : roomN :=
  RoomN (hostN r) (playersN r) (gameStateN r) (currentRoundN r) (dealerIndexN r)
        (potN r) (deckN r) (currentTurnN r) x (tournamentPlayersN r)
        (betHistoryN r) (Some sid) (handsPlayedN r) (startingPlayerCountN r).

(** *** Turn order *)

Definition seatAtN (ps : list playerN) (idx : Z) : option playerN :=
  if idx <? 0 then None else ps !! Z.to_nat idx.

Fixpoint scanSeatsN (eligible : playerN → bool) (ps : list playerN) (n : Z)
         (fuel : nat) (idx : Z) : Z :=
  match fuel with
  | O => -1
  | S fuel' =>
      match seatAtN ps idx with
      | Some p => if eligible p then idx
                  else scanSeatsN eligible ps n fuel' (Z.rem (idx + 1) n)
      | None => -1
      end
  end.

(** [!p.folded && p.money > 0 && !p.allIn] *)
Definition canActN (p : playerN) : bool :=
  negb (foldedN p) && num_gtb (moneyN p) (Num 0) && negb (allInN p).

(** [!p.folded && p.money > 0] *)
Definition inHandN (p : playerN) : bool :=
  negb (foldedN p) && num_gtb (moneyN p) (Num 0).

Definition getNextActivePlayerIndexN (r : roomN) (startIndex : Z) : Z :=
  let n := Z.of_nat (length (playersN r)) in
  if n =? 0 then -1
  else scanSeatsN canActN (playersN r) n (length (playersN r))
                  (Z.rem (startIndex + 1) n).

Definition getFirstPlayerAfterDealerN (r : roomN) : Z :=
  let n := Z.of_nat (length (playersN r)) in
  if n =? 0 then -1
  else scanSeatsN inHandN (playersN r) n (length (playersN r))
                  (Z.rem (dealerIndexN r + 1) n).

(** *** Round and hand completion *)

Definition isRoundCompleteN (r : roomN) : bool :=
  let able := List.filter canActN (playersN r) in
  if (length able =? 0)%nat then true else forallb actedThisRoundN able.

Definition checkAndAdvanceRoundN (r : roomN) : roomN * bool :=
  let active := List.filter inHandN (playersN r) in
  if (length active <=? 1)%nat then (r, false)
  else
    let r1 := set_playersN (set_actedThisRoundN false <$> playersN r) r in
    let r2 := set_currentRoundN (currentRoundN r1 + 1) r1 in
    (set_currentTurnN (getFirstPlayerAfterDealerN r2) r2, true).

Definition isHandFinishedN (r : roomN) : bool :=
  let active := List.filter inHandN (playersN r) in
  if (length active <=? 1)%nat then true
  else
    let able :=
      List.filter (λ p, negb (allInN p) && num_gtb (moneyN p) (Num 0)) active in
    (length able =? 0)%nat.

(** *** Resolving a hand *)

(** [w.money += x] *)
Definition addMoneyN (x : num) (p : playerN) : playerN :=
  set_moneyN (num_add (moneyN p) x) p.

Definition seatedN (ps : list playerN) : list (nat * playerN) := imap pair ps.

Definition activeSeatsN (r : roomN) : list (nat * playerN) :=
  List.filter (λ e, inHandN e.2) (seatedN (playersN r)).

Definition winnersOfN (active : list (nat * playerN)) : list (nat * playerN) :=
  if (length active =? 1)%nat then take 1 active
  else
    let evaluated := (λ e, (e, evaluateHand (handN e.2))) <$> active in
    let sorted := sortBy (λ a b, compareHands b.2 a.2) evaluated in
    let bestScore := from_option (λ e, hvalue e.2) NaN (sorted !! 0%nat) in
    fst <$> List.filter (λ e, num_eqb (hvalue e.2) bestScore) sorted.

Definition payWinnersN (pt : num) (winners : list (nat * playerN))
           (ps : list playerN) : list playerN :=
  if (1 <? length winners)%nat then
    let share := num_floordiv pt (length winners) in
    foldl (λ acc w, alter (addMoneyN share) w.1 acc) ps winners
  else if (length winners =? 1)%nat then
    match winners !! 0%nat with
    | Some w => alter (addMoneyN pt) w.1 ps
    | None => ps
    end
  else ps.

(** [resolveHand], as to the room: the record it returns is only emitted. *)
Definition resolveHandN (r : roomN) : roomN :=
  let active := activeSeatsN r in
  if (length active =? 0)%nat then r
  else set_playersN (payWinnersN (potN r) (winnersOfN active) (playersN r)) r.

(** *** After a hand *)

(** [tp.money > 0] for the roster's player object seated at [i]. *)
Definition solventN (ps : list playerN) (i : nat) : bool :=
  match ps !! i with
  | Some p => num_gtb (moneyN p) (Num 0)
  | None => false
  end.

Definition pruneRosterN (r : roomN) : roomN :=
  set_tournamentPlayersN
    (List.filter (solventN (playersN r)) (tournamentPlayersN r)) r.

Definition tournamentEndedN (r : roomN) : bool :=
  (length (tournamentPlayersN r) <=? 1)%nat
  || geDefined (handsPlayedN r) (startingPlayerCountN r).

(** [afterHandEnded], as to the room, with the value it returns: [true]
    when the tournament has ended, [false] when the next hand has been
    scheduled.  The champion and the ranking are only emitted. *)
Definition afterHandEndedN (r : roomN) : roomN * bool :=
  let r1 := pruneRosterN r in
  if tournamentEndedN r1 then (set_gameStateN Ended r1, true) else (r1, false).

(** *** The server around one room *)

Record serverN : Type := ServerN { theRoomN : roomN; timersN : nat }.

Definition onRoomN (f : roomN → outcome roomN) (k : serverN → serverN)
           (s : serverN) : outcome serverN :=
  match f (theRoomN s) with
  | Rejected e => Rejected e
  | Accepted r => Accepted (k (ServerN r (timersN s)))
  end.

Definition findPlayerN (sid : string) (ps : list playerN)
  : option (nat * playerN) :=
  list_find (λ p, idN p = sid) ps.

Definition closeRoundN (r : roomN) : roomN :=
  if isRoundCompleteN r then (checkAndAdvanceRoundN r).1 else r.

Definition closeHandN (s : serverN) : serverN :=
  if isHandFinishedN (theRoomN s) then
    let r2 := pruneRosterN (resolveHandN (theRoomN s)) in
    let '(r3, ended) := afterHandEndedN r2 in
    ServerN r3 (if ended then timersN s else S (timersN s))
  else s.

Definition settleN (s : serverN) : serverN :=
  closeHandN (ServerN (closeRoundN (theRoomN s)) (timersN s)).

(** *** The socket handlers *)

Definition apply_view_cardsN (sid : string) (r : roomN) : outcome roomN :=
  match findPlayerN sid (playersN r) with
  | None => Rejected PlayerNotFound
  | Some (i, player) =>
      if viewedCardsN player then Rejected AlreadyViewed
      else if negb (currentTurnN r =? Z.of_nat i) then Rejected NotYourTurn
      else Accepted (set_playersN
                       (<[i := set_viewedCardsN true player]> (playersN r)) r)
  end.

(** The place-bet handler; [declared] is [parseInt(amount)]. *)
Definition apply_place_betN (sid : string) (declared : num) (r : roomN)
  : outcome roomN :=
  match findPlayerN sid (playersN r) with
  | None => Rejected PlayerNotFound
  | Some (i, player) =>
      if foldedN player then Rejected AlreadyFolded
      else if negb (currentTurnN r =? Z.of_nat i) then Rejected NotYourTurn
      else if num_ltb declared (Num (minBetN r)) then Rejected BelowMinBet
      else
        let actual :=
          if viewedCardsN player then declared else num_floordiv declared 2 in
        if num_ltb (moneyN player) actual then Rejected NotEnoughMoney
        else
          let player' :=
            set_actedThisRoundN true
              (set_currentBetN (num_add (currentBetN player) actual)
                 (set_moneyN (num_sub (moneyN player) actual) player)) in
          let r1 := set_potN (num_add (potN r) actual)
                      (set_playersN (<[i := player']> (playersN r)) r) in
          let r2 :=
            match declared with
            | Num d => if minBetN r1 <? d then raiseToN d sid r1 else r1
            | NaN => r1
            end in
          let r3 := set_betHistoryN
                      (betHistoryN r2 ++
                       [BetRecordN sid (nameN player) declared actual
                                   (viewedCardsN player)])
                      r2 in
          Accepted (set_currentTurnN
                      (getNextActivePlayerIndexN r3 (Z.of_nat i)) r3)
  end.

Definition apply_foldN (sid : string) (r : roomN) : outcome roomN :=
  match findPlayerN sid (playersN r) with
  | None => Rejected PlayerNotFound
  | Some (i, player) =>
      if foldedN player then Rejected AlreadyFolded
      else if negb (currentTurnN r =? Z.of_nat i) then Rejected NotYourTurn
      else
        let player' := set_actedThisRoundN true (set_foldedN true player) in
        let r1 := set_playersN (<[i := player']> (playersN r)) r in
        Accepted (set_currentTurnN
                    (getNextActivePlayerIndexN r1 (Z.of_nat i)) r1)
  end.

Definition apply_all_inN (sid : string) (r : roomN) : outcome roomN :=
  match findPlayerN sid (playersN r) with
  | None => Rejected PlayerNotFound
  | Some (i, player) =>
      if foldedN player then Rejected AlreadyFolded
      else if allInN player then Rejected AlreadyAllIn
      else if negb (currentTurnN r =? Z.of_nat i) then Rejected NotYourTurn
      else
        let allInAmount := moneyN player in
        let player' :=
          set_actedThisRoundN true
            (set_allInN true
               (set_currentBetN (num_add (currentBetN player) allInAmount)
                  (set_moneyN (Num 0) player))) in
        let r1 := set_potN (num_add (potN r) allInAmount)
                    (set_playersN (<[i := player']> (playersN r)) r) in
        let r2 :=
          match allInAmount with
          | Num a => if minBetN r1 <? a then raiseToN a sid r1 else r1
          | NaN => r1
          end in
        Accepted (set_currentTurnN
                    (getNextActivePlayerIndexN r2 (Z.of_nat i)) r2)
  end.

Definition requiredActualN (player : playerN) (r : roomN) : Z :=
  if viewedCardsN player then minBetN r else minBetN r `div` 2.

Definition apply_compare_cardsN (sid target : string) (r : roomN)
  : outcome roomN :=
  match findPlayerN sid (playersN r), findPlayerN target (playersN r) with
  | Some (i, player), Some (j, opponent) =>
      if foldedN player || foldedN opponent then Rejected SomeoneFolded
      else if currentRoundN r <? 2 then Rejected RoundTooEarly
      else if negb (currentTurnN r =? Z.of_nat i) then Rejected NotYourTurn
      else if num_ltb (currentBetN player) (Num (requiredActualN player r))
      then Rejected StakeNotMatched
      else
        let hand1 := evaluateHand (handN player) in
        let hand2 := evaluateHand (handN opponent) in
        let result := compareHands hand1 hand2 in
        let ps1 :=
          if 0 <? result then alter (set_foldedN true) j (playersN r)
          else if result <? 0 then alter (set_foldedN true) i (playersN r)
          else playersN r in
        let ps2 := alter (set_actedThisRoundN true) i ps1 in
        let r1 := set_playersN ps2 r in
        Accepted (set_currentTurnN
                    (getNextActivePlayerIndexN r1 (Z.of_nat i)) r1)
  | _, _ => Rejected PlayerNotFound
  end.

(** The player intents; the amount of a bet is what [parseInt] made of it. *)
Inductive actionN : Type :=
  | PlaceBetN (sid : string) (declared : num)
  | FoldN (sid : string)
  | AllInN (sid : string)
  | ViewCardsN (sid : string)
  | CompareCardsN (sid target : string).

Definition applyActionN (a : actionN) (r : roomN) : outcome roomN :=
  match a with
  | PlaceBetN sid declared => apply_place_betN sid declared r
  | FoldN sid => apply_foldN sid r
  | AllInN sid => apply_all_inN sid r
  | ViewCardsN sid => apply_view_cardsN sid r
  | CompareCardsN sid target => apply_compare_cardsN sid target r
  end.

(** Every handler but view-cards closes the round and the hand. *)
Definition closesN (a : actionN) : bool :=
  match a with ViewCardsN _ => false | _ => true end.

Definition handleN (a : actionN) : serverN → outcome serverN :=
  onRoomN (applyActionN a) (if closesN a then settleN else λ s, s).

(** *** Rooms and actions on integers, seen as rooms and actions on numbers *)

Definition liftP (p : player) : playerN :=
  PlayerN (id p) (name p) (Num (money p)) (hand p) (viewedCards p) (folded p)
          (Num (currentBet p)) (allIn p) (actedThisRound p).

Definition liftB (b : betRecord) : betRecordN :=
  BetRecordN (bet_playerId b) (bet_playerName b) (Num (declaredAmount b))
             (Num (actualAmount b)) (bet_viewedCards b).

Definition liftR (r : room) : roomN :=
  RoomN (host r) (liftP <$> players r) (gameState r) (currentRound r)
        (dealerIndex r) (Num (pot r)) (deck r) (currentTurn r) (minBet r)
        (tournamentPlayers r) (liftB <$> betHistory r) (lastRaise r)
        (handsPlayed r) (startingPlayerCount r).

Definition liftS (s : server) : serverN := ServerN (liftR (theRoom s)) (timers s).

Definition liftA (a : action) : actionN :=
  match a with
  | PlaceBet sid amount => PlaceBetN sid (Num amount)
  | Fold sid => FoldN sid
  | AllIn sid => AllInN sid
  | ViewCards sid => ViewCardsN sid
  | CompareCards sid target => CompareCardsN sid target
  end.

Definition liftO {A B} (f : A → B) (o : outcome A) : outcome B :=
  match o with Rejected e => Rejected e | Accepted x => Accepted (f x) end.

(** The amount of the bet, if any, is a number. *)
Definition numericBet (a : actionN) : Prop :=
  match a with PlaceBetN _ NaN => False | _ => True end.

(** The states of one hand, dealt on a room with integer balances: then
    accepted actions, whatever their amounts; the list collects them,
    latest first. *)
Inductive inHandFromN (pick : nat → nat) (r0 : room) (n0 : nat)
  : list actionN → serverN → Prop :=
  | hand_startedN :
      inHandFromN pick r0 n0 [] (liftS (Server (startNewHand pick r0) n0))
  | hand_actionN (acts : list actionN) (s s' : serverN) (a : actionN) :
      inHandFromN pick r0 n0 acts s →
      handleN a s = Accepted s' →
      inHandFromN pick r0 n0 (a :: acts) s'.

(** The sum of the stakes, as [+] computes it. *)
Definition stakesN (ps : list playerN) : num :=
  foldr (λ p acc, num_add (currentBetN p) acc) (Num 0) ps.

(** An all-in player has no money left. *)
Definition allInBrokeN (r : roomN) : Prop :=
  Forall (λ p, allInN p = true → moneyN p = Num 0) (playersN r).

(** The turn is not on an all-in player. *)
Definition turnNotAllIn (r : roomN) : Prop :=
  ∀ (i : nat) (p : playerN),
    currentTurnN r = Z.of_nat i → playersN r !! i = Some p → allInN p = false.

(** What closing a round and a hand leaves of a player: everything but the
    acted flag and, for a player still in the hand, the balance. *)
Definition settledN (p p' : playerN) : Prop :=
  idN p' = idN p ∧ nameN p' = nameN p ∧ handN p' = handN p
  ∧ viewedCardsN p' = viewedCardsN p ∧ foldedN p' = foldedN p
  ∧ currentBetN p' = currentBetN p ∧ allInN p' = allInN p
  ∧ (inHandN p = false → moneyN p' = moneyN p).

(** The turn is well placed: -1 with no player able to act, or the seat of
    a player who can. *)
Definition turnOkN (r : roomN) : Prop :=
  (currentTurnN r = -1 ∧ Forall (λ p, canActN p = false) (playersN r))
  ∨ (∃ (i : nat) (p : playerN),
       currentTurnN r = Z.of_nat i ∧ playersN r !! i = Some p
       ∧ canActN p = true).

Definition senderN (a : actionN) : string :=
  match a with
  | PlaceBetN sid _ | FoldN sid | AllInN sid | ViewCardsN sid
  | CompareCardsN sid _ => sid
  end.

(** The two-player room as start-game hands it to [startNewHand]. *)
Definition duelOpened : room :=
  Room (host duelRoom) (players duelRoom) Playing (currentRound duelRoom)
       (dealerIndex duelRoom) (pot duelRoom) (deck duelRoom)
       (currentTurn duelRoom) (minBet duelRoom) (seq 0 2) (betHistory duelRoom)
       (lastRaise duelRoom) (Some 0) (Some 2).

(** The two-player table after Binh, first to act in the first hand, has
    sent a bet whose amount is not a number. *)
Definition duelNaN : serverN :=
  let s0 := liftS (Server (startNewHand noShuffle duelOpened) 0) in
  run (handleN (PlaceBetN "sock-2" NaN) s0) s0.

(** The same table after Binh has opened blind declaring 200 instead. *)
Definition duelBetN : serverN :=
  let s0 := liftS (Server (startNewHand noShuffle duelOpened) 0) in
  run (handleN (PlaceBetN "sock-2" (Num 200)) s0) s0.

(** * Properties *)

(** ** Hand evaluation and comparison *)

Ltac case_ifs :=
  repeat match goal with
         | |- context [if ?b then _ else _] => destruct b eqn:?
         end.

Example evaluateHand_three_threes :
  evaluateHand [Card R3 Spades; Card R3 Hearts; Card R3 Diamonds]
  = HandEval ThreeOfAKind (Num 300).
Proof. reflexivity. Qed.

Example evaluateHand_pair_kicker :
  evaluateHand [Card R9 Spades; Card RK Hearts; Card R9 Diamonds]
  = HandEval Pair (Num 913).
Proof. reflexivity. Qed.

Example evaluateHand_flush :
  evaluateHand [Card R9 Clubs; Card RK Clubs; Card R2 Clubs]
  = HandEval Flush (Num 130902).
Proof. reflexivity. Qed.

(** A hand with a card missing reads an undefined entry: the score is NaN. *)
Example evaluateHand_two_cards :
  evaluateHand [Card R9 Clubs; Card RK Hearts] = HandEval HighCard NaN.
Proof. reflexivity. Qed.

Example createDeck_52 : length createDeck = 52%nat ∧ NoDup createDeck.
Proof.
  split; [reflexivity|].
  apply (bool_decide_unpack (NoDup createDeck)). by vm_compute.
Qed.

Lemma perm3_cases {A} (a b c : A) :
  [a; c; b] ≡ₚ [a; b; c] ∧ [b; a; c] ≡ₚ [a; b; c] ∧ [b; c; a] ≡ₚ [a; b; c]
  ∧ [c; a; b] ≡ₚ [a; b; c] ∧ [c; b; a] ≡ₚ [a; b; c].
Proof.
  assert (H1 : [a; c; b] ≡ₚ [a; b; c]) by (constructor; apply perm_swap).
  assert (H2 : [b; a; c] ≡ₚ [a; b; c]) by apply perm_swap.
  assert (H3 : [b; c; a] ≡ₚ [a; b; c]).
  { etrans; [|exact H2]. constructor. apply perm_swap. }
  assert (H4 : [c; a; b] ≡ₚ [a; b; c]).
  { etrans; [|exact H1]. apply perm_swap. }
  assert (H5 : [c; b; a] ≡ₚ [a; b; c]).
  { etrans; [|exact H3]. apply perm_swap. }
  done.
Qed.

Lemma perm3_inv {A} (a b c : A) (l : list A) :
  l ≡ₚ [a; b; c] →
  l = [a; b; c] ∨ l = [b; a; c] ∨ l = [b; c; a]
  ∨ l = [a; c; b] ∨ l = [c; a; b] ∨ l = [c; b; a].
Proof.
  intros Hp. symmetry in Hp. apply permutations_Permutation in Hp.
  simpl in Hp. rewrite !elem_of_cons, elem_of_nil in Hp. tauto.
Qed.

(** Sorting three cards by descending value. *)
Lemma sort3 (a b c : card) :
  ∃ x y z, sortBy (λ a b, cardValue b - cardValue a) [a; b; c] = [x; y; z]
           ∧ [x; y; z] ≡ₚ [a; b; c]
           ∧ cardValue z <= cardValue y <= cardValue x.
Proof.
  destruct (perm3_cases a b c) as (P1 & P2 & P3 & P4 & P5).
  cbn [sortBy foldr insertBy].
  destruct (Z.leb_spec (cardValue c - cardValue b) 0); cbn [insertBy];
    destruct (Z.leb_spec (cardValue b - cardValue a) 0);
    destruct (Z.leb_spec (cardValue c - cardValue a) 0);
    (do 3 eexists; split; [reflexivity | split; [done | lia]]).
Qed.

Lemma cardValue_range (c : card) : 2 <= cardValue c <= 14.
Proof. destruct c as [[] ?]; cbv; split; discriminate. Qed.

Lemma cardValue_ace (c : card) : cardValue c = 14 ↔ rank c = RA.
Proof. destruct c as [[] ?]; cbv; split; congruence. Qed.

(** The score of a three-card hand is a number, and a straight scores by its
    top card. *)
Lemma eval3_num (a b c : card) :
  ∃ x y z v, [x; y; z] ≡ₚ [a; b; c]
    ∧ cardValue z <= cardValue y <= cardValue x
    ∧ hvalue (evaluateHand [a; b; c]) = Num v
    ∧ (htype (evaluateHand [a; b; c]) = Straight → v = cardValue x * 100)
    ∧ (htype (evaluateHand [a; b; c]) = StraightFlush → v = cardValue x * 1000).
Proof.
  destruct (sort3 a b c) as (x & y & z & Hs & Hp & Ho).
  exists x, y, z. unfold evaluateHand. rewrite Hs. cbn.
  case_ifs; cbn; eexists; (split; [exact Hp|]); (split; [exact Ho|]);
    (split; [reflexivity|]); split; intros; congruence.
Qed.

Lemma hand3 (h : list card) : length h = 3%nat → ∃ a b c, h = [a; b; c].
Proof.
  destruct h as [|a [|b [|c [|d h]]]]; intros; simplify_eq/=. by exists a, b, c.
Qed.

Lemma evaluateHand_num (h : list card) :
  length h = 3%nat → ∃ v, hvalue (evaluateHand h) = Num v.
Proof.
  intros (a & b & c & ->)%hand3.
  destruct (eval3_num a b c) as (x & y & z & v & _ & _ & Hv & _). eauto.
Qed.

Lemma top_card_ace (a b c x y z : card) :
  [x; y; z] ≡ₚ [a; b; c] → cardValue z <= cardValue y <= cardValue x →
  RA ∈ rank <$> [a; b; c] ↔ cardValue x = 14.
Proof.
  intros Hp Ho. rewrite <- Hp. pose proof (cardValue_range x) as Hx.
  cbn. rewrite !elem_of_cons, elem_of_nil. split.
  - intros [E|[E|[E|[]]]]; symmetry in E; apply cardValue_ace in E; lia.
  - intros E. left. symmetry. by apply cardValue_ace.
Qed.

Lemma types_index (c : handType) :
  categoryOrder !! Z.to_nat (types c - 1) = Some c.
Proof. by destruct c. Qed.

Lemma index_types (i : nat) (c : handType) :
  categoryOrder !! i = Some c → types c = Z.of_nat i + 1.
Proof.
  intros H. do 6 (destruct i as [|i]; [by simplify_eq/=|]). done.
Qed.

Lemma below_types (c1 c2 : handType) : below c1 c2 ↔ types c1 < types c2.
Proof.
  split.
  - intros (i & j & Hi & Hj & Hlt).
    rewrite (index_types _ _ Hi), (index_types _ _ Hj). lia.
  - intros Hlt. exists (Z.to_nat (types c1 - 1)), (Z.to_nat (types c2 - 1)).
    split_and!; [apply types_index..|].
    destruct c1, c2; cbn in *; lia.
Qed.

Lemma types_inj (c1 c2 : handType) : types c1 = types c2 → c1 = c2.
Proof. destruct c1, c2; cbn; congruence. Qed.

Lemma compareHands_lex (a b : handEval) (va vb : Z) :
  hvalue a = Num va → hvalue b = Num vb →
  (compareHands a b = 1 ↔ lexBelow (htype b) vb (htype a) va)
  ∧ (compareHands a b = -1 ↔ lexBelow (htype a) va (htype b) vb)
  ∧ (compareHands a b = 0 ↔ htype a = htype b ∧ va = vb).
Proof.
  intros Ha Hb. unfold compareHands, lexBelow. rewrite Ha, Hb, !below_types. cbn.
  destruct (Z.ltb_spec (types (htype b)) (types (htype a))) as [H1|H1].
  { split_and!; split; try lia; try (intros _; by left).
    - intros [?|[E ?]]; [lia|rewrite E in H1; lia].
    - intros [E ?]. rewrite E in H1; lia. }
  destruct (Z.ltb_spec (types (htype a)) (types (htype b))) as [H2|H2].
  { split_and!; split; try lia; try (intros _; by left).
    - intros [?|[E ?]]; [lia|rewrite E in H2; lia].
    - intros [E ?]. rewrite E in H2; lia. }
  assert (E : htype a = htype b) by (apply types_inj; lia).
  destruct (Z.ltb_spec vb va); [|destruct (Z.ltb_spec va vb)];
    (split_and!; split; try lia; try (intros [?|[? ?]]; lia);
     try (intros [? ?]; lia);
     intros _; try (right; split; [done|lia]); try (split; [done|lia])).
Qed.

Lemma compareHands_refl (e : handEval) : compareHands e e = 0.
Proof.
  unfold compareHands. rewrite Z.ltb_irrefl.
  destruct (hvalue e); cbn; by rewrite ?Z.ltb_irrefl.
Qed.

(** C5.  [compareHands] is the lexicographic order on (category, value) for
    the category order high-card < pair < straight < flush < straight-flush
    < three-of-a-kind: on the evaluations [a], [b] of two three-card hands it
    returns 1 exactly when [a] is greater, -1 exactly when [a] is smaller
    and 0 exactly when category and value coincide; a three-of-a-kind beats
    every straight-flush; and a hand (of any size) compared with itself
    gives 0. *)
Theorem compareHands_lexicographic (h1 h2 : list card) :
  length h1 = 3%nat → length h2 = 3%nat →
  ∃ va vb : Z,
    hvalue (evaluateHand h1) = Num va ∧ hvalue (evaluateHand h2) = Num vb
    ∧ (compareHands (evaluateHand h1) (evaluateHand h2) = 1
       ↔ lexBelow (htype (evaluateHand h2)) vb (htype (evaluateHand h1)) va)
    ∧ (compareHands (evaluateHand h1) (evaluateHand h2) = -1
       ↔ lexBelow (htype (evaluateHand h1)) va (htype (evaluateHand h2)) vb)
    ∧ (compareHands (evaluateHand h1) (evaluateHand h2) = 0
       ↔ htype (evaluateHand h1) = htype (evaluateHand h2) ∧ va = vb)
    ∧ (htype (evaluateHand h1) = ThreeOfAKind →
       htype (evaluateHand h2) = StraightFlush →
       compareHands (evaluateHand h1) (evaluateHand h2) = 1)
    ∧ (∀ h : list card, compareHands (evaluateHand h) (evaluateHand h) = 0).
Proof.
  intros [va Ha]%evaluateHand_num [vb Hb]%evaluateHand_num.
  exists va, vb.
  destruct (compareHands_lex _ _ _ _ Ha Hb) as (Hgt & Hlt & Heq).
  split_and!; try done.
  - intros E1 E2. unfold compareHands. by rewrite E1, E2.
  - intros h. apply compareHands_refl.
Qed.

(** The example of the specification: three threes beat A-K-Q of spades. *)
Lemma compareHands_lexicographic_witness :
  compareHands (evaluateHand [Card R3 Spades; Card R3 Hearts; Card R3 Diamonds])
               (evaluateHand [Card RA Spades; Card RK Spades; Card RQ Spades]) = 1.
Proof.
  destruct (compareHands_lexicographic
              [Card R3 Spades; Card R3 Hearts; Card R3 Diamonds]
              [Card RA Spades; Card RK Spades; Card RQ Spades]
              eq_refl eq_refl) as (va & vb & _ & _ & _ & _ & _ & H & _).
  apply H; reflexivity.
Defined.

(** C3, as the code has it.  A hand of ranks A-2-3 is a straight when its
    suits differ and a straight-flush when they agree, and it scores by its
    ace (1400, respectively 14000): against it, a hand [g] of the same
    category compares 0 when [g] holds an ace (A-2-3 or Q-K-A) and -1
    otherwise.  A-2-3 is the highest straight, level with Q-K-A. *)
Theorem a23_scores_by_its_ace (sA s2 s3 : Suit) (h g : list card) :
  h ≡ₚ [Card RA sA; Card R2 s2; Card R3 s3] →
  length g = 3%nat →
  (¬ (sA = s2 ∧ s2 = s3) → evaluateHand h = HandEval Straight (Num 1400))
  ∧ (sA = s2 ∧ s2 = s3 → evaluateHand h = HandEval StraightFlush (Num 14000))
  ∧ (htype (evaluateHand g) = htype (evaluateHand h) →
     compareHands (evaluateHand g) (evaluateHand h)
     = if bool_decide (RA ∈ rank <$> g) then 0 else -1).
Proof.
  intros Hp (a & b & c & ->)%hand3.
  assert (He : evaluateHand h
               = if bool_decide (sA = s2 ∧ s2 = s3)
                 then HandEval StraightFlush (Num 14000)
                 else HandEval Straight (Num 1400)).
  { destruct (perm3_inv _ _ _ _ Hp) as [-> | [-> | [-> | [-> | [-> | -> ]]]]];
      destruct sA, s2, s3; reflexivity. }
  split_and!.
  - intros Hn. rewrite He. by rewrite bool_decide_eq_false_2.
  - intros Hs. rewrite He. by rewrite bool_decide_eq_true_2.
  - destruct (eval3_num a b c) as (x & y & z & v & Hperm & Ho & Hv & Hst & Hsf).
    pose proof (top_card_ace _ _ _ _ _ _ Hperm Ho) as Hace.
    pose proof (cardValue_range x) as Hx.
    rewrite He. intros Ht. unfold compareHands. rewrite Ht, Z.ltb_irrefl, Hv.
    destruct (bool_decide (sA = s2 ∧ s2 = s3)); cbn in Ht |- *.
    + specialize (Hsf Ht). subst v.
      destruct (decide (cardValue x = 14)) as [E|E].
      * rewrite bool_decide_eq_true_2 by (by apply Hace). rewrite E. reflexivity.
      * rewrite bool_decide_eq_false_2 by (by rewrite Hace).
        destruct (Z.ltb_spec 14000 (cardValue x * 1000)); [lia|].
        destruct (Z.ltb_spec (cardValue x * 1000) 14000); [done|lia].
    + specialize (Hst Ht). subst v.
      destruct (decide (cardValue x = 14)) as [E|E].
      * rewrite bool_decide_eq_true_2 by (by apply Hace). rewrite E. reflexivity.
      * rewrite bool_decide_eq_false_2 by (by rewrite Hace).
        destruct (Z.ltb_spec 1400 (cardValue x * 100)); [lia|].
        destruct (Z.ltb_spec (cardValue x * 100) 1400); [done|lia].
Qed.

Lemma a23_scores_by_its_ace_witness :
  compareHands
    (evaluateHand [Card R2 Spades; Card R3 Hearts; Card R4 Diamonds])
    (evaluateHand [Card R2 Hearts; Card RA Spades; Card R3 Diamonds])
  = if bool_decide (RA ∈ rank <$> [Card R2 Spades; Card R3 Hearts; Card R4 Diamonds])
    then 0 else -1.
Proof.
  refine (proj2 (proj2 (a23_scores_by_its_ace Spades Hearts Diamonds
            [Card R2 Hearts; Card RA Spades; Card R3 Diamonds]
            [Card R2 Spades; Card R3 Hearts; Card R4 Diamonds] _ eq_refl)) eq_refl).
  apply perm_swap.
Defined.

(** C3, as the specification words it, fails: 2-3-4 does not beat A-2-3. *)
Lemma a23_not_lowest_straight :
  let a23 := [Card RA Spades; Card R2 Hearts; Card R3 Diamonds] in
  let h234 := [Card R2 Spades; Card R3 Hearts; Card R4 Diamonds] in
  htype (evaluateHand a23) = Straight
  ∧ htype (evaluateHand h234) = Straight
  ∧ compareHands (evaluateHand h234) (evaluateHand a23) = -1
  ∧ compareHands (evaluateHand h234) (evaluateHand a23) ≠ 1.
Proof. cbv zeta. split_and!; [reflexivity..|discriminate]. Qed.

(** ** Starting a hand *)

Lemma sumOver_cons {A} (f : A → Z) (x : A) (l : list A) :
  sumOver f (x :: l) = f x + sumOver f l.
Proof. reflexivity. Qed.

Lemma sumOver_app {A} (f : A → Z) (l1 l2 : list A) :
  sumOver f (l1 ++ l2) = sumOver f l1 + sumOver f l2.
Proof.
  induction l1 as [|x l1 IH]; [done|].
  cbn [app]. rewrite !sumOver_cons, IH. lia.
Qed.

Lemma swap_length {A} (i j : nat) (l : list A) : length (swap i j l) = length l.
Proof. unfold swap. repeat case_match; by rewrite ?length_insert. Qed.

Lemma shuffleFrom_length (pick : nat → nat) (i : nat) (d : list card) :
  length (shuffleFrom pick i d) = length d.
Proof.
  revert d. induction i as [|i IH]; intros d; [done|].
  cbn [shuffleFrom]. by rewrite IH, swap_length.
Qed.

Lemma shuffleDeck_length (pick : nat → nat) (d : list card) :
  length (shuffleDeck pick d) = length d.
Proof. apply shuffleFrom_length. Qed.

Lemma dealCards_length (k : nat) (h d : list card) :
  (k ≤ length d)%nat →
  length (dealCards k h d).1 = (length h + k)%nat
  ∧ length (dealCards k h d).2 = (length d - k)%nat.
Proof.
  revert h d. induction k as [|k IH]; intros h d Hk; cbn [dealCards].
  { cbn. lia. }
  destruct (last d) as [c|] eqn:Hl.
  - apply last_Some in Hl as [d' ->]. rewrite removelast_last.
    rewrite length_app in Hk |- *. cbn in Hk |- *.
    destruct (IH (h ++ [c]) d') as [H1 H2]; [lia|].
    rewrite H1, H2, length_app. cbn. lia.
  - apply last_None in Hl. subst d. cbn in Hk. lia.
Qed.

Lemma anteUp_spec (p : player) (pt : Z) (d : list card) :
  (3 ≤ length d)%nat →
  anteSpec p (anteUp p pt d).1.1
  ∧ (anteUp p pt d).1.2 = pt + (if 0 <? money p then anteOf p else 0)
  ∧ length (anteUp p pt d).2
    = (length d - (if (0 <? money p)%Z then 3 else 0))%nat.
Proof.
  intros Hd. unfold anteUp, anteSpec, anteOf. cbn -[dealCards].
  destruct (dealCards_length 3 [] d Hd) as [H1 H2].
  destruct (dealCards 3 [] d) as [h d'] eqn:E. cbn in H1, H2.
  destruct (Z.ltb_spec 0 (money p)); cbn.
  - split_and!; try done; lia.
  - split_and!; try done; lia.
Qed.

Lemma anteAll_spec (ps : list player) (pt : Z) (d : list card) :
  (3 * length ps ≤ length d)%nat →
  Forall2 anteSpec ps (anteAll ps pt d).1.1
  ∧ (anteAll ps pt d).1.2
    = pt + sumOver anteOf (List.filter (λ p, 0 <? money p) ps).
Proof.
  revert pt d. induction ps as [|p ps IH]; intros pt d Hd.
  { cbn. split; [constructor|lia]. }
  cbn [anteAll]. cbn [length] in Hd.
  destruct (anteUp_spec p pt d) as (Hp & Hpt & Hlen); [lia|].
  destruct (anteUp p pt d) as [[p' pt'] d'] eqn:E1. cbn in Hp, Hpt, Hlen.
  destruct (IH pt' d') as [Hps Hsum].
  { rewrite Hlen. destruct (0 <? money p); lia. }
  destruct (anteAll ps pt' d') as [[ps' pt''] d''] eqn:E2.
  cbn [fst snd] in Hps, Hsum |- *.
  split; [by constructor|].
  rewrite Hsum, Hpt. cbn [List.filter].
  destruct (0 <? money p); rewrite ?sumOver_cons; lia.
Qed.

Lemma startNewHand_fields (pick : nat → nat) (r : room) :
  let dealt := anteAll (players r) 0 (shuffleDeck pick createDeck) in
  players (startNewHand pick r) = dealt.1.1
  ∧ pot (startNewHand pick r) = dealt.1.2
  ∧ dealerIndex (startNewHand pick r)
    = Z.rem (dealerIndex r + 1) (Z.of_nat (length dealt.1.1))
  ∧ minBet (startNewHand pick r) = 100
  ∧ currentRound (startNewHand pick r) = 1
  ∧ gameState (startNewHand pick r) = gameState r
  ∧ tournamentPlayers (startNewHand pick r) = tournamentPlayers r
  ∧ handsPlayed (startNewHand pick r) = nextHandsPlayed (handsPlayed r)
  ∧ startingPlayerCount (startNewHand pick r) = startingPlayerCount r.
Proof.
  unfold startNewHand.
  destruct (anteAll (players r) 0 (shuffleDeck pick createDeck)) as [[ps pt] d].
  done.
Qed.

(** C6.  After [startNewHand] on a room whose seats the deck can serve
    (at most 17 seats; a room holds 1 to 8), with a dealer index of at least
    -1 (its value at creation): the pot is the sum of [min(100, balance)]
    over the players with a positive balance; each of these holds three
    cards, has all four flags false, a current bet equal to the ante, and a
    balance reduced by it; each player with no money is folded, with an
    empty hand and the same balance; the dealer index has advanced by one
    modulo the number of seats; [minBet] is 100 and the round is 1. *)
Theorem startNewHand_spec (pick : nat → nat) (r : room) :
  (1 ≤ length (players r) ≤ 17)%nat →
  -1 <= dealerIndex r →
  let r' := startNewHand pick r in
  pot r' = sumOver anteOf (List.filter (λ p, 0 <? money p) (players r))
  ∧ length (players r') = length (players r)
  ∧ (∀ (i : nat) (p : player), players r !! i = Some p →
     ∃ p', players r' !! i = Some p'
       ∧ (0 < money p →
          length (hand p') = 3%nat
          ∧ viewedCards p' = false ∧ folded p' = false
          ∧ allIn p' = false ∧ actedThisRound p' = false
          ∧ currentBet p' = Z.min 100 (money p)
          ∧ money p' = money p - Z.min 100 (money p))
       ∧ (money p <= 0 →
          folded p' = true ∧ hand p' = [] ∧ money p' = money p))
  ∧ dealerIndex r' = (dealerIndex r + 1) `mod` Z.of_nat (length (players r))
  ∧ minBet r' = 100
  ∧ currentRound r' = 1.
Proof.
  intros Hn Hd r'.
  destruct (startNewHand_fields pick r) as (Hps & Hpot & Hdl & Hmin & Hrd & _).
  destruct (anteAll_spec (players r) 0 (shuffleDeck pick createDeck))
    as [Hall Hsum].
  { rewrite shuffleDeck_length. change (length createDeck) with 52%nat. lia. }
  pose proof (Forall2_length _ _ _ Hall) as Hlen.
  subst r'. rewrite Hps, Hpot, Hdl, Hmin, Hrd, Hsum, <- Hlen.
  split_and!; try done.
  - intros i p Hi.
    destruct (Forall2_lookup_l _ _ _ _ _ Hall Hi) as (p' & Hi' & Hspec).
    destruct Hspec as (_ & _ & Hv & Ha & Hact & Hpos & Hzero).
    exists p'. split; [done|]. split.
    + intros Hm. destruct (Hpos Hm) as (? & ? & ? & ?). by split_and!.
    + intros Hm. destruct (Hzero Hm) as (? & ? & ? & ?). by split_and!.
  - apply Z.rem_mod_nonneg; lia.
Qed.

(** ** Sorting *)

Section SortFacts.
Context {A : Type} (cmp : A → A → Z).

Lemma insertBy_perm (x : A) (l : list A) : insertBy cmp x l ≡ₚ x :: l.
Proof.
  induction l as [|y l IH]; [done|].
  cbn [insertBy]. destruct (cmp x y <=? 0); [done|].
  rewrite IH. apply perm_swap.
Qed.

Lemma sortBy_perm (l : list A) : sortBy cmp l ≡ₚ l.
Proof.
  induction l as [|x l IH]; [done|].
  cbn [sortBy foldr]. fold (sortBy cmp l). by rewrite insertBy_perm, IH.
Qed.

(** Sortedness needs the comparator to be that of a total preorder, as
    [(a, b) => key(b) - key(a)] is. *)
Context (key : A → Z) (Hcmp : ∀ a b, cmp a b = key b - key a).


End SortFacts.

(** ** Closing a round and a hand *)

Lemma settled_refl (pt : Z) (p : player) : settled pt p p.
Proof. unfold settled. by split_and!. Qed.

Lemma settled_trans (pt : Z) (p p1 p2 : player) :
  settled pt p p1 → settled pt p1 p2 → settled pt p p2.
Proof.
  intros (?&?&?&?&Hf&?&?&Hm&Hle) (?&?&?&?&?&?&?&Hm'&Hle').
  unfold settled. split_and!; try congruence.
  - intros Hin. rewrite Hm', Hm; try done.
    unfold inHand in *. by rewrite Hf, (Hm Hin).
  - intros Hpt. specialize (Hle Hpt). specialize (Hle' Hpt). lia.
Qed.

Lemma Forall2_settled_refl (pt : Z) (ps : list player) :
  Forall2 (settled pt) ps ps.
Proof. apply Forall_Forall2_diag, Forall_forall. intros. apply settled_refl. Qed.

Lemma Forall2_settled_trans (pt : Z) (ps ps1 ps2 : list player) :
  Forall2 (settled pt) ps ps1 → Forall2 (settled pt) ps1 ps2 →
  Forall2 (settled pt) ps ps2.
Proof.
  intros H1. revert ps2. induction H1; inversion 1; subst; constructor;
    eauto using settled_trans.
Qed.

Lemma seated_elem (ps : list player) (w : nat * player) :
  w ∈ seated ps ↔ ps !! w.1 = Some w.2.
Proof.
  unfold seated. rewrite elem_of_lookup_imap. split.
  - by intros (i & p & -> & Hi).
  - intros Hw. exists w.1, w.2. by destruct w.
Qed.

Lemma activeSeats_elem (r : room) (w : nat * player) :
  w ∈ activeSeats r ↔ players r !! w.1 = Some w.2 ∧ inHand w.2 = true.
Proof.
  unfold activeSeats. by rewrite list_elem_of_In, filter_In, <- list_elem_of_In, seated_elem.
Qed.

Lemma winnersOf_sub (active : list (nat * player)) (w : nat * player) :
  w ∈ winnersOf active → w ∈ active.
Proof.
  unfold winnersOf. destruct (length active =? 1)%nat.
  - intros (i & Hi & _)%elem_of_take. by eapply list_elem_of_lookup_2.
  - intros (e & -> & He)%list_elem_of_fmap.
    apply list_elem_of_In, filter_In in He as [He _].
    apply list_elem_of_In in He. rewrite sortBy_perm in He.
    apply list_elem_of_fmap in He as (w & -> & Hw). done.
Qed.

Lemma payEach_settled (pt x : Z) (ps : list player) (ws : list (nat * player)) :
  (0 <= pt → 0 <= x) →
  Forall (λ w, ps !! w.1 = Some w.2 ∧ inHand w.2 = true) ws →
  ∀ acc, Forall2 (settled pt) ps acc →
         Forall2 (settled pt) ps (foldl (λ acc w, alter (addMoney x) w.1 acc) acc ws).
Proof.
  intros Hx Hws. induction Hws as [|w ws [Hw Hin] _ IH]; intros acc Hacc; [done|].
  cbn [foldl]. apply IH. apply Forall2_alter_r; [done|].
  intros p q Hp _ (?&?&?&?&?&?&?&Hm&Hle). simplify_eq.
  unfold settled, addMoney. cbn. split_and!; try done.
  - intros Hc. congruence.
  - intros Hpt. specialize (Hle Hpt). specialize (Hx Hpt). lia.
Qed.

Lemma payWinners_settled (pt : Z) (ps : list player) (ws : list (nat * player)) :
  Forall (λ w, ps !! w.1 = Some w.2 ∧ inHand w.2 = true) ws →
  Forall2 (settled pt) ps (payWinners pt ws ps).
Proof.
  intros Hws. unfold payWinners.
  destruct (Nat.ltb_spec 1 (length ws)).
  { apply payEach_settled; [|done|apply Forall2_settled_refl].
    intros Hpt. apply Z.div_pos; lia. }
  destruct (length ws =? 1)%nat; [|apply Forall2_settled_refl].
  destruct (ws !! 0%nat) as [w|] eqn:E; [|apply Forall2_settled_refl].
  apply (payEach_settled pt pt ps [w]); [done| |apply Forall2_settled_refl].
  constructor; [|done].
  eapply (proj1 (Forall_lookup _ _) Hws); eauto.
Qed.

Lemma resolveHand_frame (r : room) :
  Forall2 (settled (pot r)) (players r) (players (resolveHand r).1)
  ∧ pot (resolveHand r).1 = pot r
  ∧ minBet (resolveHand r).1 = minBet r
  ∧ tournamentPlayers (resolveHand r).1 = tournamentPlayers r
  ∧ handsPlayed (resolveHand r).1 = handsPlayed r
  ∧ startingPlayerCount (resolveHand r).1 = startingPlayerCount r.
Proof.
  unfold resolveHand. destruct (length (activeSeats r) =? 0)%nat; cbn.
  { split_and!; try done. apply Forall2_settled_refl. }
  split_and!; try done. apply payWinners_settled, Forall_forall.
  intros w Hw%winnersOf_sub. by apply activeSeats_elem.
Qed.

Lemma checkAndAdvanceRound_frame (pt : Z) (r : room) :
  Forall2 (settled pt) (players r) (players (checkAndAdvanceRound r).1)
  ∧ pot (checkAndAdvanceRound r).1 = pot r
  ∧ minBet (checkAndAdvanceRound r).1 = minBet r
  ∧ tournamentPlayers (checkAndAdvanceRound r).1 = tournamentPlayers r
  ∧ handsPlayed (checkAndAdvanceRound r).1 = handsPlayed r
  ∧ startingPlayerCount (checkAndAdvanceRound r).1 = startingPlayerCount r.
Proof.
  unfold checkAndAdvanceRound.
  destruct (length (List.filter inHand (players r)) <=? 1)%nat; cbn.
  { split_and!; try done. apply Forall2_settled_refl. }
  split_and!; try done. apply Forall2_fmap_r, Forall_Forall2_diag, Forall_forall.
  intros p _. unfold settled. cbn. by split_and!.
Qed.

Lemma afterHandEnded_frame (r : room) :
  players (afterHandEnded r).1.1 = players r
  ∧ pot (afterHandEnded r).1.1 = pot r
  ∧ minBet (afterHandEnded r).1.1 = minBet r.
Proof. unfold afterHandEnded. by destruct (tournamentEnded (pruneRoster r)). Qed.

(** [settle] leaves the pot, the minimum bet and every stake alone. *)
Lemma settle_frame (s : server) :
  Forall2 (settled (pot (theRoom s))) (players (theRoom s)) (players (theRoom (settle s)))
  ∧ pot (theRoom (settle s)) = pot (theRoom s)
  ∧ minBet (theRoom (settle s)) = minBet (theRoom s).
Proof.
  unfold settle, closeHand. cbn [theRoom timers].
  set (r := theRoom s).
  set (r1 := closeRound r).
  assert (H1 : Forall2 (settled (pot r)) (players r) (players r1)
               ∧ pot r1 = pot r ∧ minBet r1 = minBet r).
  { subst r1. unfold closeRound. destruct (isRoundComplete r).
    - destruct (checkAndAdvanceRound_frame (pot r) r) as (?&?&?&_). done.
    - split_and!; try done. apply Forall2_settled_refl. }
  destruct H1 as (Hps & Hpot & Hmin).
  destruct (isHandFinished r1); cbn; [|done].
  destruct (resolveHand_frame r1) as (Hps2 & Hpot2 & Hmin2 & _).
  destruct (afterHandEnded_frame (pruneRoster (resolveHand r1).1)) as (Hps3 & Hpot3 & Hmin3).
  destruct (afterHandEnded (pruneRoster (resolveHand r1).1)) as [[r3 eff] b].
  cbn in *. rewrite Hps3, Hpot3, Hmin3, Hpot2, Hmin2.
  split_and!; try done.
  eapply Forall2_settled_trans; [exact Hps|]. by rewrite <- Hpot.
Qed.

(** ** The handlers *)

Lemma findPlayer_lookup (sid : string) (ps : list player) (i : nat) (p : player) :
  findPlayer sid ps = Some (i, p) → ps !! i = Some p ∧ id p = sid.
Proof. intros (? & ? & _)%list_find_Some. done. Qed.

Lemma settle_lookup (s : server) (i : nat) (p : player) :
  players (theRoom s) !! i = Some p →
  ∃ p', players (theRoom (settle s)) !! i = Some p'
        ∧ settled (pot (theRoom s)) p p'.
Proof.
  intros Hi. destruct (settle_frame s) as (Hps & _).
  destruct (Forall2_lookup_l _ _ _ _ _ Hps Hi) as (p' & ? & ?). eauto.
Qed.

(** C1.  A place-bet by the non-folded player whose seat is the current
    turn, declaring the integer [D]: rejected when [D < minBet]; otherwise
    the charge [A] is [D] for a player who has viewed the cards and
    [floor(D/2)] for one who has not; rejected when the balance is below
    [A]; otherwise the bet is applied: the balance drops by [A], the player's
    current bet and the pot grow by [A], the player is marked as having
    acted, and [minBet] becomes the declared [D] when [D] exceeds it
    (the maximum of the two in all cases).  The handler then closes the
    round and the hand ([settle]), which keeps the pot, the minimum bet and
    the player's current bet. *)
Theorem place_bet_spec (sid : string) (D : Z) (s : server) (i : nat) (p : player) :
  findPlayer sid (players (theRoom s)) = Some (i, p) →
  folded p = false →
  currentTurn (theRoom s) = Z.of_nat i →
  let r := theRoom s in
  let A := if viewedCards p then D else D `div` 2 in
  (D < minBet r → on_place_bet sid D s = Rejected BelowMinBet)
  ∧ (minBet r <= D → money p < A → on_place_bet sid D s = Rejected NotEnoughMoney)
  ∧ (minBet r <= D → A <= money p →
     ∃ (r1 : room) (p1 p2 : player),
       apply_place_bet sid D r = Accepted r1
       ∧ players r1 !! i = Some p1
       ∧ money p1 = money p - A
       ∧ currentBet p1 = currentBet p + A
       ∧ actedThisRound p1 = true
       ∧ pot r1 = pot r + A
       ∧ minBet r1 = Z.max (minBet r) D
       ∧ (minBet r < D → minBet r1 = D)
       ∧ on_place_bet sid D s = Accepted (settle (Server r1 (timers s)))
       ∧ pot (theRoom (settle (Server r1 (timers s)))) = pot r + A
       ∧ minBet (theRoom (settle (Server r1 (timers s)))) = Z.max (minBet r) D
       ∧ players (theRoom (settle (Server r1 (timers s)))) !! i = Some p2
       ∧ currentBet p2 = currentBet p + A).
Proof.
  intros Hfind Hfold Hturn. cbv zeta.
  set (r := theRoom s) in *.
  set (A := if viewedCards p then D else D `div` 2).
  destruct (findPlayer_lookup _ _ _ _ Hfind) as [Hi _].
  assert (Hlt : (i < length (players r))%nat) by (by eapply lookup_lt_Some).
  unfold on_place_bet, onRoom. fold r.
  destruct (apply_place_bet sid D r) as [e|r1] eqn:E;
    unfold apply_place_bet in E;
    rewrite Hfind, Hfold, Hturn, Z.eqb_refl in E; cbn [negb] in E; fold A in E.
  - split_and!.
    + intros Hlow. rewrite (proj2 (Z.ltb_lt _ _) Hlow) in E. congruence.
    + intros Hge Hpoor.
      rewrite (proj2 (Z.ltb_ge _ _) Hge), (proj2 (Z.ltb_lt _ _) Hpoor) in E.
      congruence.
    + intros Hge Hrich.
      by rewrite (proj2 (Z.ltb_ge _ _) Hge), (proj2 (Z.ltb_ge _ _) Hrich) in E.
  - destruct (Z.ltb_spec D (minBet r)) as [|Hge]; [done|].
    destruct (Z.ltb_spec (money p) A) as [|Hrich]; [done|].
    split_and!; [lia..|]. intros _ _.
    injection E as E.
    assert (Hi1 : players r1 !! i
                  = Some (set_actedThisRound true
                            (set_currentBet (currentBet p + A)
                               (set_money (money p - A) p)))).
    { rewrite <- E. cbn. destruct (minBet r <? D); cbn;
        by rewrite list_lookup_insert_eq. }
    assert (Hpot1 : pot r1 = pot r + A).
    { rewrite <- E. cbn. by destruct (minBet r <? D). }
    assert (Hmin1 : minBet r1 = Z.max (minBet r) D).
    { rewrite <- E. cbn. destruct (Z.ltb_spec (minBet r) D); cbn; lia. }
    destruct (settle_lookup (Server r1 (timers s)) i _ Hi1) as (p2 & Hi2 & Hst).
    destruct (settle_frame (Server r1 (timers s))) as (_ & Hpot2 & Hmin2).
    destruct Hst as (_ & _ & _ & _ & _ & Hcb & _).
    cbn in Hpot2, Hmin2, Hcb.
    eexists r1, _, p2. split_and!; try done; lia.
Qed.

(** C10.  All-in has no minimum-bet precondition.  A rejection has one of
    four causes: the sender has no seat, has folded, is already all-in, or
    is out of turn.  For a non-folded player, not yet all-in, whose seat is
    the current turn, all-in is accepted whatever the balance: the whole
    balance goes to the pot, the player ends all-in with balance 0 (also
    after the round and hand are closed), and a balance that does not exceed
    [minBet], in particular one strictly below it, leaves [minBet] as it
    was. *)
Theorem all_in_spec (sid : string) (s : server) :
  let r := theRoom s in
  (∀ e, on_all_in sid s = Rejected e →
     findPlayer sid (players r) = None
     ∨ ∃ i p, findPlayer sid (players r) = Some (i, p)
              ∧ (folded p = true ∨ allIn p = true ∨ currentTurn r ≠ Z.of_nat i))
  ∧ (∀ i p, findPlayer sid (players r) = Some (i, p) →
     folded p = false → allIn p = false → currentTurn r = Z.of_nat i →
     ∃ (s' : server) (p' : player),
       on_all_in sid s = Accepted s'
       ∧ pot (theRoom s') = pot r + money p
       ∧ players (theRoom s') !! i = Some p'
       ∧ money p' = 0
       ∧ allIn p' = true
       ∧ currentBet p' = currentBet p + money p
       ∧ (money p <= minBet r → minBet (theRoom s') = minBet r)
       ∧ (minBet r < money p → minBet (theRoom s') = money p)).
Proof.
  cbv zeta. set (r := theRoom s). unfold on_all_in, onRoom. fold r. split.
  - intros e He. unfold apply_all_in in He.
    destruct (findPlayer sid (players r)) as [[i p]|]; [|by left].
    right. exists i, p. split; [done|].
    destruct (folded p); [by left|].
    destruct (allIn p); [by right; left|].
    destruct (Z.eqb_spec (currentTurn r) (Z.of_nat i)); [done|].
    by right; right.
  - intros i p Hfind Hfold Hall Hturn.
    destruct (findPlayer_lookup _ _ _ _ Hfind) as [Hi _].
    assert (Hlt : (i < length (players r))%nat) by (by eapply lookup_lt_Some).
    destruct (apply_all_in sid r) as [e|r1] eqn:E;
      unfold apply_all_in in E;
      rewrite Hfind, Hfold, Hall, Hturn, Z.eqb_refl in E; cbn [negb] in E;
      [done|].
    injection E as E.
    assert (Hi1 : players r1 !! i
                  = Some (set_actedThisRound true
                            (set_allIn true
                               (set_currentBet (currentBet p + money p)
                                  (set_money 0 p))))).
    { rewrite <- E. cbn. destruct (minBet r <? money p); cbn;
        by rewrite list_lookup_insert_eq. }
    assert (Hpot1 : pot r1 = pot r + money p).
    { rewrite <- E. cbn. by destruct (minBet r <? money p). }
    assert (Hmin1 : minBet r1 = Z.max (minBet r) (money p)).
    { rewrite <- E. cbn. destruct (Z.ltb_spec (minBet r) (money p)); cbn; lia. }
    destruct (settle_lookup (Server r1 (timers s)) i _ Hi1) as (p2 & Hi2 & Hst).
    destruct (settle_frame (Server r1 (timers s))) as (_ & Hpot2 & Hmin2).
    destruct Hst as (_ & _ & _ & _ & _ & Hcb & Hai & Hm & _).
    cbn in Hpot2, Hmin2, Hcb, Hai, Hm.
    eexists _, p2. split_and!; try done; try lia.
    apply Hm. unfold inHand. cbn. apply andb_false_r.
Qed.

Lemma fmap_alter_same {A B} (g : A → B) (f : A → A) (i : nat) (l : list A) :
  (∀ x, g (f x) = g x) → g <$> alter f i l = g <$> l.
Proof.
  intros Hg. revert i. induction l as [|x l IH]; intros [|i]; cbn; try done.
  - by rewrite Hg.
  - f_equal. apply IH.
Qed.

Lemma fmap_alter_const {A B} (g : A → B) (f : A → A) (b : B) (i : nat) (l : list A) :
  (∀ x, g (f x) = b) → g <$> alter f i l = <[i := b]> (g <$> l).
Proof.
  intros Hg. revert i. induction l as [|x l IH]; intros [|i]; cbn; try done.
  - by rewrite Hg.
  - f_equal. apply IH.
Qed.

(** C7.  A duel between the seated players [p] (the challenger) and [q]:
    rejected, with the state unchanged, when the round is below 2, or one of
    the two has folded, or it is not the challenger's turn, or the
    challenger's current bet is below [viewed ? minBet : floor(minBet/2)];
    otherwise accepted, and the duel itself folds the player whose hand
    compares lower, folds nobody on a draw, changes no other fold flag, no
    balance and not the pot (the pot is still the same after the round and
    hand are closed). *)
Theorem compare_cards_spec (sid target : string) (s : server)
        (i j : nat) (p q : player) :
  findPlayer sid (players (theRoom s)) = Some (i, p) →
  findPlayer target (players (theRoom s)) = Some (j, q) →
  let r := theRoom s in
  let c := compareHands (evaluateHand (hand p)) (evaluateHand (hand q)) in
  let need := if viewedCards p then minBet r else minBet r `div` 2 in
  (currentRound r < 2 ∨ folded p = true ∨ folded q = true
   ∨ currentTurn r ≠ Z.of_nat i ∨ currentBet p < need →
   (∃ e, on_compare_cards sid target s = Rejected e)
   ∧ run (on_compare_cards sid target s) s = s)
  ∧ (2 <= currentRound r → folded p = false → folded q = false →
     currentTurn r = Z.of_nat i → need <= currentBet p →
     ∃ r1 : room,
       apply_compare_cards sid target r = Accepted r1
       ∧ on_compare_cards sid target s = Accepted (settle (Server r1 (timers s)))
       ∧ pot r1 = pot r
       ∧ pot (theRoom (settle (Server r1 (timers s)))) = pot r
       ∧ money <$> players r1 = money <$> players r
       ∧ (c < 0 → folded <$> players r1 = <[i := true]> (folded <$> players r))
       ∧ (0 < c → folded <$> players r1 = <[j := true]> (folded <$> players r))
       ∧ (c = 0 → folded <$> players r1 = folded <$> players r)).
Proof.
  intros Hp Hq. cbv zeta. set (r := theRoom s) in *.
  set (c := compareHands (evaluateHand (hand p)) (evaluateHand (hand q))).
  unfold on_compare_cards, onRoom. fold r.
  destruct (apply_compare_cards sid target r) as [e|r1] eqn:E;
    unfold apply_compare_cards, requiredActual in E; rewrite Hp, Hq in E;
    fold c in E.
  - split; [intros _; eauto|].
    intros Hrd Hfp Hfq Hturn Hbet.
    rewrite Hfp, Hfq, Hturn, Z.eqb_refl in E. cbn in E.
    rewrite (proj2 (Z.ltb_ge _ _) Hrd), (proj2 (Z.ltb_ge _ _) Hbet) in E.
    done.
  - destruct (folded p) eqn:Hfp; [done|].
    destruct (folded q) eqn:Hfq; [done|]. cbn [orb] in E.
    destruct (Z.ltb_spec (currentRound r) 2) as [|Hrd]; [done|].
    destruct (Z.eqb_spec (currentTurn r) (Z.of_nat i)) as [Hturn|]; [|done].
    cbn [negb] in E.
    destruct (Z.ltb_spec (currentBet p)
                (if viewedCards p then minBet r else minBet r `div` 2))
      as [|Hbet]; [done|].
    split.
    { intros [?|[?|[?|[?|?]]]]; (done || lia). }
    intros _ _ _ _ _. injection E as E.
    destruct (settle_frame (Server r1 (timers s))) as (_ & Hpot2 & _).
    cbn in Hpot2.
    exists r1. rewrite Hpot2, <- E. cbn.
    split_and!; try done.
    + rewrite fmap_alter_same by done.
      destruct (0 <? c); [|destruct (c <? 0)]; by rewrite ?fmap_alter_same.
    + intros Hc. rewrite (proj2 (Z.ltb_ge _ _) (Z.lt_le_incl _ _ Hc)).
      rewrite (proj2 (Z.ltb_lt _ _) Hc).
      rewrite fmap_alter_same by done. by apply fmap_alter_const.
    + intros Hc. rewrite (proj2 (Z.ltb_lt _ _) Hc).
      rewrite fmap_alter_same by done. by apply fmap_alter_const.
    + intros Hc. rewrite Hc. cbn. by apply fmap_alter_same.
Qed.

(** ** Pot accounting *)

Lemma sumOver_nonneg {A} (f : A → Z) (l : list A) :
  Forall (λ x, 0 <= f x) l → 0 <= sumOver f l.
Proof. induction 1; [done|]. rewrite sumOver_cons. lia. Qed.

Lemma sumOver_Forall2 {A} (f g : A → Z) (l k : list A) :
  Forall2 (λ x y, f x = g y) l k → sumOver f l = sumOver g k.
Proof. induction 1; [done|]. rewrite !sumOver_cons. lia. Qed.

Lemma sumOver_insert {A} (f : A → Z) (l : list A) (i : nat) (x y : A) :
  l !! i = Some x → sumOver f (<[i := y]> l) = sumOver f l - f x + f y.
Proof.
  revert i. induction l as [|z l IH]; intros [|i] Hi; try done.
  - cbn in Hi. simplify_eq. change (<[0%nat := y]> (x :: l)) with (y :: l).
    rewrite !sumOver_cons. lia.
  - cbn in Hi. change (<[S i := y]> (z :: l)) with (z :: <[i := y]> l).
    rewrite !sumOver_cons, (IH _ Hi). lia.
Qed.

Lemma sumOver_alter_same {A} (f : A → Z) (g : A → A) (l : list A) (i : nat) :
  (∀ x, f (g x) = f x) → sumOver f (alter g i l) = sumOver f l.
Proof.
  intros Hg. apply sumOver_Forall2, Forall2_alter_l.
  - by apply Forall_Forall2_diag, Forall_forall.
  - intros x y _ _ <-. apply Hg.
Qed.

(** The stakes right after the antes, whatever the deck. *)
Lemma anteAll_stakes (ps : list player) (pt : Z) (d : list card) :
  (anteAll ps pt d).1.2 = pt + sumOver anteOf (List.filter (λ p, 0 <? money p) ps)
  ∧ sumOver currentBet (anteAll ps pt d).1.1
    = sumOver anteOf (List.filter (λ p, 0 <? money p) ps)
  ∧ Forall (λ p, 0 <= currentBet p) (anteAll ps pt d).1.1
  ∧ Forall (λ p, folded p = false → 0 <= money p) (anteAll ps pt d).1.1.
Proof.
  revert pt d. induction ps as [|p ps IH]; intros pt d.
  { cbn. split_and!; try constructor; lia. }
  cbn [anteAll List.filter].
  destruct (anteUp p pt d) as [[p' pt'] d'] eqn:E1.
  destruct (IH pt' d') as (Hpt & Hsum & Hcb & Hm).
  destruct (anteAll ps pt' d') as [[ps' pt''] d''] eqn:E2.
  cbn [fst snd] in *. rewrite sumOver_cons, Hsum, Hpt.
  unfold anteUp in E1. cbn -[dealCards] in E1.
  destruct (dealCards 3 [] d) as [h dd].
  destruct (Z.ltb_spec 0 (money p)); simplify_eq; cbn;
    unfold anteOf in *; cbn;
    (split_and!; [lia|lia|constructor; [cbn; lia|done]
                 |constructor; [cbn; intros; lia|done]]).
Qed.

Lemma potInv_start (pick : nat → nat) (r : room) :
  potInv (startNewHand pick r)
  ∧ pot (startNewHand pick r)
    = sumOver anteOf (List.filter (λ p, 0 <? money p) (players r)).
Proof.
  destruct (startNewHand_fields pick r) as (Hps & Hpot & _ & Hmin & _).
  destruct (anteAll_stakes (players r) 0 (shuffleDeck pick createDeck))
    as (Hpt & Hsum & Hcb & Hm).
  unfold potInv. rewrite Hps, Hpot, Hmin, Hsum, Hpt. split_and!; try done; lia.
Qed.

Lemma potInv_settled (r r' : room) :
  potInv r → Forall2 (settled (pot r)) (players r) (players r') →
  pot r' = pot r → minBet r' = minBet r → potInv r'.
Proof.
  intros (Hpot & Hcb & Hmin & Hm) Hps Hpot' Hmin'.
  assert (Hnn : 0 <= pot r) by (rewrite Hpot; by apply sumOver_nonneg).
  unfold potInv. rewrite Hpot', Hmin'. split_and!; try done.
  - rewrite Hpot. apply sumOver_Forall2.
    eapply Forall2_impl; [exact Hps|]. by intros p p' (_&_&_&_&_&->&_).
  - apply Forall_forall. intros p' Hp'.
    apply list_elem_of_lookup in Hp' as [i Hi].
    destruct (Forall2_lookup_r _ _ _ _ _ Hps Hi) as (p & Hp & Hst).
    destruct Hst as (_&_&_&_&_&->&_).
    eapply (proj1 (Forall_lookup _ _) Hcb); eauto.
  - apply Forall_forall. intros p' Hp'.
    apply list_elem_of_lookup in Hp' as [i Hi].
    destruct (Forall2_lookup_r _ _ _ _ _ Hps Hi) as (p & Hp & Hst).
    destruct Hst as (_&_&_&_&Hf&_&_&_&Hle).
    rewrite Hf. intros Hnf. specialize (Hle Hnn).
    pose proof (proj1 (Forall_lookup _ _) Hm _ _ Hp Hnf). lia.
Qed.

Lemma potInv_settle (s : server) :
  potInv (theRoom s) → potInv (theRoom (settle s)).
Proof.
  intros Hinv. destruct (settle_frame s) as (Hps & Hpot & Hmin).
  by apply (potInv_settled (theRoom s)).
Qed.

(** Each accepted action keeps the invariant and adds its charge, which is
    not negative, to the pot. *)
Lemma apply_place_bet_pot (sid : string) (D : Z) (r r1 : room) :
  potInv r → apply_place_bet sid D r = Accepted r1 →
  potInv r1 ∧ pot r1 = pot r + charged (PlaceBet sid D) r
  ∧ 0 <= charged (PlaceBet sid D) r.
Proof.
  intros (Hpot & Hcb & Hmin & Hm) E. unfold apply_place_bet in E. cbn [charged].
  destruct (findPlayer sid (players r)) as [[i p]|] eqn:Hfind; [|done].
  destruct (findPlayer_lookup _ _ _ _ Hfind) as [Hi _].
  destruct (folded p) eqn:Hfold; [done|].
  destruct (negb (currentTurn r =? Z.of_nat i)); [done|].
  destruct (Z.ltb_spec D (minBet r)) as [|Hge]; [done|].
  set (A := if viewedCards p then D else D `div` 2) in *.
  destruct (Z.ltb_spec (money p) A) as [|Hrich]; [done|].
  injection E as <-.
  assert (HA : 0 <= A).
  { subst A. destruct (viewedCards p); [lia|]. apply Z.div_pos; lia. }
  pose proof (proj1 (Forall_lookup _ _) Hcb _ _ Hi) as Hcbp. cbn in Hcbp.
  unfold potInv.
  destruct (Z.ltb_spec (minBet r) D); cbn;
    rewrite (sumOver_insert _ _ _ _ _ Hi); cbn;
    (split_and!; try lia;
     apply Forall_insert; try done; cbn; intros; lia).
Qed.

Lemma apply_fold_pot (sid : string) (r r1 : room) :
  potInv r → apply_fold sid r = Accepted r1 → potInv r1 ∧ pot r1 = pot r.
Proof.
  intros (Hpot & Hcb & Hmin & Hm) E. unfold apply_fold in E.
  destruct (findPlayer sid (players r)) as [[i p]|] eqn:Hfind; [|done].
  destruct (findPlayer_lookup _ _ _ _ Hfind) as [Hi _].
  destruct (folded p) eqn:Hfold; [done|].
  destruct (negb (currentTurn r =? Z.of_nat i)); [done|].
  injection E as <-.
  pose proof (proj1 (Forall_lookup _ _) Hcb _ _ Hi) as Hcbp. cbn in Hcbp.
  unfold potInv. cbn. rewrite (sumOver_insert _ _ _ _ _ Hi). cbn.
  split_and!; try lia; by apply Forall_insert.
Qed.

Lemma apply_all_in_pot (sid : string) (r r1 : room) :
  potInv r → apply_all_in sid r = Accepted r1 →
  potInv r1 ∧ pot r1 = pot r + charged (AllIn sid) r
  ∧ 0 <= charged (AllIn sid) r.
Proof.
  intros (Hpot & Hcb & Hmin & Hm) E. unfold apply_all_in in E. cbn [charged].
  destruct (findPlayer sid (players r)) as [[i p]|] eqn:Hfind; [|done].
  destruct (findPlayer_lookup _ _ _ _ Hfind) as [Hi _].
  destruct (folded p) eqn:Hfold; [done|].
  destruct (allIn p); [done|].
  destruct (negb (currentTurn r =? Z.of_nat i)); [done|].
  injection E as <-.
  pose proof (proj1 (Forall_lookup _ _) Hcb _ _ Hi) as Hcbp.
  pose proof (proj1 (Forall_lookup _ _) Hm _ _ Hi Hfold) as Hmp.
  cbn in Hcbp, Hmp. unfold potInv.
  destruct (Z.ltb_spec (minBet r) (money p)); cbn;
    rewrite (sumOver_insert _ _ _ _ _ Hi); cbn;
    (split_and!; try lia;
     apply Forall_insert; try done; cbn; intros; lia).
Qed.

Lemma apply_view_cards_pot (sid : string) (r r1 : room) :
  potInv r → apply_view_cards sid r = Accepted r1 → potInv r1 ∧ pot r1 = pot r.
Proof.
  intros (Hpot & Hcb & Hmin & Hm) E. unfold apply_view_cards in E.
  destruct (findPlayer sid (players r)) as [[i p]|] eqn:Hfind; [|done].
  destruct (findPlayer_lookup _ _ _ _ Hfind) as [Hi _].
  destruct (viewedCards p); [done|].
  destruct (negb (currentTurn r =? Z.of_nat i)); [done|].
  injection E as <-.
  pose proof (proj1 (Forall_lookup _ _) Hcb _ _ Hi) as Hcbp.
  pose proof (proj1 (Forall_lookup _ _) Hm _ _ Hi) as Hmp.
  cbn in Hcbp, Hmp.
  unfold potInv. cbn. rewrite (sumOver_insert _ _ _ _ _ Hi). cbn.
  split_and!; try lia; by apply Forall_insert.
Qed.

Lemma apply_compare_cards_pot (sid target : string) (r r1 : room) :
  potInv r → apply_compare_cards sid target r = Accepted r1 →
  potInv r1 ∧ pot r1 = pot r.
Proof.
  intros (Hpot & Hcb & Hmin & Hm) E. unfold apply_compare_cards in E.
  destruct (findPlayer sid (players r)) as [[i p]|]; [|done].
  destruct (findPlayer target (players r)) as [[j q]|]; [|done].
  repeat (match type of E with
          | (if ?b then _ else _) = _ => destruct b; [done|]
          end).
  injection E as <-. unfold potInv. cbn.
  set (ps1 := if 0 <? _ then _ else _).
  assert (H1 : sumOver currentBet ps1 = sumOver currentBet (players r)
               ∧ Forall (λ p, 0 <= currentBet p) ps1
               ∧ Forall (λ p, folded p = false → 0 <= money p) ps1).
  { subst ps1. repeat case_match; rewrite ?sumOver_alter_same by done;
      (split_and!; [done| |]; try done; apply Forall_alter; try done;
       cbn; intros; done). }
  destruct H1 as (Hs1 & Hcb1 & Hm1).
  rewrite sumOver_alter_same by done.
  split_and!; try done; try lia; apply Forall_alter; done.
Qed.

Lemma handle_pot (a : action) (s s' : server) :
  potInv (theRoom s) → handle a s = Accepted s' →
  potInv (theRoom s')
  ∧ pot (theRoom s') = pot (theRoom s) + charged a (theRoom s)
  ∧ 0 <= charged a (theRoom s).
Proof.
  intros Hinv E. destruct a as [sid D|sid|sid|sid|sid target];
    cbn [handle] in E;
    unfold on_place_bet, on_fold, on_all_in, on_view_cards, on_compare_cards,
           onRoom in E.
  - destruct (apply_place_bet sid D (theRoom s)) as [|r1] eqn:E1; [done|].
    injection E as <-.
    destruct (apply_place_bet_pot _ _ _ _ Hinv E1) as (Hinv1 & Hpot1 & Hch).
    destruct (settle_frame (Server r1 (timers s))) as (_ & Hpot2 & _).
    split_and!; [by apply (potInv_settle (Server r1 (timers s)))| |done].
    rewrite Hpot2. done.
  - destruct (apply_fold sid (theRoom s)) as [|r1] eqn:E1; [done|].
    injection E as <-.
    destruct (apply_fold_pot _ _ _ Hinv E1) as (Hinv1 & Hpot1).
    destruct (settle_frame (Server r1 (timers s))) as (_ & Hpot2 & _).
    split_and!; [by apply (potInv_settle (Server r1 (timers s)))| |done].
    rewrite Hpot2. cbn. lia.
  - destruct (apply_all_in sid (theRoom s)) as [|r1] eqn:E1; [done|].
    injection E as <-.
    destruct (apply_all_in_pot _ _ _ Hinv E1) as (Hinv1 & Hpot1 & Hch).
    destruct (settle_frame (Server r1 (timers s))) as (_ & Hpot2 & _).
    split_and!; [by apply (potInv_settle (Server r1 (timers s)))| |done].
    rewrite Hpot2. done.
  - destruct (apply_view_cards sid (theRoom s)) as [|r1] eqn:E1; [done|].
    injection E as <-.
    destruct (apply_view_cards_pot _ _ _ Hinv E1) as (Hinv1 & Hpot1).
    split_and!; [done| |done]. cbn. lia.
  - destruct (apply_compare_cards sid target (theRoom s)) as [|r1] eqn:E1; [done|].
    injection E as <-.
    destruct (apply_compare_cards_pot _ _ _ _ Hinv E1) as (Hinv1 & Hpot1).
    destruct (settle_frame (Server r1 (timers s))) as (_ & Hpot2 & _).
    split_and!; [by apply (potInv_settle (Server r1 (timers s)))| |done].
    rewrite Hpot2. cbn. lia.
Qed.

Lemma inHandFrom_inv (pick : nat → nat) (r0 : room) (n0 : nat)
      (charges : list Z) (s : server) :
  inHandFrom pick r0 n0 charges s →
  potInv (theRoom s)
  ∧ pot (theRoom s)
    = sumOver anteOf (List.filter (λ p, 0 <? money p) (players r0))
      + sumOver (λ c, c) charges
  ∧ Forall (λ c, 0 <= c) charges.
Proof.
  induction 1 as [|charges s s' a _ (Hinv & Hpot & Hch) Ha].
  - destruct (potInv_start pick r0) as [Hinv Hpot]. cbn.
    split_and!; [done|lia|constructor].
  - destruct (handle_pot _ _ _ Hinv Ha) as (Hinv' & Hpot' & Hc).
    split_and!; [done| |by constructor].
    rewrite Hpot', Hpot. cbn. lia.
Qed.


(** ** When the handlers resolve a hand *)

Lemma handle_applyAction (a : action) (s s' : server) :
  handle a s = Accepted s' →
  ∃ r1, applyAction a (theRoom s) = Accepted r1
        ∧ (s' = settle (Server r1 (timers s)) ∨ s' = Server r1 (timers s)).
Proof.
  destruct a; cbn [handle applyAction];
    unfold on_place_bet, on_fold, on_all_in, on_view_cards, on_compare_cards,
           onRoom;
    (match goal with
     | |- context [match ?o with Rejected _ => _ | Accepted _ => _ end] =>
         destruct o as [|r1]; [done|]
     end);
    intros [= <-]; eauto.
Qed.

Lemma anteAll_allIn (ps : list player) (pt : Z) (d : list card) :
  Forall (λ p, allIn p = true → money p = 0) (anteAll ps pt d).1.1.
Proof.
  revert pt d. induction ps as [|p ps IH]; intros pt d; [constructor|].
  cbn [anteAll]. destruct (anteUp p pt d) as [[p' pt'] d'] eqn:E1.
  specialize (IH pt' d'). destruct (anteAll ps pt' d') as [[ps' pt''] d''].
  cbn [fst] in *. constructor; [|done].
  unfold anteUp in E1. cbn -[dealCards] in E1.
  destruct (dealCards 3 [] d). destruct (0 <? money p); by simplify_eq.
Qed.

Lemma allInBroke_start (pick : nat → nat) (r : room) :
  allInBroke (startNewHand pick r).
Proof.
  destruct (startNewHand_fields pick r) as (Hps & _).
  unfold allInBroke. rewrite Hps. apply anteAll_allIn.
Qed.

Lemma allInBroke_settled (pt : Z) (r r' : room) :
  allInBroke r → Forall2 (settled pt) (players r) (players r') → allInBroke r'.
Proof.
  intros Hr Hps. apply Forall_forall. intros p' Hp'.
  apply list_elem_of_lookup in Hp' as [i Hi].
  destruct (Forall2_lookup_r _ _ _ _ _ Hps Hi) as (p & Hp & Hst).
  destruct Hst as (_&_&_&_&_&_&Ha&Hm&_). rewrite Ha. intros Hall.
  pose proof (proj1 (Forall_lookup _ _) Hr _ _ Hp Hall) as H0.
  rewrite Hm; [done|]. unfold inHand. rewrite H0. apply andb_false_r.
Qed.

Lemma allInBroke_applyAction (a : action) (r r1 : room) :
  potInv r → allInBroke r → applyAction a r = Accepted r1 → allInBroke r1.
Proof.
  intros (_ & _ & Hmin & Hmoney) Hr E. unfold allInBroke in *.
  destruct a as [sid D|sid|sid|sid|sid target]; cbn [applyAction] in E.
  - unfold apply_place_bet in E.
    destruct (findPlayer sid (players r)) as [[i p]|] eqn:Hfind; [|done].
    destruct (findPlayer_lookup _ _ _ _ Hfind) as [Hi _].
    destruct (folded p); [done|].
    destruct (negb (currentTurn r =? Z.of_nat i)); [done|].
    destruct (Z.ltb_spec D (minBet r)) as [|Hge]; [done|].
    set (A := if viewedCards p then D else D `div` 2) in *.
    destruct (Z.ltb_spec (money p) A) as [|Hrich]; [done|].
    assert (HA : 0 <= A).
    { subst A. destruct (viewedCards p); [lia|]. apply Z.div_pos; lia. }
    injection E as <-.
    pose proof (proj1 (Forall_lookup _ _) Hr _ _ Hi) as Hp. cbn in Hp.
    destruct (minBet r <? D); cbn; apply Forall_insert; try done;
      cbn; intros Hall; specialize (Hp Hall); lia.
  - unfold apply_fold in E.
    destruct (findPlayer sid (players r)) as [[i p]|] eqn:Hfind; [|done].
    destruct (findPlayer_lookup _ _ _ _ Hfind) as [Hi _].
    destruct (folded p); [done|].
    destruct (negb (currentTurn r =? Z.of_nat i)); [done|].
    injection E as <-. cbn. apply Forall_insert; [done|].
    exact (proj1 (Forall_lookup _ _) Hr _ _ Hi).
  - unfold apply_all_in in E.
    destruct (findPlayer sid (players r)) as [[i p]|] eqn:Hfind; [|done].
    destruct (folded p); [done|]. destruct (allIn p); [done|].
    destruct (negb (currentTurn r =? Z.of_nat i)); [done|].
    injection E as <-.
    destruct (minBet r <? money p); cbn; by apply Forall_insert.
  - unfold apply_view_cards in E.
    destruct (findPlayer sid (players r)) as [[i p]|] eqn:Hfind; [|done].
    destruct (findPlayer_lookup _ _ _ _ Hfind) as [Hi _].
    destruct (viewedCards p); [done|].
    destruct (negb (currentTurn r =? Z.of_nat i)); [done|].
    injection E as <-. cbn. apply Forall_insert; [done|].
    exact (proj1 (Forall_lookup _ _) Hr _ _ Hi).
  - unfold apply_compare_cards in E.
    destruct (findPlayer sid (players r)) as [[i p]|]; [|done].
    destruct (findPlayer target (players r)) as [[j q]|]; [|done].
    repeat (match type of E with
            | (if ?b then _ else _) = _ => destruct b; [done|]
            end).
    injection E as <-. cbn.
    apply Forall_alter; [|done].
    repeat case_match; try done; by apply Forall_alter.
Qed.

Lemma allInBroke_closeRound (r : room) : allInBroke r → allInBroke (closeRound r).
Proof.
  intros Hr. unfold closeRound. destruct (isRoundComplete r); [|done].
  destruct (checkAndAdvanceRound_frame 0 r) as (Hps & _).
  by eapply allInBroke_settled.
Qed.

Lemma inHandFrom_allInBroke (pick : nat → nat) (r0 : room) (n0 : nat)
      (charges : list Z) (s : server) :
  inHandFrom pick r0 n0 charges s → potInv (theRoom s) ∧ allInBroke (theRoom s).
Proof.
  induction 1 as [|charges s s' a Hreach [Hinv Hbroke] Ha].
  - split; [apply potInv_start|apply allInBroke_start].
  - split; [by destruct (handle_pot _ _ _ Hinv Ha)|].
    destruct (handle_applyAction _ _ _ Ha) as (r1 & E & Hs').
    pose proof (allInBroke_applyAction _ _ _ Hinv Hbroke E) as H1.
    destruct Hs' as [-> | ->]; [|done].
    destruct (settle_frame (Server r1 (timers s))) as (Hps & _).
    by eapply allInBroke_settled.
Qed.

(** The filter of [isHandFinished] and [resolveHand] keeps as many players
    as there are active seats. *)
Lemma activeSeats_length (r : room) :
  length (activeSeats r) = length (List.filter inHand (players r)).
Proof.
  unfold activeSeats, seated.
  assert (H : ∀ (ps : list player) (f : nat → player → nat * player),
             (∀ i p, (f i p).2 = p) →
             length (List.filter (λ e, inHand e.2) (imap f ps))
             = length (List.filter inHand ps)).
  { induction ps as [|p ps IH]; intros f Hf; [done|].
    cbn [imap List.filter]. rewrite Hf.
    destruct (inHand p); cbn [length]; rewrite IH; try done;
      intros i q; apply Hf. }
  by apply H.
Qed.

(** When no all-in player has money, a hand counts as finished only with at
    most one player left in it. *)
Lemma finished_one_left (r : room) :
  allInBroke r → isHandFinished r = true → (length (activeSeats r) ≤ 1)%nat.
Proof.
  intros Hr. rewrite activeSeats_length. unfold isHandFinished.
  destruct (Nat.leb_spec (length (List.filter inHand (players r))) 1) as [|Hlt];
    [done|].
  intros Hnone%Nat.eqb_eq. exfalso.
  destruct (List.filter inHand (players r)) as [|p l] eqn:E; [cbn in Hlt; lia|].
  assert (Hin : In p (List.filter inHand (players r))) by (rewrite E; by left).
  apply filter_In in Hin as [Hp Hact].
  cbn [List.filter] in Hnone.
  assert (Hall : allIn p = false).
  { destruct (allIn p) eqn:Ha; [|done].
    apply list_elem_of_In in Hp.
    pose proof (proj1 (Forall_forall _ _) Hr _ Hp Ha) as H0.
    unfold inHand in Hact. rewrite H0 in Hact.
    by rewrite andb_false_r in Hact. }
  unfold inHand in Hact. apply andb_true_iff in Hact as [_ Hm].
  by rewrite Hall, Hm in Hnone.
Qed.

(** In the course of a hand on the integer engine the handlers resolve it
    only once at most one player is left in it: they never reach the comparison of several
    hands in [resolveHand]. *)
Lemma showdown_not_reached (pick : nat → nat) (r0 : room) (n0 : nat)
      (charges : list Z) (s : server) (a : action) (r1 : room) :
  inHandFrom pick r0 n0 charges s →
  applyAction a (theRoom s) = Accepted r1 →
  isHandFinished (closeRound r1) = true →
  (length (activeSeats (closeRound r1)) ≤ 1)%nat.
Proof.
  intros [Hinv Hbroke]%inHandFrom_allInBroke E.
  apply finished_one_left, allInBroke_closeRound.
  by eapply allInBroke_applyAction.
Qed.

(** ** Resolution and the tournament *)

(** With nobody left in the hand there is no winner and nothing changes. *)
Lemma resolveHand_nobody (r : room) :
  activeSeats r = [] → resolveHand r = (r, HandResult None [] (pot r)).
Proof. intros H. unfold resolveHand. by rewrite H. Qed.

(** A single player left in the hand takes the whole pot. *)
Lemma resolveHand_single (r : room) (i : nat) (p : player) :
  activeSeats r = [(i, p)] →
  players (resolveHand r).1 = alter (addMoney (pot r)) i (players r).
Proof. intros H. unfold resolveHand. by rewrite H. Qed.


Lemma pruneRoster_elem (r : room) (i : nat) :
  i ∈ tournamentPlayers (pruneRoster r)
  ↔ i ∈ tournamentPlayers r ∧ ∃ p, players r !! i = Some p ∧ 0 < money p.
Proof.
  unfold pruneRoster. cbn.
  rewrite list_elem_of_In, filter_In, <- list_elem_of_In. unfold solvent.
  destruct (players r !! i) as [p|]; cbn.
  - rewrite Z.ltb_lt. split.
    + intros [? ?]. eauto.
    + intros [? (q & [= <-] & ?)]. done.
  - split; [by intros [? ?]|]. by intros [? (q & ? & ?)].
Qed.

Lemma StronglySorted_filter {A} (R : A → A → Prop) (f : A → bool) (l : list A) :
  StronglySorted R l → StronglySorted R (List.filter f l).
Proof.
  induction 1 as [|x l Hs IH Hx]; [constructor|].
  cbn. destruct (f x); [|done]. constructor; [done|].
  apply Forall_forall. intros y Hy%list_elem_of_In%filter_In.
  destruct Hy as [Hy%list_elem_of_In _].
  exact (proj1 (Forall_forall _ _) Hx y Hy).
Qed.



(** C9, as the code has it.  The end of the tournament is decided when a
    hand is resolved: [afterHandEnded] schedules the next-hand timer exactly
    when the end condition is false at that moment.  When a pending timer
    fires, the callback starts the next hand whatever the room has become:
    nothing is checked again. *)
Theorem next_hand_timer_unguarded (pick : nat → nat) (s : server) :
  (∀ r, (afterHandEnded r).1.2 = NextHandTimer
        ↔ tournamentEnded (pruneRoster r) = false)
  ∧ (timers s ≠ 0%nat →
     serverStep s (Server (startNewHand pick (theRoom s)) (pred (timers s)))).
Proof.
  split.
  - intros r. unfold afterHandEnded.
    by destruct (tournamentEnded (pruneRoster r)).
  - intros Ht. apply (step_timer pick). unfold fireTimer.
    by destruct (timers s) as [|k].
Qed.

(** C9 as the specification words it fails.  At the two-player table Binh
    folds, which schedules the next hand; An then goes all-in, which ends
    the tournament (the roster is down to Binh); the timer still fires and
    deals a second hand in the ended room. *)
Lemma hand_started_after_tournament_end :
  on_fold "sock-2" duelStart = Accepted duelFolded
  ∧ timers duelFolded = 1%nat
  ∧ on_all_in "sock-1" duelFolded = Accepted duelAllIn
  ∧ tournamentEnded (theRoom duelAllIn) = true
  ∧ gameState (theRoom duelAllIn) = Ended
  ∧ tournamentPlayers (theRoom duelAllIn) = [1%nat]
  ∧ fireTimer noShuffle duelAllIn
    = Some (Server (startNewHand noShuffle (theRoom duelAllIn)) 0)
  ∧ handsPlayed (theRoom duelAllIn) = Some 1
  ∧ handsPlayed (startNewHand noShuffle (theRoom duelAllIn)) = Some 2
  ∧ length <$> (hand <$> players (startNewHand noShuffle (theRoom duelAllIn)))
    = [0%nat; 3%nat].
Proof. split_and!; vm_compute; reflexivity. Qed.

(** ** The statements at the two-player table *)

(** The example of the specification: with a minimum of 100, a player who
    has not viewed the cards declares 200, is charged 100 and raises the
    minimum to 200. *)
Lemma place_bet_spec_witness :
  ∃ r1 : room,
    apply_place_bet "sock-2" 200 (theRoom duelStart) = Accepted r1
    ∧ pot r1 = 300 ∧ minBet r1 = 200.
Proof.
  destruct (place_bet_spec "sock-2" 200 duelStart 1 (seatOf 1 duelStart))
    as (_ & _ & H); [vm_compute; reflexivity..|].
  destruct H as (r1 & p1 & p2 & E & _ & _ & _ & _ & Hpot & Hmin & _);
    [vm_compute; discriminate..|].
  exists r1. split; [exact E|]. split; [exact Hpot|exact Hmin].
Defined.

Lemma startNewHand_spec_witness :
  (1 ≤ length (players duelRoom) ≤ 17)%nat
  ∧ -1 <= dealerIndex duelRoom
  ∧ pot (startNewHand noShuffle duelRoom) = 200
  ∧ dealerIndex (startNewHand noShuffle duelRoom) = 0.
Proof.
  assert (H1 : (1 ≤ length (players duelRoom) ≤ 17)%nat) by (cbn; lia).
  assert (H2 : -1 <= dealerIndex duelRoom) by (cbn; lia).
  destruct (startNewHand_spec noShuffle duelRoom H1 H2)
    as (Hpot & _ & _ & Hdealer & _).
  split; [exact H1|]. split; [exact H2|]. split; [exact Hpot|exact Hdealer].
Defined.

(** In round 2 Binh, whose straight flush beats An's high card, challenges
    An: An is folded by the duel and the pot stays at 350. *)
Lemma compare_cards_spec_witness :
  ∃ r1 : room,
    apply_compare_cards "sock-2" "sock-1" (theRoom duelRound2) = Accepted r1
    ∧ pot r1 = pot (theRoom duelRound2)
    ∧ money <$> players r1 = money <$> players (theRoom duelRound2).
Proof.
  destruct (compare_cards_spec "sock-2" "sock-1" duelRound2 1 0
              (seatOf 1 duelRound2) (seatOf 0 duelRound2))
    as (_ & H); [vm_compute; reflexivity..|].
  destruct H as (r1 & E & _ & Hpot & _ & Hmoney & _);
    [vm_compute; (reflexivity || discriminate)..|].
  exists r1. split; [exact E|]. split; [exact Hpot|exact Hmoney].
Defined.


Lemma next_hand_timer_unguarded_witness :
  timers duelAllIn ≠ 0%nat
  ∧ tournamentEnded (theRoom duelAllIn) = true
  ∧ serverStep duelAllIn
      (Server (startNewHand noShuffle (theRoom duelAllIn))
              (pred (timers duelAllIn))).
Proof.
  assert (H : timers duelAllIn ≠ 0%nat) by (vm_compute; discriminate).
  split; [exact H|]. split; [vm_compute; reflexivity|].
  exact (proj2 (next_hand_timer_unguarded noShuffle duelAllIn) H).
Defined.

(** An, with 9900 against a minimum of 19000, goes all-in: accepted, and
    the minimum stays at 19000. *)
Lemma all_in_spec_witness :
  money (seatOf 0 duelRaised) < minBet (theRoom duelRaised)
  ∧ ∃ s' : server,
      on_all_in "sock-1" duelRaised = Accepted s'
      ∧ pot (theRoom s') = pot (theRoom duelRaised) + 9900
      ∧ minBet (theRoom s') = 19000.
Proof.
  split; [vm_compute; reflexivity|].
  destruct (proj2 (all_in_spec "sock-1" duelRaised) 0%nat (seatOf 0 duelRaised))
    as (s' & p' & E & Hpot & _ & _ & _ & _ & Hmin & _);
    [vm_compute; reflexivity..|].
  exists s'. split; [exact E|]. split; [exact Hpot|].
  apply Hmin. vm_compute. discriminate.
Defined.

(** * Further properties of the engine *)

(** ** The deck *)

Lemma insert_swap_perm {A} (l : list A) (j : nat) (a b : A) :
  l !! j = Some b → b :: <[j := a]> l ≡ₚ a :: l.
Proof.
  revert j. induction l as [|c l IH]; intros [|j] Hj; simplify_eq/=.
  - apply perm_swap.
  - rewrite (perm_swap c b), (IH _ Hj). apply perm_swap.
Qed.

Lemma swap_perm {A} (i j : nat) (l : list A) : swap i j l ≡ₚ l.
Proof.
  unfold swap.
  destruct (l !! i) as [a|] eqn:Hi; [|done].
  destruct (l !! j) as [b|] eqn:Hj; [|done].
  revert i j Hi Hj. induction l as [|c l IH]; intros [|i] [|j] Hi Hj;
    simplify_eq/=; try done.
  - by apply insert_swap_perm.
  - by apply insert_swap_perm.
  - constructor. by apply IH.
Qed.

Lemma shuffleFrom_perm (pick : nat → nat) (i : nat) (d : list card) :
  shuffleFrom pick i d ≡ₚ d.
Proof.
  revert d. induction i as [|i IH]; intros d; [done|].
  cbn [shuffleFrom]. by rewrite IH, swap_perm.
Qed.

Lemma createDeck_complete (c : card) : c ∈ createDeck.
Proof.
  destruct c as [r s].
  destruct r, s;
    match goal with
    | |- ?c ∈ _ => apply (bool_decide_unpack (c ∈ createDeck))
    end; by vm_compute.
Qed.

(** X1.  Whatever the random draws, [shuffleDeck] returns a rearrangement
    of the deck it is given; the shuffled fresh deck therefore holds each
    of the 52 cards exactly once. *)
Theorem shuffleDeck_permutation (pick : nat → nat) (d : list card) :
  shuffleDeck pick d ≡ₚ d
  ∧ length (shuffleDeck pick createDeck) = 52%nat
  ∧ NoDup (shuffleDeck pick createDeck)
  ∧ ∀ c : card, c ∈ shuffleDeck pick createDeck.
Proof.
  assert (H : ∀ d', shuffleDeck pick d' ≡ₚ d') by (intros; apply shuffleFrom_perm).
  split_and!; [apply H|by rewrite shuffleDeck_length|..].
  - rewrite H. apply (bool_decide_unpack (NoDup createDeck)). by vm_compute.
  - intros c. rewrite H. apply createDeck_complete.
Qed.

Lemma dealCards_perm (k : nat) (h d : list card) :
  (dealCards k h d).1 ++ (dealCards k h d).2 ≡ₚ h ++ d.
Proof.
  revert h d. induction k as [|k IH]; intros h d; cbn [dealCards]; [done|].
  destruct (last d) as [c|] eqn:Hl; [|apply IH].
  apply last_Some in Hl as [d' ->]. rewrite removelast_last, IH.
  rewrite <- !(assoc (++)). f_equiv. cbn. apply Permutation_cons_append.
Qed.

Lemma anteAll_cards (ps : list player) (pt : Z) (d : list card) :
  concat (hand <$> (anteAll ps pt d).1.1) ++ (anteAll ps pt d).2 ≡ₚ d.
Proof.
  revert pt d. induction ps as [|p ps IH]; intros pt d; [done|].
  cbn [anteAll]. destruct (anteUp p pt d) as [[p' pt'] d'] eqn:E1.
  specialize (IH pt' d'). destruct (anteAll ps pt' d') as [[ps' pt''] d''].
  cbn [fst snd] in *. cbn [fmap list_fmap concat]. rewrite <- (assoc (++)), IH.
  unfold anteUp in E1. cbn -[dealCards] in E1.
  pose proof (dealCards_perm 3 [] d) as Hd.
  destruct (dealCards 3 [] d) as [h dd]. cbn [fst snd app] in Hd.
  destruct (0 <? money p); by simplify_eq.
Qed.

Lemma startNewHand_deck (pick : nat → nat) (r : room) :
  deck (startNewHand pick r)
  = (anteAll (players r) 0 (shuffleDeck pick createDeck)).2.
Proof.
  unfold startNewHand.
  by destruct (anteAll (players r) 0 (shuffleDeck pick createDeck)) as [[ps pt] d].
Qed.

(** X2.  After [startNewHand] the hands of the players together with the
    rest of the deck are the 52 cards, each once: no card is dealt twice and
    none is lost, for every room and every shuffle. *)
Theorem startNewHand_cards (pick : nat → nat) (r : room) :
  concat (hand <$> players (startNewHand pick r)) ++ deck (startNewHand pick r)
    ≡ₚ createDeck
  ∧ NoDup (concat (hand <$> players (startNewHand pick r))
           ++ deck (startNewHand pick r)).
Proof.
  destruct (startNewHand_fields pick r) as (Hps & _).
  assert (H : concat (hand <$> players (startNewHand pick r))
              ++ deck (startNewHand pick r) ≡ₚ createDeck).
  { rewrite Hps, startNewHand_deck, anteAll_cards. apply shuffleFrom_perm. }
  split; [done|]. rewrite H.
  apply (bool_decide_unpack (NoDup createDeck)). by vm_compute.
Qed.

(** ** Hand evaluation *)

Lemma getCardValue_inj (r1 r2 : Rank) :
  getCardValue r1 = getCardValue r2 → r1 = r2.
Proof. destruct r1, r2; cbn; congruence. Qed.

Lemma sort3_sorted (x y z : card) :
  cardValue z <= cardValue y <= cardValue x →
  sortBy (λ a b, cardValue b - cardValue a) [x; y; z] = [x; y; z].
Proof.
  intros Ho. cbn [sortBy foldr insertBy].
  destruct (Z.leb_spec (cardValue z - cardValue y) 0); [|lia]. cbn [insertBy].
  destruct (Z.leb_spec (cardValue y - cardValue x) 0); [done|lia].
Qed.

Lemma evaluateHand_sorted (a b c : card) :
  ∃ x y z, [x; y; z] ≡ₚ [a; b; c]
           ∧ cardValue z <= cardValue y <= cardValue x
           ∧ evaluateHand [a; b; c] = evaluateHand [x; y; z].
Proof.
  destruct (sort3 a b c) as (x & y & z & Hs & Hp & Ho).
  exists x, y, z. split_and!; try done; try lia.
  unfold evaluateHand. by rewrite Hs, sort3_sorted.
Qed.

(** Two sorted arrangements of the same three cards differ only by
    exchanges of cards of equal rank, which the evaluation does not see. *)
Lemma evaluateHand_sorted_perm (x y z x' y' z' : card) :
  [x'; y'; z'] ≡ₚ [x; y; z] →
  cardValue z <= cardValue y <= cardValue x →
  cardValue z' <= cardValue y' <= cardValue x' →
  evaluateHand [x'; y'; z'] = evaluateHand [x; y; z].
Proof.
  intros Hp Ho Ho'.
  assert (Hr : ∀ c d : card, cardValue c = cardValue d → rank c = rank d)
    by (intros c d; apply getCardValue_inj).
  unfold evaluateHand. rewrite !sort3_sorted by done.
  destruct (perm3_inv _ _ _ _ Hp) as [E|[E|[E|[E|[E|E]]]]];
    injection E as -> -> ->; try done.
  - assert (Hxy : rank x = rank y) by (apply Hr; lia).
    destruct x as [rx sx], y as [ry sy], z as [rz sz]. cbn in Hxy. subst ry.
    destruct sx, sy, sz; reflexivity.
  - assert (Hxy : rank x = rank y) by (apply Hr; lia).
    assert (Hyz : rank y = rank z) by (apply Hr; lia).
    destruct x as [rx sx], y as [ry sy], z as [rz sz]. cbn in Hxy, Hyz.
    subst ry rz. destruct sx, sy, sz; reflexivity.
  - assert (Hyz : rank y = rank z) by (apply Hr; lia).
    destruct x as [rx sx], y as [ry sy], z as [rz sz]. cbn in Hyz. subst rz.
    destruct sx, sy, sz; reflexivity.
  - assert (Hxy : rank x = rank y) by (apply Hr; lia).
    assert (Hyz : rank y = rank z) by (apply Hr; lia).
    destruct x as [rx sx], y as [ry sy], z as [rz sz]. cbn in Hxy, Hyz.
    subst ry rz. destruct sx, sy, sz; reflexivity.
  - assert (Hxy : rank x = rank y) by (apply Hr; lia).
    assert (Hyz : rank y = rank z) by (apply Hr; lia).
    destruct x as [rx sx], y as [ry sy], z as [rz sz]. cbn in Hxy, Hyz.
    subst ry rz. destruct sx, sy, sz; reflexivity.
Qed.

(** X3.  [evaluateHand] does not depend on the order of the three cards. *)
Theorem evaluateHand_permutation (h h' : list card) :
  length h = 3%nat → h' ≡ₚ h → evaluateHand h' = evaluateHand h.
Proof.
  intros Hl Hp. assert (Hl' : length h' = 3%nat) by (by rewrite Hp).
  apply hand3 in Hl as (a & b & c & ->). apply hand3 in Hl' as (a' & b' & c' & ->).
  destruct (evaluateHand_sorted a b c) as (x & y & z & Hxp & Hxo & ->).
  destruct (evaluateHand_sorted a' b' c') as (x' & y' & z' & Hxp' & Hxo' & ->).
  apply evaluateHand_sorted_perm; try done. by rewrite Hxp', Hp, Hxp.
Qed.

Lemma evaluateHand_permutation_witness :
  evaluateHand [Card R3 Hearts; Card RA Spades; Card R2 Clubs]
  = evaluateHand [Card RA Spades; Card R2 Clubs; Card R3 Hearts].
Proof.
  apply evaluateHand_permutation; [reflexivity|].
  apply Permutation_cons_append.
Defined.

Lemma compareHands_antisym (a b : handEval) (va vb : Z) :
  hvalue a = Num va → hvalue b = Num vb →
  compareHands b a = - compareHands a b.
Proof.
  intros Ha Hb. unfold compareHands. rewrite Ha, Hb. cbn.
  repeat match goal with |- context [?x <? ?y] =>
    destruct (Z.ltb_spec x y) end; lia.
Qed.

Lemma compareHands_trans (a b c : handEval) (va vb vc : Z) :
  hvalue a = Num va → hvalue b = Num vb → hvalue c = Num vc →
  0 <= compareHands a b → 0 <= compareHands b c → 0 <= compareHands a c.
Proof.
  intros Ha Hb Hc. unfold compareHands. rewrite Ha, Hb, Hc. cbn.
  repeat match goal with |- context [?x <? ?y] =>
    destruct (Z.ltb_spec x y) end; lia.
Qed.

(** X4.  On the evaluations of three-card hands [compareHands] is the
    comparator of a total preorder, as [Array.prototype.sort] needs:
    swapping the arguments negates the result, and "not worse than" is
    transitive. *)
Theorem compareHands_consistent (h1 h2 h3 : list card) :
  length h1 = 3%nat → length h2 = 3%nat → length h3 = 3%nat →
  compareHands (evaluateHand h2) (evaluateHand h1)
  = - compareHands (evaluateHand h1) (evaluateHand h2)
  ∧ (0 <= compareHands (evaluateHand h1) (evaluateHand h2) →
     0 <= compareHands (evaluateHand h2) (evaluateHand h3) →
     0 <= compareHands (evaluateHand h1) (evaluateHand h3)).
Proof.
  intros [v1 H1]%evaluateHand_num [v2 H2]%evaluateHand_num
         [v3 H3]%evaluateHand_num.
  split; [by eapply compareHands_antisym|by eapply compareHands_trans].
Qed.

Lemma compareHands_consistent_witness :
  compareHands (evaluateHand [Card RA Spades; Card RK Spades; Card RQ Spades])
               (evaluateHand [Card R3 Spades; Card R3 Hearts; Card R3 Diamonds])
  = - compareHands
        (evaluateHand [Card R3 Spades; Card R3 Hearts; Card R3 Diamonds])
        (evaluateHand [Card RA Spades; Card RK Spades; Card RQ Spades]).
Proof.
  exact (proj1 (compareHands_consistent
                  [Card R3 Spades; Card R3 Hearts; Card R3 Diamonds]
                  [Card RA Spades; Card RK Spades; Card RQ Spades]
                  [Card R2 Spades; Card R5 Hearts; Card R9 Diamonds]
                  eq_refl eq_refl eq_refl)).
Defined.

(** ** Turn order *)

Lemma scanSeats_spec (el : player → bool) (ps : list player) (fuel : nat) :
  let n := Z.of_nat (length ps) in
  ∀ idx, 0 <= idx < n →
  (scanSeats el ps n fuel idx = -1
   ∧ ∀ j p, 0 <= j < Z.of_nat fuel →
            ps !! Z.to_nat ((idx + j) `mod` n) = Some p → el p = false)
  ∨ (∃ k, 0 <= k < Z.of_nat fuel
       ∧ scanSeats el ps n fuel idx = (idx + k) `mod` n
       ∧ (∃ p, ps !! Z.to_nat ((idx + k) `mod` n) = Some p ∧ el p = true)
       ∧ ∀ j p, 0 <= j < k →
                ps !! Z.to_nat ((idx + j) `mod` n) = Some p → el p = false).
Proof.
  intros n. induction fuel as [|fuel IH]; intros idx Hidx.
  { left. split; [done|]. intros; lia. }
  cbn [scanSeats]. unfold seatAt.
  destruct (Z.ltb_spec idx 0) as [|_]; [lia|].
  destruct (ps !! Z.to_nat idx) as [p|] eqn:Hp.
  2: { apply lookup_ge_None in Hp. lia. }
  assert (H0 : (idx + 0) `mod` n = idx) by (rewrite Z.add_0_r; apply Z.mod_small; lia).
  destruct (el p) eqn:Hel.
  { right. exists 0. rewrite H0. split_and!; [lia|lia|done|eauto|intros; lia]. }
  assert (Hnext : Z.rem (idx + 1) n = (idx + 1) `mod` n)
    by (apply Z.rem_mod_nonneg; lia).
  assert (Hshift : ∀ j, ((idx + 1) `mod` n + j) `mod` n = (idx + (j + 1)) `mod` n).
  { intros j. rewrite Zplus_mod_idemp_l. f_equal. lia. }
  rewrite Hnext.
  destruct (IH ((idx + 1) `mod` n)) as [[Hres Hnone]|(k & Hk & Hres & Hfound & Hnone)].
  { apply Z.mod_pos_bound. lia. }
  - left. split; [done|]. intros j q Hj Hq.
    destruct (Z.eq_dec j 0) as [->|Hne].
    + rewrite H0 in Hq. congruence.
    + apply (Hnone (j - 1) q); [lia|]. rewrite Hshift.
      by replace (j - 1 + 1) with j by lia.
  - right. exists (k + 1). rewrite <- Hshift. split_and!; [lia|lia|done|done|].
    intros j q Hj Hq.
    destruct (Z.eq_dec j 0) as [->|Hne].
    + rewrite H0 in Hq. congruence.
    + apply (Hnone (j - 1) q); [lia|]. rewrite Hshift.
      by replace (j - 1 + 1) with j by lia.
Qed.

Lemma scan_firstAfter (el : player → bool) (ps : list player) (from : Z) :
  ps ≠ [] → -1 <= from →
  firstAfter el ps from
    (scanSeats el ps (Z.of_nat (length ps)) (length ps)
       (Z.rem (from + 1) (Z.of_nat (length ps)))).
Proof.
  intros Hne Hfrom. set (n := Z.of_nat (length ps)).
  assert (Hn : 0 < n) by (subst n; destruct ps; [done|cbn; lia]).
  assert (Hstart : Z.rem (from + 1) n = (from + 1) `mod` n)
    by (apply Z.rem_mod_nonneg; lia).
  assert (Hshift : ∀ j, ((from + 1) `mod` n + j) `mod` n = (from + (j + 1)) `mod` n).
  { intros j. rewrite Zplus_mod_idemp_l. f_equal. lia. }
  rewrite Hstart. unfold firstAfter. fold n.
  destruct (scanSeats_spec el ps (length ps) ((from + 1) `mod` n))
    as [[Hres Hnone]|(k & Hk & Hres & Hfound & Hnone)].
  { apply Z.mod_pos_bound. lia. }
  - left. split; [done|]. apply Forall_lookup. intros t p Ht.
    assert (Htn : 0 <= Z.of_nat t < n).
    { apply lookup_lt_Some in Ht. subst n. lia. }
    apply (Hnone ((Z.of_nat t - (from + 1)) `mod` n) p).
    { apply Z.mod_pos_bound. lia. }
    fold n. rewrite Zplus_mod_idemp_l, Zplus_mod_idemp_r.
    replace (from + 1 + (Z.of_nat t - (from + 1))) with (Z.of_nat t) by lia.
    rewrite Z.mod_small by lia. by rewrite Nat2Z.id.
  - right. exists (k + 1). fold n in Hres, Hfound, Hnone.
    rewrite Hshift in Hres, Hfound. rewrite Hres.
    split_and!; [lia|lia|done|done|].
    intros j p Hj Hp. apply (Hnone (j - 1) p); [lia|].
    rewrite Hshift. by replace (j - 1 + 1) with j by lia.
Qed.

Lemma getNext_firstAfter (r : room) (i : Z) :
  -1 <= i →
  firstAfter canAct (players r) i (getNextActivePlayerIndex r i).
Proof.
  intros Hi. unfold getNextActivePlayerIndex.
  destruct (Z.eqb_spec (Z.of_nat (length (players r))) 0) as [E|E].
  - left. split; [done|]. destruct (players r); [constructor|cbn in E; lia].
  - apply scan_firstAfter; [|done]. intros E'. by rewrite E' in E.
Qed.

Lemma getFirst_firstAfter (r : room) :
  -1 <= dealerIndex r →
  firstAfter inHand (players r) (dealerIndex r) (getFirstPlayerAfterDealer r).
Proof.
  intros Hi. unfold getFirstPlayerAfterDealer.
  destruct (Z.eqb_spec (Z.of_nat (length (players r))) 0) as [E|E].
  - left. split; [done|]. destruct (players r); [constructor|cbn in E; lia].
  - apply scan_firstAfter; [|done]. intros E'. by rewrite E' in E.
Qed.

(** X5.  [getNextActivePlayerIndex(room, i)] scans the seats cyclically from
    the one after [i]: it returns -1 exactly when no player can act (not
    folded, money, not all-in), and otherwise the first seat after [i]
    whose player can act, [i] itself being tried last. *)
Theorem getNextActivePlayerIndex_spec (r : room) (i : Z) :
  -1 <= i →
  firstAfter canAct (players r) i (getNextActivePlayerIndex r i)
  ∧ (getNextActivePlayerIndex r i = -1
     ↔ Forall (λ p, canAct p = false) (players r)).
Proof.
  intros Hi.
  pose proof (getNext_firstAfter r i Hi) as H.
  split; [done|]. split.
  - intros E. destruct H as [[_ ?]|(k & Hk & Hres & _)]; [done|].
    rewrite E in Hres. pose proof (Z.mod_pos_bound (i + k) (Z.of_nat (length (players r)))). lia.
  - intros Hall. destruct H as [[? _]|(k & _ & _ & (p & Hp & Hel) & _)]; [done|].
    pose proof (proj1 (Forall_lookup _ _) Hall _ _ Hp). congruence.
Qed.

(** X6.  [getFirstPlayerAfterDealer] does the same from the dealer's seat,
    for the players still in the hand (not folded, with money): -1 exactly
    when there is none, otherwise the first such seat after the dealer. *)
Theorem getFirstPlayerAfterDealer_spec (r : room) :
  -1 <= dealerIndex r →
  firstAfter inHand (players r) (dealerIndex r) (getFirstPlayerAfterDealer r)
  ∧ (getFirstPlayerAfterDealer r = -1
     ↔ Forall (λ p, inHand p = false) (players r)).
Proof.
  intros Hi.
  pose proof (getFirst_firstAfter r Hi) as H.
  split; [done|]. split.
  - intros E. destruct H as [[_ ?]|(k & Hk & Hres & _)]; [done|].
    rewrite E in Hres.
    pose proof (Z.mod_pos_bound (dealerIndex r + k) (Z.of_nat (length (players r)))).
    lia.
  - intros Hall. destruct H as [[? _]|(k & _ & _ & (p & Hp & Hel) & _)]; [done|].
    pose proof (proj1 (Forall_lookup _ _) Hall _ _ Hp). congruence.
Qed.

(** ** The fold, view-cards and start-game handlers *)

Lemma Forall2_fmap_eq {A B} (f : A → B) (l k : list A) :
  Forall2 (λ x y, f y = f x) l k → f <$> k = f <$> l.
Proof. induction 1; cbn; congruence. Qed.

Lemma settle_stakes (s : server) :
  folded <$> players (theRoom (settle s)) = folded <$> players (theRoom s)
  ∧ currentBet <$> players (theRoom (settle s))
    = currentBet <$> players (theRoom s)
  ∧ allIn <$> players (theRoom (settle s)) = allIn <$> players (theRoom s)
  ∧ viewedCards <$> players (theRoom (settle s))
    = viewedCards <$> players (theRoom s).
Proof.
  destruct (settle_frame s) as (Hps & _).
  split_and!; apply Forall2_fmap_eq; (eapply Forall2_impl; [exact Hps|]);
    by intros p p' (_&_&_&?&?&?&?&_).
Qed.

Lemma findPlayer_insert (sid : string) (ps : list player) (i : nat) (p p' : player) :
  findPlayer sid ps = Some (i, p) → id p' = id p →
  findPlayer sid (<[i := p']> ps) = Some (i, p').
Proof.
  unfold findPlayer. intros (Hi & Hid & Hbefore)%list_find_Some Hsame.
  apply list_find_Some. split_and!.
  - apply list_lookup_insert_eq. by eapply lookup_lt_Some.
  - congruence.
  - intros j q Hj Hlt. rewrite list_lookup_insert_ne in Hj by lia. eauto.
Qed.

(** X7.  The fold handler.  It rejects exactly for a sender without a seat,
    already folded, or out of turn.  Otherwise it is accepted: the sender is
    folded and nobody else's fold flag changes, and when the handler has
    closed the round and the hand the pot, the minimum bet, every current
    bet and the folder's own balance are what they were. *)
Theorem fold_spec (sid : string) (s : server) :
  let r := theRoom s in
  (∀ e, on_fold sid s = Rejected e →
     findPlayer sid (players r) = None
     ∨ ∃ i p, findPlayer sid (players r) = Some (i, p)
              ∧ (folded p = true ∨ currentTurn r ≠ Z.of_nat i))
  ∧ (∀ i p, findPlayer sid (players r) = Some (i, p) →
     folded p = false → currentTurn r = Z.of_nat i →
     ∃ (s' : server) (p' : player),
       on_fold sid s = Accepted s'
       ∧ folded <$> players (theRoom s') = <[i := true]> (folded <$> players r)
       ∧ currentBet <$> players (theRoom s') = currentBet <$> players r
       ∧ pot (theRoom s') = pot r
       ∧ minBet (theRoom s') = minBet r
       ∧ players (theRoom s') !! i = Some p'
       ∧ money p' = money p).
Proof.
  cbv zeta. set (r := theRoom s). unfold on_fold, onRoom. fold r. split.
  - intros e He. unfold apply_fold in He.
    destruct (findPlayer sid (players r)) as [[i p]|]; [|by left].
    right. exists i, p. split; [done|].
    destruct (folded p); [by left|].
    destruct (Z.eqb_spec (currentTurn r) (Z.of_nat i)); [done|]. by right.
  - intros i p Hfind Hfold Hturn.
    destruct (findPlayer_lookup _ _ _ _ Hfind) as [Hi _].
    assert (Hlt : (i < length (players r))%nat) by (by eapply lookup_lt_Some).
    destruct (apply_fold sid r) as [e|r1] eqn:E;
      unfold apply_fold in E;
      rewrite Hfind, Hfold, Hturn, Z.eqb_refl in E; cbn [negb] in E; [done|].
    injection E as E.
    assert (Hi1 : players r1 !! i
                  = Some (set_actedThisRound true (set_folded true p))).
    { rewrite <- E. cbn. by rewrite list_lookup_insert_eq. }
    destruct (settle_lookup (Server r1 (timers s)) i _ Hi1) as (p2 & Hi2 & Hst).
    destruct (settle_frame (Server r1 (timers s))) as (_ & Hpot2 & Hmin2).
    destruct (settle_stakes (Server r1 (timers s))) as (Hf & Hcb & _).
    destruct Hst as (_ & _ & _ & _ & _ & _ & _ & Hm & _).
    cbn in Hpot2, Hmin2, Hm, Hf, Hcb.
    assert (Hf1 : folded <$> players r1 = <[i := true]> (folded <$> players r)).
    { rewrite <- E. cbn. by rewrite list_fmap_insert. }
    assert (Hcb1 : currentBet <$> players r1 = currentBet <$> players r).
    { rewrite <- E. cbn. rewrite list_fmap_insert. cbn.
      by apply list_insert_id, list_lookup_fmap_Some_2. }
    assert (Hpm : pot r1 = pot r ∧ minBet r1 = minBet r) by (by rewrite <- E).
    destruct Hpm as [Hpot1 Hmin1].
    eexists _, p2. split; [done|].
    rewrite Hf, Hcb, Hpot2, Hmin2, Hf1, Hcb1, Hpot1, Hmin1.
    split_and!; try done. by apply Hm.
Qed.

(** X8.  The view-cards handler.  It rejects exactly for a sender without a
    seat, who has already viewed, or out of turn (a folded player is not
    turned away).  Otherwise only the sender's viewed flag changes: the
    turn, the round, the pot and the minimum bet stay, and no timer is
    scheduled.  Viewing cannot be repeated, and from then on a bet of the
    sender is charged in full: declaring [D] adds [D] to the pot. *)
Theorem view_cards_spec (sid : string) (s : server) :
  let r := theRoom s in
  (∀ e, on_view_cards sid s = Rejected e →
     findPlayer sid (players r) = None
     ∨ ∃ i p, findPlayer sid (players r) = Some (i, p)
              ∧ (viewedCards p = true ∨ currentTurn r ≠ Z.of_nat i))
  ∧ (∀ i p, findPlayer sid (players r) = Some (i, p) →
     viewedCards p = false → currentTurn r = Z.of_nat i →
     ∃ s' : server,
       on_view_cards sid s = Accepted s'
       ∧ players (theRoom s') = <[i := set_viewedCards true p]> (players r)
       ∧ currentTurn (theRoom s') = currentTurn r
       ∧ currentRound (theRoom s') = currentRound r
       ∧ pot (theRoom s') = pot r
       ∧ minBet (theRoom s') = minBet r
       ∧ timers s' = timers s
       ∧ on_view_cards sid s' = Rejected AlreadyViewed
       ∧ (∀ D, folded p = false → minBet r <= D → D <= money p →
          ∃ r2, apply_place_bet sid D (theRoom s') = Accepted r2
                ∧ pot r2 = pot r + D)).
Proof.
  cbv zeta. set (r := theRoom s). unfold on_view_cards at 1 2, onRoom.
  fold r. split.
  - intros e He. unfold apply_view_cards in He.
    destruct (findPlayer sid (players r)) as [[i p]|]; [|by left].
    right. exists i, p. split; [done|].
    destruct (viewedCards p); [by left|].
    destruct (Z.eqb_spec (currentTurn r) (Z.of_nat i)); [done|]. by right.
  - intros i p Hfind Hview Hturn.
    unfold apply_view_cards. rewrite Hfind, Hview, Hturn, Z.eqb_refl. cbn [negb].
    eexists. split; [done|]. cbn.
    assert (Hfind' : findPlayer sid (<[i := set_viewedCards true p]> (players r))
                     = Some (i, set_viewedCards true p))
      by (by apply (findPlayer_insert _ _ _ p)).
    split_and!; try done.
    + unfold on_view_cards, onRoom, apply_view_cards. cbn -[findPlayer].
      by rewrite Hfind'.
    + intros D Hfold Hge Hrich. unfold apply_place_bet. cbn -[findPlayer].
      rewrite Hfind'. cbn. rewrite Hfold, Hturn, Z.eqb_refl. cbn [negb].
      rewrite (proj2 (Z.ltb_ge _ _) Hge), (proj2 (Z.ltb_ge _ _) Hrich).
      eexists. split; [done|]. cbn. by destruct (minBet r <? D).
Qed.

(** X9.  The start-game handler.  Only the host may start, and only with at
    least two seats; the phase of the room is not looked at.  When accepted
    the room is playing its first hand: the roster is every seat, the
    player count is recorded as the cap on hands, one hand has been played,
    and the hand is the one [startNewHand] deals. *)
Theorem start_game_spec (pick : nat → nat) (sid : string) (s : server) :
  let r := theRoom s in
  (host r ≠ sid → on_start_game pick sid s = Rejected NotHost)
  ∧ (host r = sid → (length (players r) < 2)%nat →
     on_start_game pick sid s = Rejected TooFewPlayers)
  ∧ (host r = sid → (2 ≤ length (players r))%nat →
     ∃ s' : server,
       on_start_game pick sid s = Accepted s'
       ∧ gameState (theRoom s') = Playing
       ∧ tournamentPlayers (theRoom s') = seq 0 (length (players r))
       ∧ startingPlayerCount (theRoom s') = Some (Z.of_nat (length (players r)))
       ∧ handsPlayed (theRoom s') = Some 1
       ∧ currentRound (theRoom s') = 1
       ∧ minBet (theRoom s') = 100
       ∧ players (theRoom s') = players (startNewHand pick r)
       ∧ pot (theRoom s') = pot (startNewHand pick r)
       ∧ timers s' = timers s).
Proof.
  cbv zeta. set (r := theRoom s).
  unfold on_start_game, onRoom, apply_start_game. fold r. split_and!.
  - intros Hne. by rewrite bool_decide_eq_false_2.
  - intros He Hn. rewrite bool_decide_eq_true_2 by done. cbn [negb].
    by rewrite (proj2 (Nat.ltb_lt _ _) Hn).
  - intros He Hn. rewrite bool_decide_eq_true_2 by done. cbn [negb].
    rewrite (proj2 (Nat.ltb_ge _ _) Hn).
    eexists. split; [done|]. cbn [theRoom timers].
    match goal with |- context [startNewHand pick ?x] => set (r1 := x) end.
    destruct (startNewHand_fields pick r1)
      as (Hps & Hpot & _ & Hmin & Hrd & Hgs & Htp & Hhp & Hsc).
    destruct (startNewHand_fields pick r) as (Hps' & Hpot' & _).
    rewrite Hps, Hpot, Hmin, Hrd, Hgs, Htp, Hhp, Hsc, Hps', Hpot'.
    by split_and!.
Qed.

(** ** What the actions of a hand keep *)

Lemma keepsSeat_refl (p : player) : keepsSeat p p.
Proof. unfold keepsSeat. by split_and!. Qed.

Lemma keepsSeat_trans (p p1 p2 : player) :
  keepsSeat p p1 → keepsSeat p1 p2 → keepsSeat p p2.
Proof.
  intros (?&?&?&?&?&?) (?&?&?&?&?&?). unfold keepsSeat.
  split_and!; try congruence; auto.
Qed.

Lemma Forall2_insert_diag {A} (R : A → A → Prop) (l : list A) (i : nat) (x y : A) :
  (∀ z, R z z) → l !! i = Some x → R x y → Forall2 R l (<[i := y]> l).
Proof.
  intros Hrefl Hi Hxy. rewrite list_insert_alter. apply Forall2_alter_r.
  - by apply Forall_Forall2_diag, Forall_forall.
  - intros a b Ha Hb _. by simplify_eq.
Qed.

Lemma Forall2_alter_diag {A} (R : A → A → Prop) (l : list A) (i : nat) (f : A → A) :
  (∀ z, R z z) → (∀ z, R z (f z)) → Forall2 R l (alter f i l).
Proof.
  intros Hrefl Hf. apply Forall2_alter_r.
  - by apply Forall_Forall2_diag, Forall_forall.
  - intros a b Ha Hb _. by simplify_eq.
Qed.

Lemma Forall2_keepsSeat_trans (ps ps1 ps2 : list player) :
  Forall2 keepsSeat ps ps1 → Forall2 keepsSeat ps1 ps2 → Forall2 keepsSeat ps ps2.
Proof.
  intros H1. revert ps2. induction H1; inversion 1; subst; constructor;
    eauto using keepsSeat_trans.
Qed.

(** The validation and application of an action: who may act, and what is
    left alone. *)
Lemma applyAction_frame (a : action) (r r1 : room) :
  applyAction a r = Accepted r1 →
  (∃ i p, findPlayer (sender a) (players r) = Some (i, p)
          ∧ currentTurn r = Z.of_nat i
          ∧ (folded p = true → ∃ sid, a = ViewCards sid))
  ∧ Forall2 keepsSeat (players r) (players r1)
  ∧ minBet r <= minBet r1
  ∧ host r1 = host r ∧ dealerIndex r1 = dealerIndex r
  ∧ currentRound r1 = currentRound r ∧ gameState r1 = gameState r
  ∧ tournamentPlayers r1 = tournamentPlayers r
  ∧ handsPlayed r1 = handsPlayed r
  ∧ startingPlayerCount r1 = startingPlayerCount r
  ∧ (Forall (λ p, 0 <= money p) (players r) →
     Forall (λ p, 0 <= money p) (players r1)).
Proof.
  intros E. destruct a as [sid D|sid|sid|sid|sid target];
    cbn [applyAction sender] in *.
  - unfold apply_place_bet in E.
    destruct (findPlayer sid (players r)) as [[i p]|] eqn:Hfind; [|done].
    destruct (findPlayer_lookup _ _ _ _ Hfind) as [Hi _].
    destruct (folded p) eqn:Hfold; [done|].
    destruct (Z.eqb_spec (currentTurn r) (Z.of_nat i)) as [Hturn|]; [|done].
    cbn [negb] in E.
    destruct (Z.ltb_spec D (minBet r)) as [|Hge]; [done|].
    destruct (Z.ltb_spec (money p) (if viewedCards p then D else D `div` 2))
      as [|Hrich]; [done|].
    injection E as <-.
    split; [exists i, p; split_and!; [done|done|intros ?; congruence]|].
    destruct (Z.ltb_spec (minBet r) D); cbn;
      (split_and!; try done; try lia;
       [apply (Forall2_insert_diag _ _ _ p); [apply keepsSeat_refl|done|];
        unfold keepsSeat; by split_and!
       |intros HK; apply Forall_insert; [done|cbn; lia]]).
  - unfold apply_fold in E.
    destruct (findPlayer sid (players r)) as [[i p]|] eqn:Hfind; [|done].
    destruct (findPlayer_lookup _ _ _ _ Hfind) as [Hi _].
    destruct (folded p) eqn:Hfold; [done|].
    destruct (Z.eqb_spec (currentTurn r) (Z.of_nat i)) as [Hturn|]; [|done].
    injection E as <-.
    split; [exists i, p; split_and!; [done|done|intros ?; congruence]|]. cbn.
    split_and!; try done; try lia.
    + apply (Forall2_insert_diag _ _ _ p); [apply keepsSeat_refl|done|].
      unfold keepsSeat; by split_and!.
    + intros HK. apply Forall_insert; [done|].
      exact (proj1 (Forall_lookup _ _) HK _ _ Hi).
  - unfold apply_all_in in E.
    destruct (findPlayer sid (players r)) as [[i p]|] eqn:Hfind; [|done].
    destruct (findPlayer_lookup _ _ _ _ Hfind) as [Hi _].
    destruct (folded p) eqn:Hfold; [done|].
    destruct (allIn p); [done|].
    destruct (Z.eqb_spec (currentTurn r) (Z.of_nat i)) as [Hturn|]; [|done].
    injection E as <-.
    split; [exists i, p; split_and!; [done|done|intros ?; congruence]|].
    destruct (Z.ltb_spec (minBet r) (money p)); cbn;
      (split_and!; try done; try lia;
       [apply (Forall2_insert_diag _ _ _ p); [apply keepsSeat_refl|done|];
        unfold keepsSeat; by split_and!
       |intros HK; by apply Forall_insert]).
  - unfold apply_view_cards in E.
    destruct (findPlayer sid (players r)) as [[i p]|] eqn:Hfind; [|done].
    destruct (findPlayer_lookup _ _ _ _ Hfind) as [Hi _].
    destruct (viewedCards p); [done|].
    destruct (Z.eqb_spec (currentTurn r) (Z.of_nat i)) as [Hturn|]; [|done].
    injection E as <-.
    split; [exists i, p; split_and!; eauto|]. cbn.
    split_and!; try done; try lia.
    + apply (Forall2_insert_diag _ _ _ p); [apply keepsSeat_refl|done|].
      unfold keepsSeat; by split_and!.
    + intros HK. apply Forall_insert; [done|].
      exact (proj1 (Forall_lookup _ _) HK _ _ Hi).
  - unfold apply_compare_cards in E.
    destruct (findPlayer sid (players r)) as [[i p]|] eqn:Hfind; [|done].
    destruct (findPlayer target (players r)) as [[j q]|]; [|done].
    destruct (folded p) eqn:Hfold; [done|].
    destruct (folded q); [done|]. cbn [orb] in E.
    destruct (currentRound r <? 2); [done|].
    destruct (Z.eqb_spec (currentTurn r) (Z.of_nat i)) as [Hturn|]; [|done].
    cbn [negb] in E.
    destruct (currentBet p <? requiredActual p r); [done|].
    injection E as <-.
    split; [exists i, p; split_and!; [done|done|intros ?; congruence]|]. cbn.
    assert (Hk : ∀ f : player → player, (∀ z, keepsSeat z (f z)) →
                 ∀ k l, Forall2 keepsSeat (players r) l →
                        Forall2 keepsSeat (players r) (alter f k l)).
    { intros f Hf k l Hl. apply Forall2_alter_r; [done|].
      intros x y _ _ Hxy. eapply keepsSeat_trans; [exact Hxy|apply Hf]. }
    assert (Hm : ∀ f : player → player, (∀ z, money (f z) = money z) →
                 ∀ k l, Forall (λ p, 0 <= money p) l →
                        Forall (λ p, 0 <= money p) (alter f k l)).
    { intros f Hf k l Hl. apply Forall_alter; [done|]. intros x _. by rewrite Hf. }
    assert (Hfold_keeps : ∀ z, keepsSeat z (set_folded true z))
      by (intros z; unfold keepsSeat; by split_and!).
    assert (Hact_keeps : ∀ z, keepsSeat z (set_actedThisRound true z))
      by (intros z; unfold keepsSeat; by split_and!).
    split_and!; try done; try lia.
    + apply Hk; [done|]. repeat case_match; try (apply Hk; [done|]);
        by apply Forall_Forall2_diag, Forall_forall; intros; apply keepsSeat_refl.
    + intros HK. apply Hm; [done|]. repeat case_match; try (by apply Hm); done.
Qed.

(** Closing the round and the hand: what is left alone. *)
Lemma settle_fields (s : server) :
  host (theRoom (settle s)) = host (theRoom s)
  ∧ dealerIndex (theRoom (settle s)) = dealerIndex (theRoom s)
  ∧ handsPlayed (theRoom (settle s)) = handsPlayed (theRoom s)
  ∧ startingPlayerCount (theRoom (settle s)) = startingPlayerCount (theRoom s)
  ∧ currentRound (theRoom s) <= currentRound (theRoom (settle s))
      <= currentRound (theRoom s) + 1
  ∧ (gameState (theRoom (settle s)) = gameState (theRoom s)
     ∨ gameState (theRoom (settle s)) = Ended)
  ∧ (∀ i, i ∈ tournamentPlayers (theRoom (settle s)) →
          i ∈ tournamentPlayers (theRoom s))
  ∧ (timers s ≤ timers (settle s) ≤ S (timers s))%nat.
Proof.
  unfold settle, closeHand. cbn [theRoom timers].
  set (r := theRoom s). set (r1 := closeRound r).
  assert (H1 : host r1 = host r ∧ dealerIndex r1 = dealerIndex r
               ∧ handsPlayed r1 = handsPlayed r
               ∧ startingPlayerCount r1 = startingPlayerCount r
               ∧ currentRound r <= currentRound r1 <= currentRound r + 1
               ∧ gameState r1 = gameState r
               ∧ tournamentPlayers r1 = tournamentPlayers r).
  { subst r1. unfold closeRound, checkAndAdvanceRound.
    destruct (isRoundComplete r); [|split_and!; try done; lia].
    destruct (length (List.filter inHand (players r)) <=? 1)%nat; cbn;
      split_and!; try done; lia. }
  destruct H1 as (Hh & Hd & Hhp & Hsc & Hrd & Hgs & Htp).
  destruct (isHandFinished r1); cbn [theRoom timers].
  2: { rewrite Hh, Hd, Hhp, Hsc, Hgs, Htp. split_and!; try done; try lia. by left. }
  unfold resolveHand, afterHandEnded.
  set (r2 := (if (length (activeSeats r1) =? 0)%nat then _ else _).1).
  assert (H2 : host r2 = host r1 ∧ dealerIndex r2 = dealerIndex r1
               ∧ handsPlayed r2 = handsPlayed r1
               ∧ startingPlayerCount r2 = startingPlayerCount r1
               ∧ currentRound r2 = currentRound r1
               ∧ gameState r2 = gameState r1
               ∧ tournamentPlayers r2 = tournamentPlayers r1).
  { subst r2. by destruct (length (activeSeats r1) =? 0)%nat. }
  destruct H2 as (Hh2 & Hd2 & Hhp2 & Hsc2 & Hrd2 & Hgs2 & Htp2).
  assert (Hsub : ∀ i, i ∈ tournamentPlayers (pruneRoster (pruneRoster r2)) →
                      i ∈ tournamentPlayers r).
  { intros i Hi%pruneRoster_elem. destruct Hi as [Hi%pruneRoster_elem _].
    destruct Hi as [Hi _]. by rewrite <- Htp, <- Htp2. }
  destruct (tournamentEnded (pruneRoster (pruneRoster r2))); cbn;
    rewrite ?Hh2, ?Hd2, ?Hhp2, ?Hsc2, ?Hrd2, ?Hgs2, ?Hh, ?Hd, ?Hhp, ?Hsc, ?Hgs;
    split_and!; try done; try lia; auto.
Qed.

Lemma settle_keepsSeat (s : server) :
  Forall2 keepsSeat (players (theRoom s)) (players (theRoom (settle s))).
Proof.
  destruct (settle_frame s) as (Hps & _).
  eapply Forall2_impl; [exact Hps|].
  intros p p' (?&?&?&Hv&Hf&_&Ha&_). unfold keepsSeat.
  split_and!; try done; congruence.
Qed.

(** An accepted action, split into its application and the closing. *)
Lemma handle_split (a : action) (s s' : server) :
  handle a s = Accepted s' →
  ∃ r1, applyAction a (theRoom s) = Accepted r1
        ∧ ((s' = settle (Server r1 (timers s)) ∧ ∀ sid, a ≠ ViewCards sid)
           ∨ (s' = Server r1 (timers s) ∧ ∃ sid, a = ViewCards sid)).
Proof.
  destruct a; cbn [handle applyAction];
    unfold on_place_bet, on_fold, on_all_in, on_view_cards, on_compare_cards,
           onRoom;
    (match goal with
     | |- context [match ?o with Rejected _ => _ | Accepted _ => _ end] =>
         destruct o as [|r1]; [done|]
     end);
    intros [= <-]; eexists; (split; [done|]); eauto.
Qed.

(** X10.  Turn enforcement: an action is accepted only from the player
    seated at [currentTurn], and, view-cards apart, only if that player has
    not folded. *)
Theorem only_the_turn_acts (a : action) (s s' : server) :
  handle a s = Accepted s' →
  ∃ (i : nat) (p : player),
    findPlayer (sender a) (players (theRoom s)) = Some (i, p)
    ∧ currentTurn (theRoom s) = Z.of_nat i
    ∧ (folded p = true → ∃ sid, a = ViewCards sid).
Proof.
  intros (r1 & E & _)%handle_split.
  by destruct (applyAction_frame _ _ _ E) as (H & _).
Qed.

Lemma inHandFrom_minBet (pick : nat → nat) (r0 : room) (n0 : nat)
      (charges : list Z) (s : server) :
  inHandFrom pick r0 n0 charges s → 100 <= minBet (theRoom s).
Proof.
  induction 1 as [|charges s s' a _ IH Ha].
  - cbn [theRoom]. destruct (startNewHand_fields pick r0) as (_ & _ & _ & -> & _).
    done.
  - destruct (handle_split _ _ _ Ha) as (r1 & E & Hs').
    destruct (applyAction_frame _ _ _ E) as (_ & _ & Hmin & _).
    destruct Hs' as [[-> _]|[-> _]]; [|cbn; lia].
    destruct (settle_frame (Server r1 (timers s))) as (_ & _ & ->). cbn. lia.
Qed.

Lemma anteAll_nonneg (ps : list player) (pt : Z) (d : list card) :
  Forall (λ p, 0 <= money p) ps →
  Forall (λ p, 0 <= money p) (anteAll ps pt d).1.1.
Proof.
  intros Hps. revert pt d. induction Hps as [|p ps Hp _ IH]; intros pt d;
    [constructor|].
  cbn [anteAll]. destruct (anteUp p pt d) as [[p' pt'] d'] eqn:E1.
  specialize (IH pt' d'). destruct (anteAll ps pt' d') as [[ps' pt''] d''].
  cbn [fst] in *. constructor; [|done].
  unfold anteUp in E1. cbn -[dealCards] in E1.
  destruct (dealCards 3 [] d). destruct (Z.ltb_spec 0 (money p));
    simplify_eq; cbn; lia.
Qed.

Lemma inHandFrom_nonneg (pick : nat → nat) (r0 : room) (n0 : nat)
      (charges : list Z) (s : server) :
  Forall (λ p, 0 <= money p) (players r0) →
  inHandFrom pick r0 n0 charges s →
  Forall (λ p, 0 <= money p) (players (theRoom s)).
Proof.
  intros H0. induction 1 as [|charges s s' a Hreach IH Ha].
  - destruct (startNewHand_fields pick r0) as (Hps & _). cbn. rewrite Hps.
    by apply anteAll_nonneg.
  - destruct (handle_split _ _ _ Ha) as (r1 & E & Hs').
    destruct (applyAction_frame _ _ _ E) as (_&_&_&_&_&_&_&_&_&_&HK).
    specialize (HK IH). destruct Hs' as [[-> _]|[-> _]]; [|done].
    destruct (inHandFrom_inv _ _ _ _ _ Hreach) as (Hinv & _).
    destruct (handle_pot _ _ _ Hinv Ha) as (_ & Hpot & Hch).
    destruct (settle_frame (Server r1 (timers s))) as (Hps & Hpot1 & _).
    cbn in Hps, Hpot1. rewrite Hpot1 in Hpot.
    assert (Hnn : 0 <= pot r1).
    { destruct Hinv as (Hsum & Hcb & _). rewrite Hpot, Hsum.
      pose proof (sumOver_nonneg _ _ Hcb). lia. }
    apply Forall_forall. intros p' Hp'.
    apply list_elem_of_lookup in Hp' as [i Hi].
    destruct (Forall2_lookup_r _ _ _ _ _ Hps Hi) as (p & Hp & Hst).
    destruct Hst as (_&_&_&_&_&_&_&_&Hle). specialize (Hle Hnn).
    pose proof (proj1 (Forall_lookup _ _) HK _ _ Hp). cbn in *. lia.
Qed.

(** On the integer engine: balances that are not negative when a hand
    starts stay so, and so do the stakes. *)
Lemma inHandFrom_balances (pick : nat → nat) (r0 : room) (n0 : nat)
        (charges : list Z) (s : server) :
  Forall (λ p, 0 <= money p) (players r0) →
  inHandFrom pick r0 n0 charges s →
  Forall (λ p, 0 <= money p) (players (theRoom s))
  ∧ Forall (λ p, 0 <= currentBet p) (players (theRoom s)).
Proof.
  intros H0 Hreach. split; [by eapply inHandFrom_nonneg|].
  by destruct (inHandFrom_inv _ _ _ _ _ Hreach) as ((_ & ? & _) & _).
Qed.

(** X13.  No accepted action reseats anyone or touches the cards: the
    number of seats, each seat's player and hand stay, a folded, viewed or
    all-in flag once set stays set, the host, the dealer and the hand
    counters stay, and the round moves on by at most one. *)
Theorem actions_keep_seats (a : action) (s s' : server) :
  handle a s = Accepted s' →
  Forall2 keepsSeat (players (theRoom s)) (players (theRoom s'))
  ∧ length (players (theRoom s')) = length (players (theRoom s))
  ∧ host (theRoom s') = host (theRoom s)
  ∧ dealerIndex (theRoom s') = dealerIndex (theRoom s)
  ∧ handsPlayed (theRoom s') = handsPlayed (theRoom s)
  ∧ startingPlayerCount (theRoom s') = startingPlayerCount (theRoom s)
  ∧ currentRound (theRoom s) <= currentRound (theRoom s')
      <= currentRound (theRoom s) + 1.
Proof.
  intros Ha. destruct (handle_split _ _ _ Ha) as (r1 & E & Hs').
  destruct (applyAction_frame _ _ _ E)
    as (_ & Hk & _ & Hh & Hd & Hrd & _ & _ & Hhp & Hsc & _).
  assert (H : Forall2 keepsSeat (players (theRoom s)) (players (theRoom s'))
              ∧ host (theRoom s') = host (theRoom s)
              ∧ dealerIndex (theRoom s') = dealerIndex (theRoom s)
              ∧ handsPlayed (theRoom s') = handsPlayed (theRoom s)
              ∧ startingPlayerCount (theRoom s') = startingPlayerCount (theRoom s)
              ∧ currentRound (theRoom s) <= currentRound (theRoom s')
                  <= currentRound (theRoom s) + 1).
  { destruct Hs' as [[-> _]|[-> _]]; [|cbn; split_and!; try done; lia].
    destruct (settle_fields (Server r1 (timers s)))
      as (Hh' & Hd' & Hhp' & Hsc' & Hrd' & _).
    cbn in Hh', Hd', Hhp', Hsc', Hrd'.
    split_and!; try congruence; try lia.
    eapply Forall2_keepsSeat_trans; [exact Hk|].
    apply (settle_keepsSeat (Server r1 (timers s))). }
  destruct H as (H1 & H2 & H3 & H4 & H5 & H6).
  split_and!; try done; try lia. symmetry. by eapply Forall2_length.
Qed.

(** X14.  An accepted action can only shrink the tournament roster, leaves
    the phase as it is or ends the tournament, and schedules at most one
    next-hand timer. *)
Theorem actions_shrink_roster (a : action) (s s' : server) :
  handle a s = Accepted s' →
  (∀ i, i ∈ tournamentPlayers (theRoom s') → i ∈ tournamentPlayers (theRoom s))
  ∧ (gameState (theRoom s') = gameState (theRoom s)
     ∨ gameState (theRoom s') = Ended)
  ∧ (timers s ≤ timers s' ≤ S (timers s))%nat.
Proof.
  intros Ha. destruct (handle_split _ _ _ Ha) as (r1 & E & Hs').
  destruct (applyAction_frame _ _ _ E)
    as (_ & _ & _ & _ & _ & _ & Hgs & Htp & _).
  destruct Hs' as [[-> _]|[-> _]].
  - destruct (settle_fields (Server r1 (timers s)))
      as (_ & _ & _ & _ & _ & Hgs' & Htp' & Ht').
    cbn [theRoom timers] in Hgs', Htp', Ht'. rewrite <- Hgs, <- Htp.
    split_and!; [done|done|apply Ht'..].
  - cbn. rewrite Hgs, Htp. split_and!; try done; try lia. by left.
Qed.

(** ** What a resolution pays *)

Lemma sumOver_addMoney (x : Z) (i : nat) (l : list player) :
  (i < length l)%nat →
  sumOver money (alter (addMoney x) i l) = sumOver money l + x.
Proof.
  revert i. induction l as [|p l IH]; intros [|i] Hi; cbn in Hi; try lia.
  - change (alter (addMoney x) 0%nat (p :: l)) with (addMoney x p :: l).
    rewrite !sumOver_cons. cbn. lia.
  - change (alter (addMoney x) (S i) (p :: l)) with (p :: alter (addMoney x) i l).
    rewrite !sumOver_cons, IH by lia. lia.
Qed.

Lemma payEach_sum (x : Z) (ws : list (nat * player)) (ps : list player) :
  Forall (λ w, (w.1 < length ps)%nat) ws →
  sumOver money (foldl (λ acc w, alter (addMoney x) w.1 acc) ps ws)
  = sumOver money ps + x * Z.of_nat (length ws).
Proof.
  intros Hws. revert ps Hws. induction ws as [|w ws IH]; intros ps Hws.
  { cbn. lia. }
  apply Forall_cons in Hws as [Hw Hws]. cbn [foldl length].
  rewrite IH.
  - rewrite sumOver_addMoney by done. lia.
  - eapply Forall_impl; [exact Hws|]. intros v Hv. by rewrite length_alter.
Qed.

Lemma resolveWinners_seats (r : room) (w : nat * player) :
  w ∈ resolveWinners r → players r !! w.1 = Some w.2 ∧ inHand w.2 = true.
Proof.
  unfold resolveWinners. destruct (length (activeSeats r) =? 0)%nat.
  - by intros ?%elem_of_nil.
  - intros Hw%winnersOf_sub. by apply activeSeats_elem.
Qed.

(** X15.  What [resolveHand] pays.  With [N] winners the balances grow in
    total by [N * floor(pot / N)] (by the whole pot for one winner, by
    nothing when there is none): never more than the pot, the remainder of
    the division being paid to nobody.  The winners are players still in
    the hand, the others keep their balance, and the pot itself is left as
    it was, not cleared. *)
Theorem resolveHand_payout (r : room) :
  let N := Z.of_nat (length (resolveWinners r)) in
  sumOver money (players (resolveHand r).1)
  = sumOver money (players r) + N * (pot r `div` N)
  ∧ (N = 1 → sumOver money (players (resolveHand r).1)
             = sumOver money (players r) + pot r)
  ∧ (0 <= pot r →
     sumOver money (players r) <= sumOver money (players (resolveHand r).1)
       <= sumOver money (players r) + pot r)
  ∧ (∀ w, w ∈ resolveWinners r →
          players r !! w.1 = Some w.2 ∧ inHand w.2 = true)
  ∧ (∀ i p, players r !! i = Some p → inHand p = false →
            ∃ p', players (resolveHand r).1 !! i = Some p' ∧ money p' = money p)
  ∧ pot (resolveHand r).1 = pot r.
Proof.
  intros N.
  assert (Hsum : sumOver money (players (resolveHand r).1)
                 = sumOver money (players r) + N * (pot r `div` N)).
  { subst N. unfold resolveHand, resolveWinners.
    destruct (length (activeSeats r) =? 0)%nat eqn:E0; cbn; [lia|].
    assert (Hvalid : Forall (λ w, (w.1 < length (players r))%nat)
                            (winnersOf (activeSeats r))).
    { apply Forall_forall. intros w Hw%winnersOf_sub.
      apply activeSeats_elem in Hw as [Hw _]. by eapply lookup_lt_Some. }
    unfold payWinners.
    destruct (Nat.ltb_spec 1 (length (winnersOf (activeSeats r)))) as [Hlt|Hle].
    { rewrite payEach_sum by done. lia. }
    destruct (Nat.eqb_spec (length (winnersOf (activeSeats r))) 1) as [E1|E1].
    - rewrite E1. change (Z.of_nat 1) with 1. rewrite Z.div_1_r.
      destruct (winnersOf (activeSeats r)) as [|w [|? ?]] eqn:Ew; try done.
      cbn. apply Forall_cons in Hvalid as [Hw _].
      rewrite sumOver_addMoney by done. lia.
    - assert (length (winnersOf (activeSeats r)) = 0%nat) as -> by lia. cbn. lia. }
  destruct (resolveHand_frame r) as (Hps & Hpot & _).
  split_and!; try done.
  - intros HN. rewrite Hsum, HN, Z.div_1_r. lia.
  - intros Hp. rewrite Hsum.
    destruct (Z.eq_dec N 0) as [HN|HN]; [rewrite HN; lia|].
    assert (0 < N) by lia.
    pose proof (Z.mul_div_le (pot r) N).
    pose proof (Z.div_pos (pot r) N). nia.
  - apply resolveWinners_seats.
  - intros i p Hi Hout.
    destruct (Forall2_lookup_l _ _ _ _ _ Hps Hi) as (p' & Hi' & Hst).
    destruct Hst as (_&_&_&_&_&_&_&Hm&_). eauto.
Qed.


(** ** The turn stays on a player who can act *)

Lemma canAct_inHand (p : player) : canAct p = true → inHand p = true.
Proof.
  unfold canAct, inHand. intros H. apply andb_true_iff in H as [H _]. exact H.
Qed.

Lemma inHand_canAct (p : player) :
  (allIn p = true → money p = 0) → inHand p = true → canAct p = true.
Proof.
  unfold canAct, inHand. intros Hb H. rewrite H. cbn.
  destruct (allIn p); [|done].
  apply andb_true_iff in H as [_ Hm]. apply Z.ltb_lt in Hm.
  specialize (Hb eq_refl). lia.
Qed.

Lemma firstAfter_turnOk (el : player → bool) (r : room) (from : Z) :
  firstAfter el (players r) from (currentTurn r) →
  (∀ p, p ∈ players r → el p = true → canAct p = true) →
  (∀ p, canAct p = true → el p = true) →
  turnOk r.
Proof.
  intros [[Hres Hnone]|(k & Hk & Hres & (p & Hp & Hel) & _)] Hin Hout.
  - left. split; [done|]. eapply Forall_impl; [exact Hnone|].
    intros p Hp. cbn in Hp. destruct (canAct p) eqn:E; [|done].
    apply Hout in E. congruence.
  - right. exists (Z.to_nat (currentTurn r)), p.
    assert (0 <= currentTurn r).
    { rewrite Hres. apply Z.mod_pos_bound. lia. }
    split_and!; [lia|done|].
    apply Hin; [|done]. by eapply list_elem_of_lookup_2.
Qed.

Lemma getNext_turnOk (r : room) (i : nat) :
  currentTurn r = getNextActivePlayerIndex r (Z.of_nat i) → turnOk r.
Proof.
  intros E. apply (firstAfter_turnOk canAct r (Z.of_nat i)); [|done..].
  rewrite E. apply getNext_firstAfter. lia.
Qed.

Lemma getFirst_turnOk (r : room) :
  allInBroke r → -1 <= dealerIndex r →
  currentTurn r = getFirstPlayerAfterDealer r → turnOk r.
Proof.
  intros Hb Hd E. apply (firstAfter_turnOk inHand r (dealerIndex r)).
  - rewrite E. by apply getFirst_firstAfter.
  - intros p Hp. apply inHand_canAct.
    exact (proj1 (Forall_forall _ _) Hb p Hp).
  - apply canAct_inHand.
Qed.

Lemma rem_nonneg (a b : Z) : 0 <= a → 0 <= b → 0 <= Z.rem a b.
Proof.
  intros Ha Hb. destruct (Z.eq_dec b 0) as [->|Hne].
  - by destruct a.
  - apply Z.rem_nonneg; lia.
Qed.

Lemma turnOk_start (pick : nat → nat) (r : room) :
  -1 <= dealerIndex r →
  turnOk (startNewHand pick r) ∧ -1 <= dealerIndex (startNewHand pick r).
Proof.
  intros Hd.
  assert (Hd' : -1 <= dealerIndex (startNewHand pick r)).
  { destruct (startNewHand_fields pick r) as (_ & _ & -> & _).
    pose proof (rem_nonneg (dealerIndex r + 1)
      (Z.of_nat (length (anteAll (players r) 0 (shuffleDeck pick createDeck)).1.1))).
    lia. }
  split; [|done].
  apply getFirst_turnOk; [apply allInBroke_start|done|].
  unfold startNewHand.
  by destruct (anteAll (players r) 0 (shuffleDeck pick createDeck)) as [[ps pt] d].
Qed.

Lemma applyAction_turn (a : action) (r r1 : room) :
  applyAction a r = Accepted r1 →
  (∃ i : nat, currentTurn r1 = getNextActivePlayerIndex r1 (Z.of_nat i))
  ∨ (∃ (i : nat) (p : player),
       currentTurn r = Z.of_nat i ∧ players r !! i = Some p
       ∧ currentTurn r1 = currentTurn r
       ∧ players r1 = <[i := set_viewedCards true p]> (players r)).
Proof.
  intros E. destruct a as [sid D|sid|sid|sid|sid target]; cbn [applyAction] in E.
  - unfold apply_place_bet in E.
    destruct (findPlayer sid (players r)) as [[i p]|] eqn:Hfind; [|done].
    destruct (folded p); [done|].
    destruct (negb (currentTurn r =? Z.of_nat i)); [done|].
    destruct (D <? minBet r); [done|].
    destruct (money p <? (if viewedCards p then D else D `div` 2)); [done|].
    injection E as <-. left. exists i. reflexivity.
  - unfold apply_fold in E.
    destruct (findPlayer sid (players r)) as [[i p]|] eqn:Hfind; [|done].
    destruct (folded p); [done|].
    destruct (negb (currentTurn r =? Z.of_nat i)); [done|].
    injection E as <-. left. exists i. reflexivity.
  - unfold apply_all_in in E.
    destruct (findPlayer sid (players r)) as [[i p]|] eqn:Hfind; [|done].
    destruct (folded p); [done|].
    destruct (allIn p); [done|].
    destruct (negb (currentTurn r =? Z.of_nat i)); [done|].
    injection E as <-. left. exists i. reflexivity.
  - unfold apply_view_cards in E.
    destruct (findPlayer sid (players r)) as [[i p]|] eqn:Hfind; [|done].
    destruct (findPlayer_lookup _ _ _ _ Hfind) as [Hi _].
    destruct (viewedCards p); [done|].
    destruct (Z.eqb_spec (currentTurn r) (Z.of_nat i)) as [Hturn|]; [|done].
    injection E as <-. right. exists i, p. by split_and!.
  - unfold apply_compare_cards in E.
    destruct (findPlayer sid (players r)) as [[i p]|] eqn:Hfind; [|done].
    destruct (findPlayer target (players r)) as [[j q]|]; [|done].
    destruct (folded p || folded q); [done|].
    destruct (currentRound r <? 2); [done|].
    destruct (negb (currentTurn r =? Z.of_nat i)); [done|].
    destruct (currentBet p <? requiredActual p r); [done|].
    injection E as <-. left. exists i. reflexivity.
Qed.

Lemma turnOk_applyAction (a : action) (r r1 : room) :
  turnOk r → applyAction a r = Accepted r1 → turnOk r1.
Proof.
  intros Hok [[i E]|(i & p & Hturn & Hi & Hturn' & Hps)]%applyAction_turn.
  { by eapply getNext_turnOk. }
  destruct Hok as [[Hnone _]|(i' & p' & Hi' & Hp' & Hact)]; [lia|].
  assert (i' = i) as -> by lia.
  assert (p' = p) as -> by congruence.
  right. exists i, (set_viewedCards true p). split_and!.
  - congruence.
  - rewrite Hps. apply list_lookup_insert_eq. by eapply lookup_lt_Some.
  - exact Hact.
Qed.

Lemma turnOk_closeRound (r : room) :
  turnOk r → allInBroke r → -1 <= dealerIndex r → turnOk (closeRound r).
Proof.
  intros Hok Hb Hd. unfold closeRound.
  destruct (isRoundComplete r); [|done].
  unfold checkAndAdvanceRound.
  destruct (length (List.filter inHand (players r)) <=? 1)%nat; [done|].
  cbn [fst]. apply getFirst_turnOk; [|done|reflexivity].
  unfold allInBroke. cbn. apply Forall_fmap.
  eapply Forall_impl; [exact Hb|]. by intros p Hp.
Qed.

Lemma settled_canAct (pt : Z) (p p' : player) :
  0 <= pt → (allIn p = true → money p = 0) → settled pt p p' →
  canAct p' = canAct p.
Proof.
  intros Hpt Hb (_&_&_&_&Hf&_&Ha&Hout&Hin).
  unfold canAct. rewrite Hf, Ha.
  destruct (inHand p) eqn:E.
  - unfold inHand in E. apply andb_true_iff in E as [_ Hm].
    rewrite Hm. apply Z.ltb_lt in Hm. specialize (Hin Hpt).
    by replace (0 <? money p') with true by (symmetry; apply Z.ltb_lt; lia).
  - by rewrite Hout.
Qed.

Lemma turnOk_settled (pt : Z) (r r' : room) :
  turnOk r → 0 <= pt → allInBroke r →
  Forall2 (settled pt) (players r) (players r') →
  currentTurn r' = currentTurn r → turnOk r'.
Proof.
  intros Hok Hpt Hb Hps Hturn.
  destruct Hok as [[Hnone Hall]|(i & p & Hi & Hp & Hact)].
  - left. split; [congruence|]. apply Forall_lookup. intros i p' Hp'.
    destruct (Forall2_lookup_r _ _ _ _ _ Hps Hp') as (p & Hp & Hst).
    rewrite (settled_canAct pt p p'); [|done| |done].
    + exact (proj1 (Forall_lookup _ _) Hall _ _ Hp).
    + exact (proj1 (Forall_lookup _ _) Hb _ _ Hp).
  - right. destruct (Forall2_lookup_l _ _ _ _ _ Hps Hp) as (p' & Hp' & Hst).
    exists i, p'. split_and!; [congruence|done|].
    rewrite (settled_canAct pt p p'); [done|done| |done].
    exact (proj1 (Forall_lookup _ _) Hb _ _ Hp).
Qed.

Lemma closeHand_turn (s : server) :
  Forall2 (settled (pot (theRoom s))) (players (theRoom s))
          (players (theRoom (closeHand s)))
  ∧ currentTurn (theRoom (closeHand s)) = currentTurn (theRoom s).
Proof.
  unfold closeHand. destruct (isHandFinished (theRoom s)).
  2: { split; [apply Forall2_settled_refl|done]. }
  destruct (resolveHand_frame (theRoom s)) as (Hps & _).
  assert (Hturn : currentTurn (resolveHand (theRoom s)).1 = currentTurn (theRoom s)).
  { unfold resolveHand. by destruct (length (activeSeats (theRoom s)) =? 0)%nat. }
  set (r2 := pruneRoster (resolveHand (theRoom s)).1).
  pose proof (afterHandEnded_frame r2) as (Hps3 & _).
  assert (Hturn3 : currentTurn (afterHandEnded r2).1.1 = currentTurn r2).
  { unfold afterHandEnded. by destruct (tournamentEnded (pruneRoster r2)). }
  destruct (afterHandEnded r2) as [[r3 eff] b]. cbn in *.
  rewrite Hps3, Hturn3. by split.
Qed.

Lemma inHandFrom_turnOk (pick : nat → nat) (r0 : room) (n0 : nat)
      (charges : list Z) (s : server) :
  -1 <= dealerIndex r0 →
  inHandFrom pick r0 n0 charges s →
  turnOk (theRoom s) ∧ -1 <= dealerIndex (theRoom s).
Proof.
  intros Hd Hreach. induction Hreach as [|charges s s' a Hreach [IHok IHd] Ha].
  { by apply turnOk_start. }
  destruct (inHandFrom_allInBroke _ _ _ _ _ Hreach) as [Hinv Hb].
  destruct (handle_pot _ _ _ Hinv Ha) as ((Hpot' & Hbets' & _) & _).
  destruct (handle_split _ _ _ Ha) as (r1 & E & Hs').
  pose proof (turnOk_applyAction _ _ _ IHok E) as Hok1.
  pose proof (allInBroke_applyAction _ _ _ Hinv Hb E) as Hb1.
  destruct (applyAction_frame _ _ _ E) as (_ & _ & _ & _ & Hd1 & _).
  destruct Hs' as [[-> _]|[-> _]]; [|cbn [theRoom]; split; [done|lia]].
  destruct (settle_fields (Server r1 (timers s))) as (_ & Hds & _).
  destruct (settle_frame (Server r1 (timers s))) as (_ & Hpots & _).
  cbn [theRoom] in Hds, Hpots. split; [|lia].
  assert (Hnn : 0 <= pot r1).
  { rewrite <- Hpots, Hpot'. by apply sumOver_nonneg. }
  unfold settle. cbn [theRoom timers].
  destruct (closeHand_turn (Server (closeRound r1) (timers s))) as [Hps Hturn].
  cbn [theRoom] in Hps, Hturn.
  assert (Hpotc : pot (closeRound r1) = pot r1).
  { unfold closeRound. destruct (isRoundComplete r1); [|done].
    by destruct (checkAndAdvanceRound_frame 0 r1) as (_ & -> & _). }
  eapply turnOk_settled; [|rewrite <- Hpotc in Hnn; exact Hnn| |exact Hps|exact Hturn].
  - apply turnOk_closeRound; [done|done|lia].
  - by apply allInBroke_closeRound.
Qed.

(** On the integer engine: throughout a hand the turn is well placed, and
    every accepted action comes from a player who can act. *)
Lemma inHandFrom_actor (pick : nat → nat) (r0 : room) (n0 : nat)
        (charges : list Z) (s : server) :
  -1 <= dealerIndex r0 →
  inHandFrom pick r0 n0 charges s →
  turnOk (theRoom s)
  ∧ ∀ a s', handle a s = Accepted s' →
      ∃ (i : nat) (p : player),
        findPlayer (sender a) (players (theRoom s)) = Some (i, p)
        ∧ folded p = false ∧ 0 < money p ∧ allIn p = false.
Proof.
  intros Hd Hreach.
  destruct (inHandFrom_turnOk _ _ _ _ _ Hd Hreach) as [Hok _].
  split; [done|]. intros a s' Ha.
  destruct (handle_split _ _ _ Ha) as (r1 & E & _).
  destruct (applyAction_frame _ _ _ E) as ((i & p & Hfind & Hturn & _) & _).
  exists i, p. split; [done|].
  destruct (findPlayer_lookup _ _ _ _ Hfind) as [Hi _].
  destruct Hok as [[Hnone _]|(i' & p' & Hi' & Hp' & Hact)]; [lia|].
  assert (i' = i) as -> by lia.
  assert (p' = p) as -> by congruence.
  unfold canAct in Hact.
  apply andb_true_iff in Hact as [[Hf Hm]%andb_true_iff Hall].
  apply Z.ltb_lt in Hm.
  split_and!; [by destruct (folded p)|done|by destruct (allIn p)].
Qed.

(** ** The best hand takes part in the win *)

Section SortPreorder.
Context {A : Type} (cmp : A → A → Z) (P : A → Prop).
Context (Htotal : ∀ a b, P a → P b → ¬ cmp a b <= 0 → cmp b a <= 0).
Context (Htrans : ∀ a b c, P a → P b → P c →
                           cmp a b <= 0 → cmp b c <= 0 → cmp a c <= 0).

Lemma insertBy_sorted_pre (x : A) (l : list A) :
  P x → Forall P l →
  StronglySorted (λ a b, cmp a b <= 0) l →
  StronglySorted (λ a b, cmp a b <= 0) (insertBy cmp x l).
Proof.
  intros Hx Hl Hs. induction Hs as [|y l Hs IH Hy]; cbn [insertBy].
  { repeat constructor. }
  apply Forall_cons in Hl as [HPy Hl].
  destruct (Z.leb_spec (cmp x y) 0) as [Hle|Hgt].
  - constructor; [by constructor|].
    constructor; [done|]. apply Forall_forall. intros z Hz.
    apply (Htrans x y z); [done|done| |done|].
    + exact (proj1 (Forall_forall _ _) Hl z Hz).
    + exact (proj1 (Forall_forall _ _) Hy z Hz).
  - constructor; [by apply IH|].
    rewrite insertBy_perm. constructor; [|done].
    apply Htotal; [done|done|lia].
Qed.

Lemma sortBy_sorted_pre (l : list A) :
  Forall P l → StronglySorted (λ a b, cmp a b <= 0) (sortBy cmp l).
Proof.
  induction l as [|x l IH]; intros Hl; [constructor|].
  apply Forall_cons in Hl as [Hx Hl].
  cbn [sortBy foldr]. apply insertBy_sorted_pre; [done| |by apply IH].
  fold (sortBy cmp l). by rewrite sortBy_perm.
Qed.
End SortPreorder.

(** X18.  When the players still in the hand hold three cards each,
    [resolveHand] never leaves the best hand out: the first winner holds a
    hand that no contender's hand beats under [compareHands], and every
    winner's hand has the value of that hand. *)
Theorem best_hand_wins (r : room) :
  Forall (λ p, inHand p = true → length (hand p) = 3%nat) (players r) →
  activeSeats r ≠ [] →
  ∃ w : nat * player,
    resolveWinners r !! 0%nat = Some w
    ∧ (∀ c, c ∈ activeSeats r →
            compareHands (evaluateHand (hand c.2)) (evaluateHand (hand w.2)) <= 0)
    ∧ (∀ w', w' ∈ resolveWinners r →
             hvalue (evaluateHand (hand w'.2)) = hvalue (evaluateHand (hand w.2))).
Proof.
  intros Hcards Hne. unfold resolveWinners.
  destruct (activeSeats r) as [|c0 rest] eqn:Ha; [done|]. cbn [length Nat.eqb].
  assert (Hnum : ∀ c, c ∈ c0 :: rest →
                      ∃ v, hvalue (evaluateHand (hand c.2)) = Num v).
  { intros c Hc. rewrite <- Ha in Hc. apply activeSeats_elem in Hc as [Hc Hin].
    apply evaluateHand_num.
    apply (proj1 (Forall_forall _ _) Hcards c.2); [|done].
    by eapply list_elem_of_lookup_2. }
  unfold winnersOf. destruct rest as [|c1 rest]; cbn [length Nat.eqb].
  { exists c0. split_and!; [done| |].
    - intros c ->%list_elem_of_singleton. by rewrite compareHands_refl.
    - by intros w' ->%list_elem_of_singleton. }
  set (active := c0 :: c1 :: rest) in *.
  set (cmp := λ a b : nat * player * handEval, compareHands b.2 a.2).
  set (evaluated := (λ e, (e, evaluateHand (hand e.2))) <$> active).
  assert (Hev : ∀ e, e ∈ evaluated →
                     e.1 ∈ active ∧ e.2 = evaluateHand (hand e.1.2)).
  { intros e (c & -> & Hc)%list_elem_of_fmap. by split. }
  assert (HP : Forall (λ e : nat * player * handEval, ∃ v, hvalue e.2 = Num v)
                      evaluated).
  { apply Forall_forall. intros e [Hc He]%Hev. rewrite He. by apply Hnum. }
  assert (Hsorted : StronglySorted (λ a b, cmp a b <= 0) (sortBy cmp evaluated)).
  { apply (sortBy_sorted_pre cmp (λ e, ∃ v, hvalue e.2 = Num v)); [| |done].
    - intros a b [va Hva] [vb Hvb] Hab. unfold cmp in *. cbn beta in *.
      pose proof (compareHands_antisym _ _ _ _ Hva Hvb). lia.
    - intros a b c [va Hva] [vb Hvb] [vc Hvc] Hab Hbc. unfold cmp in *.
      cbn beta in *.
      pose proof (compareHands_antisym _ _ _ _ Hva Hvb).
      pose proof (compareHands_antisym _ _ _ _ Hvb Hvc).
      pose proof (compareHands_antisym _ _ _ _ Hva Hvc).
      pose proof (compareHands_trans _ _ _ _ _ _ Hva Hvb Hvc). lia. }
  pose proof (sortBy_perm cmp evaluated) as Hperm.
  destruct (sortBy cmp evaluated) as [|x sorted] eqn:Hs.
  { apply Permutation_nil_l in Hperm. done. }
  assert (Hx : x ∈ evaluated) by (rewrite <- Hperm; left).
  destruct (Hev x Hx) as [Hxa Hxe].
  destruct (proj1 (Forall_forall _ _) HP x Hx) as [vx Hvx].
  cbn [lookup list_lookup from_option].
  assert (Hself : num_eqb (hvalue x.2) (hvalue x.2) = true).
  { rewrite Hvx. cbn. apply Z.eqb_refl. }
  exists x.1. split_and!.
  - cbn [List.filter]. by rewrite Hself.
  - intros c Hc.
    assert (Hce : (c, evaluateHand (hand c.2)) ∈ x :: sorted).
    { rewrite Hperm. apply list_elem_of_fmap. by exists c. }
    rewrite <- Hxe.
    apply elem_of_cons in Hce as [Hce | Hce].
    + rewrite <- Hce. cbn. by rewrite compareHands_refl.
    + apply StronglySorted_inv in Hsorted as [_ Hhead].
      exact (proj1 (Forall_forall _ _) Hhead _ Hce).
  - intros w' (e & -> & He)%list_elem_of_fmap.
    apply list_elem_of_In, filter_In in He as [He Heq].
    apply list_elem_of_In in He.
    assert (Hee : e ∈ evaluated) by (by rewrite <- Hperm).
    destruct (Hev e Hee) as [_ <-]. rewrite <- Hxe.
    unfold num_eqb in Heq.
    destruct (hvalue e.2) as [ve|], (hvalue x.2) as [vx'|]; try done.
    apply Z.eqb_eq in Heq. by subst.
Qed.

(** ** The tests for the end of a round and of a hand *)

Lemma forallb_filter {A} (f g : A → bool) (l : list A) :
  forallb f (List.filter g l) = true
  ↔ Forall (λ x, g x = true → f x = true) l.
Proof.
  induction l as [|x l IH]; cbn.
  { split; [constructor|done]. }
  rewrite Forall_cons. destruct (g x) eqn:Hg; cbn.
  - rewrite andb_true_iff, IH. split; intros [? ?]; split; auto.
  - rewrite IH. split; [intros ?; split; [done|done]|by intros [_ ?]].
Qed.

Lemma filter_nil_iff {A} (f : A → bool) (l : list A) :
  List.filter f l = [] ↔ Forall (λ x, f x = false) l.
Proof.
  induction l as [|x l IH]; cbn.
  { split; [constructor|done]. }
  rewrite Forall_cons. destruct (f x); [|rewrite IH]; split; try done.
  - by intros [? _].
  - by intros [_ ?].
Qed.

(** X19.  What the two tests decide.  [isRoundComplete] holds exactly when
    every player who can act has acted in the round (the special case of
    nobody able to act is covered by that).  [isHandFinished] holds exactly
    when at most one player is left in the hand, or all of those left are
    all-in. *)
Theorem completion_tests (r : room) :
  (isRoundComplete r = true
   ↔ Forall (λ p, canAct p = true → actedThisRound p = true) (players r))
  ∧ (isHandFinished r = true
     ↔ (length (List.filter inHand (players r)) ≤ 1)%nat
       ∨ Forall (λ p, inHand p = true → allIn p = true) (players r)).
Proof.
  split.
  - unfold isRoundComplete. rewrite <- forallb_filter.
    destruct (List.filter canAct (players r)); [done|].
    by cbn [length Nat.eqb].
  - unfold isHandFinished.
    destruct (Nat.leb_spec (length (List.filter inHand (players r))) 1) as [Hle|Hgt].
    { split; [by left|done]. }
    rewrite Nat.eqb_eq, length_zero_iff_nil, filter_nil_iff.
    split.
    + intros H. right. apply Forall_forall. intros p Hp Hin.
      assert (Hpa : p ∈ List.filter inHand (players r)).
      { apply list_elem_of_In, filter_In. by rewrite <- list_elem_of_In. }
      pose proof (proj1 (Forall_forall _ _) H p Hpa) as Hh. cbn in Hh.
      unfold inHand in Hin. apply andb_true_iff in Hin as [_ Hm].
      rewrite Hm, andb_true_r in Hh. by destruct (allIn p).
    + intros [Hle|Hall]; [lia|]. apply Forall_forall. intros p Hp.
      apply list_elem_of_In, filter_In in Hp as [Hp Hin].
      apply list_elem_of_In in Hp.
      by rewrite (proj1 (Forall_forall _ _) Hall p Hp Hin).
Qed.

(** ** A disconnection in the middle of a hand *)




(** ** From the lobby to the first hand *)

Lemma join_room_inv (trim lower : string → string) (sid nm : string) (r r' : room) :
  join_room trim lower sid nm r = inr r' →
  gameState r = Waiting ∧ (length (players r) < 8)%nat
  ∧ Forall (λ p, lower (name p) ≠ lower (trim nm)) (players r)
  ∧ r' = seatPlayer sid (trim nm) r.
Proof.
  unfold join_room, isWaiting. intros E.
  destruct (bool_decide (nm = EmptyString)); [done|].
  destruct (gameState r) eqn:Hgs; try done. cbn [negb] in E.
  destruct (Nat.leb_spec 8 (length (players r))) as [|Hlen]; [done|].
  destruct (existsb _ (players r)) eqn:Hex; [done|].
  injection E as <-. split_and!; [done|done| |done].
  apply Forall_forall. intros p Hp Heq.
  assert (Ht : existsb (λ p, bool_decide (lower (name p) = lower (trim nm)))
                       (players r) = true).
  { apply existsb_exists. exists p. split; [by apply list_elem_of_In|].
    by apply bool_decide_eq_true_2. }
  congruence.
Qed.

(** X21.  The rooms of the lobby.  A room built by create-room and joined
    any number of times is waiting, has between one and eight seats, no two
    of them with names equal up to case, every player with 10000 and
    nothing staked; its dealer index is -1 and its first seat is the
    host's. *)
Theorem lobby_invariant (trim lower : string → string) (r : room) :
  lobby trim lower r →
  gameState r = Waiting
  ∧ (1 ≤ length (players r) ≤ 8)%nat
  ∧ NoDup ((λ p, lower (name p)) <$> players r)
  ∧ Forall (λ p, money p = 10000 ∧ hand p = [] ∧ currentBet p = 0
                 ∧ folded p = false ∧ allIn p = false) (players r)
  ∧ dealerIndex r = -1 ∧ pot r = 0 ∧ minBet r = 100
  ∧ (∃ p, players r !! 0%nat = Some p ∧ id p = host r).
Proof.
  induction 1 as [sid nm r E|sid nm r r' _ IH E].
  - unfold create_room in E.
    destruct (bool_decide (trim nm = EmptyString)); [done|].
    injection E as <-. cbn.
    split_and!; try done; try lia.
    + apply NoDup_singleton.
    + by repeat constructor.
    + by eexists.
  - destruct IH as (Hgs & [Hlo Hhi] & Hnd & Hall & Hd & Hpot & Hmin & p0 & Hp0 & Hid).
    apply join_room_inv in E as (_ & Hlen & Hfresh & ->). cbn.
    rewrite length_app, fmap_app. cbn [length fmap list_fmap].
    split_and!; try done; try lia.
    + apply NoDup_app. split_and!; [done| |apply NoDup_singleton].
      intros x (p & -> & Hp)%list_elem_of_fmap Heq%list_elem_of_singleton.
      exact (proj1 (Forall_forall _ _) Hfresh p Hp Heq).
    + apply Forall_app. split; [done|]. by repeat constructor.
    + exists p0. split; [|done]. by apply lookup_app_l_Some.
Qed.


Lemma lobby_stakes (trim lower : string → string) (r : room) :
  lobby trim lower r →
  (length (players r) ≤ 8)%nat
  ∧ Forall (λ p, money p = 10000) (players r) ∧ dealerIndex r = -1.
Proof.
  induction 1 as [sid nm r E|sid nm r r' _ (IH0 & IH1 & IH2) E].
  - unfold create_room in E.
    destruct (bool_decide (trim nm = EmptyString)); [done|].
    injection E as <-. cbn. split_and!; [lia|by repeat constructor|done].
  - apply join_room_inv in E as (_ & Hlen & _ & ->). cbn.
    rewrite length_app. cbn [length].
    split_and!; [lia| |done]. apply Forall_app. split; [done|].
    by repeat constructor.
Qed.

Lemma startNewHand_turn (pick : nat → nat) (r : room) :
  currentTurn (startNewHand pick r) = getFirstPlayerAfterDealer (startNewHand pick r).
Proof.
  unfold startNewHand.
  by destruct (anteAll (players r) 0 (shuffleDeck pick createDeck)) as [[ps pt] d].
Qed.

Lemma sumOver_antes_full (ps : list player) :
  Forall (λ p, money p = 10000) ps →
  sumOver anteOf (List.filter (λ p, 0 <? money p) ps) = 100 * Z.of_nat (length ps).
Proof.
  induction 1 as [|p ps Hp _ IH]; [done|].
  cbn [List.filter length]. rewrite Hp. cbn [Z.ltb Z.compare].
  rewrite sumOver_cons, IH. unfold anteOf. rewrite Hp. lia.
Qed.

(** X22.  From the lobby to the first hand.  In a lobby room with at least
    two seats the host's start-game is accepted, and the first hand finds
    every player with three cards and 100 staked out of the 10000: the pot
    is 100 times the number of seats, the dealer is seat 0 and the first to
    act is seat 1. *)
Theorem first_hand_of_lobby (pick : nat → nat) (trim lower : string → string)
        (r : room) (n : nat) :
  lobby trim lower r →
  (2 ≤ length (players r))%nat →
  ∃ s' : server,
    on_start_game pick (host r) (Server r n) = Accepted s'
    ∧ gameState (theRoom s') = Playing
    ∧ length (players (theRoom s')) = length (players r)
    ∧ pot (theRoom s') = 100 * Z.of_nat (length (players r))
    ∧ Forall (λ p, money p = 9900 ∧ currentBet p = 100
                   ∧ length (hand p) = 3%nat ∧ folded p = false)
             (players (theRoom s'))
    ∧ dealerIndex (theRoom s') = 0
    ∧ currentTurn (theRoom s') = 1
    ∧ timers s' = n.
Proof.
  intros Hlobby Hn.
  destruct (lobby_stakes trim lower r Hlobby) as (Hlen & Hall & Hd).
  unfold on_start_game, onRoom, apply_start_game. cbn [theRoom timers].
  rewrite bool_decide_eq_true_2 by done. cbn [negb].
  rewrite (proj2 (Nat.ltb_ge _ _) Hn).
  eexists. split; [done|]. cbn [theRoom timers].
  match goal with |- context [startNewHand pick ?x] => set (r1 := x) end.
  destruct (startNewHand_fields pick r1)
    as (Hps & Hpot & Hdl & _ & _ & Hgs & _).
  destruct (anteAll_spec (players r) 0 (shuffleDeck pick createDeck))
    as [Hante Hsum].
  { rewrite shuffleDeck_length. change (length createDeck) with 52%nat. lia. }
  change (players r1) with (players r) in Hps, Hpot, Hdl.
  change (dealerIndex r1) with (dealerIndex r) in Hdl.
  pose proof (Forall2_length _ _ _ Hante) as Hlen'.
  assert (Hdealt : Forall (λ p, money p = 9900 ∧ currentBet p = 100
                                ∧ length (hand p) = 3%nat ∧ folded p = false)
                          (players (startNewHand pick r1))).
  { rewrite Hps. apply Forall_lookup. intros i p' Hp'.
    destruct (Forall2_lookup_r _ _ _ _ _ Hante Hp') as (p & Hp & Hspec).
    pose proof (proj1 (Forall_lookup _ _) Hall _ _ Hp) as Hm. cbn in Hm.
    destruct Hspec as (_ & _ & _ & _ & _ & Hpos & _).
    destruct Hpos as (? & ? & Hb & Hm'); [lia|].
    unfold anteOf in Hb, Hm'. rewrite Hm in Hb, Hm'. split_and!; try done; lia. }
  assert (Hdealer : dealerIndex (startNewHand pick r1) = 0).
  { rewrite Hdl, Hd. change (-1 + 1) with 0. rewrite <- Hlen'.
    apply Z.rem_0_l. lia. }
  split_and!; try done.
  - by rewrite Hps, <- Hlen'.
  - rewrite Hpot, Hsum, sumOver_antes_full by done. lia.
  - rewrite startNewHand_turn.
    set (r2 := startNewHand pick r1) in *.
    assert (Hlen2 : length (players r2) = length (players r))
      by (by rewrite Hps, <- Hlen').
    assert (Hin : ∀ i p, players r2 !! i = Some p → inHand p = true).
    { intros i p Hp.
      destruct (proj1 (Forall_lookup _ _) Hdealt _ _ Hp) as (Hm & _ & _ & Hf).
      unfold inHand. by rewrite Hf, Hm. }
    destruct (lookup_lt_is_Some_2 (players r2) 1) as [p1 Hp1]; [lia|].
    destruct (getFirst_firstAfter r2) as [[_ Hnone]|(k & Hk & Hres & _ & Hskip)];
      [lia| |].
    { pose proof (proj1 (Forall_lookup _ _) Hnone _ _ Hp1) as Hno. cbn in Hno.
      rewrite (Hin _ _ Hp1) in Hno. done. }
    rewrite Hdealer in Hres, Hskip.
    destruct (Z.eq_dec k 1) as [->|Hne].
    { rewrite Hres. apply Z.mod_small. lia. }
    assert (Hone : (0 + 1) `mod` Z.of_nat (length (players r2)) = 1)
      by (apply Z.mod_small; lia).
    pose proof (Hskip 1 p1) as Hno. rewrite Hone in Hno.
    rewrite (Hin _ _ Hp1) in Hno. specialize (Hno ltac:(lia) Hp1). done.
Qed.

(** X23.  join-room does not look for the socket among the seats.  A socket
    that is already seated and joins again (under a new name) is given a
    second seat; the handlers find a player by the socket id and so always
    reach the first seat: whenever the turn comes to the second seat, every
    action of every player is rejected. *)
Theorem second_seat_never_acts (trim lower : string → string) (sid nm : string)
        (r r' : room) (i : nat) (p : player) :
  join_room trim lower sid nm r = inr r' →
  findPlayer sid (players r) = Some (i, p) →
  (∃ q, players r' !! length (players r) = Some q ∧ id q = sid)
  ∧ findPlayer sid (players r') = Some (i, p)
  ∧ ∀ s : server,
      id <$> players (theRoom s) = id <$> players r' →
      currentTurn (theRoom s) = Z.of_nat (length (players r)) →
      ∀ a, ∃ e, handle a s = Rejected e.
Proof.
  intros (_ & _ & _ & ->)%join_room_inv Hfind. cbn.
  assert (Hnew : (players r ++ [newPlayer sid (trim nm)]) !! length (players r)
                 = Some (newPlayer sid (trim nm))).
  { by rewrite lookup_app_r, Nat.sub_diag by lia. }
  split_and!.
  - by eexists.
  - by apply list_find_app_l.
  - intros s Hids Hturn a.
    destruct (handle a s) as [e|s'] eqn:Ha; [by exists e|]. exfalso.
    destruct (handle_split _ _ _ Ha) as (r1 & E & _).
    destruct (applyAction_frame _ _ _ E) as ((j & q & Hq & Hj & _) & _).
    assert (j = length (players r)) as -> by lia.
    apply list_find_Some in Hq as (Hq & Hidq & Hfirst).
    destruct (findPlayer_lookup _ _ _ _ Hfind) as [Hp Hidp].
    assert (Hjid : (id <$> players (theRoom s)) !! length (players r) = Some sid).
    { rewrite Hids, list_lookup_fmap, Hnew. done. }
    rewrite list_lookup_fmap, Hq in Hjid. cbn in Hjid.
    assert (Hiid : (id <$> players (theRoom s)) !! i = Some sid).
    { rewrite Hids, list_lookup_fmap, lookup_app_l, Hp; [by cbn; rewrite Hidp|].
      by eapply lookup_lt_Some. }
    rewrite list_lookup_fmap in Hiid.
    destruct (players (theRoom s) !! i) as [y|] eqn:Hy; [|done].
    cbn in Hiid. apply (Hfirst i y Hy); [by eapply lookup_lt_Some|].
    congruence.
Qed.

(** ** Further statements at the two-player table *)

Lemma getNextActivePlayerIndex_spec_witness :
  -1 <= 1
  ∧ (getNextActivePlayerIndex (theRoom duelStart) 1 = -1
     ↔ Forall (λ p, canAct p = false) (players (theRoom duelStart))).
Proof.
  assert (H : -1 <= 1) by lia.
  split; [exact H|].
  exact (proj2 (getNextActivePlayerIndex_spec (theRoom duelStart) 1 H)).
Defined.

Lemma getFirstPlayerAfterDealer_spec_witness :
  -1 <= dealerIndex (theRoom duelStart)
  ∧ (getFirstPlayerAfterDealer (theRoom duelStart) = -1
     ↔ Forall (λ p, inHand p = false) (players (theRoom duelStart))).
Proof.
  assert (H : -1 <= dealerIndex (theRoom duelStart)) by (vm_compute; discriminate).
  split; [exact H|].
  exact (proj2 (getFirstPlayerAfterDealer_spec (theRoom duelStart) H)).
Defined.

(** Binh, first to act, folds: the pot stays at 200. *)
Lemma fold_spec_witness :
  ∃ s' : server,
    on_fold "sock-2" duelStart = Accepted s'
    ∧ pot (theRoom s') = pot (theRoom duelStart).
Proof.
  destruct (proj2 (fold_spec "sock-2" duelStart) 1%nat (seatOf 1 duelStart))
    as (s' & p' & E & _ & _ & Hpot & _); [vm_compute; reflexivity..|].
  exists s'. split; [exact E|exact Hpot].
Defined.

(** Binh looks at the cards, and cannot look again. *)
Lemma view_cards_spec_witness :
  ∃ s' : server,
    on_view_cards "sock-2" duelStart = Accepted s'
    ∧ on_view_cards "sock-2" s' = Rejected AlreadyViewed.
Proof.
  destruct (proj2 (view_cards_spec "sock-2" duelStart) 1%nat (seatOf 1 duelStart))
    as (s' & E & _ & _ & _ & _ & _ & _ & Hagain & _); [vm_compute; reflexivity..|].
  exists s'. split; [exact E|exact Hagain].
Defined.

Lemma start_game_spec_witness :
  ∃ s' : server,
    on_start_game noShuffle "sock-1" (Server duelRoom 0) = Accepted s'
    ∧ gameState (theRoom s') = Playing.
Proof.
  destruct (proj2 (proj2 (start_game_spec noShuffle "sock-1" (Server duelRoom 0))))
    as (s' & E & Hgs & _); [reflexivity|cbn; lia|].
  exists s'. split; [exact E|exact Hgs].
Defined.

Lemma only_the_turn_acts_witness :
  ∃ (i : nat) (p : player),
    findPlayer "sock-2" (players (theRoom duelStart)) = Some (i, p)
    ∧ currentTurn (theRoom duelStart) = Z.of_nat i.
Proof.
  assert (H : handle (Fold "sock-2") duelStart = Accepted duelFolded)
    by (vm_compute; reflexivity).
  destruct (only_the_turn_acts _ _ _ H) as (i & p & Hf & Ht & _).
  exists i, p. split; [exact Hf|exact Ht].
Defined.

Lemma actions_keep_seats_witness :
  length (players (theRoom duelFolded)) = length (players (theRoom duelStart)).
Proof.
  assert (H : handle (Fold "sock-2") duelStart = Accepted duelFolded)
    by (vm_compute; reflexivity).
  destruct (actions_keep_seats _ _ _ H) as (_ & Hlen & _). exact Hlen.
Defined.

Lemma actions_shrink_roster_witness :
  (timers duelStart ≤ timers duelFolded ≤ S (timers duelStart))%nat.
Proof.
  assert (H : handle (Fold "sock-2") duelStart = Accepted duelFolded)
    by (vm_compute; reflexivity).
  destruct (actions_shrink_roster _ _ _ H) as (_ & _ & Ht). exact Ht.
Defined.

(** At the showdown of the three fours and the straight, the first winner
    holds the three fours. *)
Lemma best_hand_wins_witness :
  ∃ w : nat * player,
    resolveWinners showdownRoom !! 0%nat = Some w
    ∧ ∀ c, c ∈ activeSeats showdownRoom →
           compareHands (evaluateHand (hand c.2)) (evaluateHand (hand w.2)) <= 0.
Proof.
  assert (H1 : Forall (λ p, inHand p = true → length (hand p) = 3%nat)
                      (players showdownRoom))
    by (repeat constructor).
  assert (H2 : activeSeats showdownRoom ≠ []) by (vm_compute; discriminate).
  destruct (best_hand_wins showdownRoom H1 H2) as (w & Hw & Hbest & _).
  exists w. split; [exact Hw|exact Hbest].
Defined.


Lemma duelRoom_lobby : lobby (λ s, s) (λ s, s) duelRoom.
Proof.
  apply (lobby_joined _ _ "sock-2" "Binh" (createRoom "sock-1" "An")).
  - apply (lobby_created _ _ "sock-1" "An"). vm_compute. reflexivity.
  - vm_compute. reflexivity.
Defined.

Lemma lobby_invariant_witness :
  gameState duelRoom = Waiting
  ∧ NoDup ((λ p, name p) <$> players duelRoom).
Proof.
  destruct (lobby_invariant _ _ _ duelRoom_lobby) as (Hgs & _ & Hnd & _).
  split; [exact Hgs|exact Hnd].
Defined.

Lemma first_hand_of_lobby_witness :
  ∃ s' : server,
    on_start_game noShuffle (host duelRoom) (Server duelRoom 0) = Accepted s'
    ∧ pot (theRoom s') = 100 * 2
    ∧ currentTurn (theRoom s') = 1.
Proof.
  assert (H : (2 ≤ length (players duelRoom))%nat) by (cbn; lia).
  destruct (first_hand_of_lobby noShuffle _ _ duelRoom 0 duelRoom_lobby H)
    as (s' & E & _ & _ & Hpot & _ & _ & Hturn & _).
  exists s'. split; [exact E|]. split; [exact Hpot|exact Hturn].
Defined.

(** An, the host, joins the own room again as Binh. *)
Lemma second_seat_never_acts_witness :
  findPlayer "sock-1"
    (players (seatPlayer "sock-1" "Binh" (createRoom "sock-1" "An")))
  = Some (0%nat, newPlayer "sock-1" "An").
Proof.
  assert (E : join_room (λ s, s) (λ s, s) "sock-1" "Binh" (createRoom "sock-1" "An")
              = inr (seatPlayer "sock-1" "Binh" (createRoom "sock-1" "An")))
    by (vm_compute; reflexivity).
  assert (F : findPlayer "sock-1" (players (createRoom "sock-1" "An"))
              = Some (0%nat, newPlayer "sock-1" "An"))
    by (vm_compute; reflexivity).
  destruct (second_seat_never_acts _ _ _ _ _ _ _ _ E F) as (_ & Hfind & _).
  exact Hfind.
Defined.

(** ** The engine on integers is the engine on numbers

    On rooms whose balances are integers, and for bets whose amount is an
    integer, every function of the engine on numbers computes what its
    counterpart on integers computes. *)

Lemma filter_fmap {A B} (f : B → bool) (g : A → B) (l : list A) :
  List.filter f (g <$> l) = g <$> List.filter (λ x, f (g x)) l.
Proof.
  induction l as [|x l IH]; [done|]. cbn. rewrite IH. by destruct (f (g x)).
Qed.

Lemma filter_ext_eq {A} (f g : A → bool) (l : list A) :
  (∀ x, f x = g x) → List.filter f l = List.filter g l.
Proof.
  intros H. induction l as [|x l IH]; [done|]. cbn. by rewrite H, IH.
Qed.

Lemma forallb_fmap {A B} (f : B → bool) (g : A → B) (l : list A) :
  forallb f (g <$> l) = forallb (λ x, f (g x)) l.
Proof. induction l as [|x l IH]; [done|]. cbn. by rewrite IH. Qed.

Lemma canActN_lift (p : player) : canActN (liftP p) = canAct p.
Proof. done. Qed.

Lemma inHandN_lift (p : player) : inHandN (liftP p) = inHand p.
Proof. done. Qed.

Lemma seatAtN_lift (ps : list player) (idx : Z) :
  seatAtN (liftP <$> ps) idx = liftP <$> seatAt ps idx.
Proof.
  unfold seatAtN, seatAt. destruct (idx <? 0); [done|]. apply list_lookup_fmap.
Qed.

Lemma scanSeatsN_lift (elN : playerN → bool) (el : player → bool)
      (ps : list player) (n : Z) (fuel : nat) (idx : Z) :
  (∀ p, elN (liftP p) = el p) →
  scanSeatsN elN (liftP <$> ps) n fuel idx = scanSeats el ps n fuel idx.
Proof.
  intros Hel. revert idx. induction fuel as [|fuel IH]; intros idx; [done|].
  cbn [scanSeatsN scanSeats]. rewrite seatAtN_lift.
  destruct (seatAt ps idx) as [p|]; [|done]. cbn. rewrite Hel, IH. done.
Qed.

Lemma getNextActivePlayerIndexN_lift (r : room) (i : Z) :
  getNextActivePlayerIndexN (liftR r) i = getNextActivePlayerIndex r i.
Proof.
  unfold getNextActivePlayerIndexN, getNextActivePlayerIndex. cbn [playersN liftR].
  rewrite length_fmap. destruct (Z.of_nat (length (players r)) =? 0); [done|].
  by apply scanSeatsN_lift.
Qed.

Lemma getFirstPlayerAfterDealerN_lift (r : room) :
  getFirstPlayerAfterDealerN (liftR r) = getFirstPlayerAfterDealer r.
Proof.
  unfold getFirstPlayerAfterDealerN, getFirstPlayerAfterDealer.
  cbn [playersN dealerIndexN liftR].
  rewrite length_fmap. destruct (Z.of_nat (length (players r)) =? 0); [done|].
  by apply scanSeatsN_lift.
Qed.

Lemma findPlayerN_lift (sid : string) (ps : list player) :
  findPlayerN sid (liftP <$> ps) = prod_map (λ i, i) liftP <$> findPlayer sid ps.
Proof.
  unfold findPlayerN, findPlayer. by rewrite list_find_fmap.
Qed.

Lemma isRoundCompleteN_lift (r : room) :
  isRoundCompleteN (liftR r) = isRoundComplete r.
Proof.
  unfold isRoundCompleteN, isRoundComplete. cbn [playersN liftR].
  rewrite filter_fmap, length_fmap, forallb_fmap. done.
Qed.

Lemma isHandFinishedN_lift (r : room) :
  isHandFinishedN (liftR r) = isHandFinished r.
Proof.
  unfold isHandFinishedN, isHandFinished. cbn [playersN liftR].
  rewrite !filter_fmap, !length_fmap. done.
Qed.

Lemma checkAndAdvanceRoundN_lift (r : room) :
  checkAndAdvanceRoundN (liftR r)
  = ((liftR (checkAndAdvanceRound r).1), (checkAndAdvanceRound r).2).
Proof.
  unfold checkAndAdvanceRoundN, checkAndAdvanceRound. cbn [playersN liftR].
  rewrite filter_fmap, length_fmap.
  change (λ x, inHandN (liftP x)) with inHand.
  destruct (length (List.filter inHand (players r)) <=? 1)%nat; [done|].
  cbn [fst snd]. f_equal.
  set (r2 := set_currentRound _ (set_players _ r)).
  assert (E : set_currentRoundN
                (currentRoundN (set_playersN (set_actedThisRoundN false <$> (liftP <$> players r)) (liftR r)) + 1)
                (set_playersN (set_actedThisRoundN false <$> (liftP <$> players r)) (liftR r))
              = liftR r2).
  { unfold r2, liftR, set_currentRoundN, set_playersN. cbn. f_equal.
    rewrite <- !list_fmap_compose. by apply list_fmap_ext. }
  cbn [playersN liftR] in E |- *. rewrite E.
  by rewrite getFirstPlayerAfterDealerN_lift.
Qed.

Lemma closeRoundN_lift (r : room) : closeRoundN (liftR r) = liftR (closeRound r).
Proof.
  unfold closeRoundN, closeRound.
  rewrite isRoundCompleteN_lift, checkAndAdvanceRoundN_lift.
  by destruct (isRoundComplete r).
Qed.

Lemma insertBy_fmap {A B} (cmpA : A → A → Z) (cmpB : B → B → Z) (f : A → B)
      (x : A) (l : list A) :
  (∀ a b, cmpB (f a) (f b) = cmpA a b) →
  insertBy cmpB (f x) (f <$> l) = f <$> insertBy cmpA x l.
Proof.
  intros H. induction l as [|y l IH]; [done|].
  cbn. rewrite H. destruct (cmpA x y <=? 0); [done|]. cbn. by rewrite <- IH.
Qed.

Lemma sortBy_fmap {A B} (cmpA : A → A → Z) (cmpB : B → B → Z) (f : A → B)
      (l : list A) :
  (∀ a b, cmpB (f a) (f b) = cmpA a b) →
  sortBy cmpB (f <$> l) = f <$> sortBy cmpA l.
Proof.
  intros H. induction l as [|x l IH]; [done|].
  cbn [sortBy foldr fmap list_fmap].
  fold (sortBy cmpB (f <$> l)). fold (sortBy cmpA l).
  rewrite IH. by apply insertBy_fmap.
Qed.

Lemma seatedN_lift (ps : list player) :
  seatedN (liftP <$> ps) = prod_map (λ i, i) liftP <$> seated ps.
Proof. unfold seatedN, seated. by rewrite imap_fmap, fmap_imap. Qed.

Lemma activeSeatsN_lift (r : room) :
  activeSeatsN (liftR r) = prod_map (λ i, i) liftP <$> activeSeats r.
Proof.
  unfold activeSeatsN, activeSeats. cbn [playersN liftR].
  by rewrite seatedN_lift, filter_fmap.
Qed.

Lemma winnersOfN_lift (active : list (nat * player)) :
  winnersOfN (prod_map (λ i, i) liftP <$> active)
  = prod_map (λ i, i) liftP <$> winnersOf active.
Proof.
  unfold winnersOfN, winnersOf. rewrite length_fmap.
  destruct (length active =? 1)%nat; [by rewrite fmap_take|].
  rewrite <- list_fmap_compose.
  set (L := prod_map (λ i : nat, i) liftP).
  set (evalZ := λ e : nat * player, (e, evaluateHand (hand e.2))).
  assert (E : ((λ e : nat * playerN, (e, evaluateHand (handN e.2))) ∘ L) <$> active
              = prod_map L (λ h : handEval, h) <$> (evalZ <$> active)).
  { rewrite <- list_fmap_compose. apply list_fmap_ext. by intros i [k p] _. }
  rewrite E.
  rewrite (sortBy_fmap (λ a b : nat * player * handEval, compareHands b.2 a.2)
                       (λ a b : nat * playerN * handEval, compareHands b.2 a.2));
    [|done].
  set (sorted := sortBy _ (evalZ <$> active)).
  rewrite list_lookup_fmap, filter_fmap.
  assert (Hbest : from_option (λ e : nat * playerN * handEval, hvalue e.2) NaN
                    (prod_map L (λ h : handEval, h) <$> sorted !! 0%nat)
                  = from_option (λ e : nat * player * handEval, hvalue e.2) NaN
                      (sorted !! 0%nat)).
  { by destruct (sorted !! 0%nat). }
  rewrite Hbest. rewrite <- !list_fmap_compose. apply list_fmap_ext.
  by intros i [[k p] h] _.
Qed.

Lemma alter_addMoneyN_lift (x : Z) (i : nat) (ps : list player) :
  alter (addMoneyN (Num x)) i (liftP <$> ps) = liftP <$> alter (addMoney x) i ps.
Proof. symmetry. apply list_fmap_alter. by apply Forall_forall. Qed.

Lemma payEachN_lift (x : Z) (ws : list (nat * player)) (ps : list player) :
  foldl (λ acc w, alter (addMoneyN (Num x)) w.1 acc) (liftP <$> ps)
        (prod_map (λ i, i) liftP <$> ws)
  = liftP <$> foldl (λ acc w, alter (addMoney x) w.1 acc) ps ws.
Proof.
  revert ps. induction ws as [|w ws IH]; intros ps; [done|].
  cbn [foldl fmap list_fmap]. destruct w as [k p]. cbn [prod_map fst].
  by rewrite alter_addMoneyN_lift, IH.
Qed.

Lemma payWinnersN_lift (pt : Z) (ws : list (nat * player)) (ps : list player) :
  payWinnersN (Num pt) (prod_map (λ i, i) liftP <$> ws) (liftP <$> ps)
  = liftP <$> payWinners pt ws ps.
Proof.
  unfold payWinnersN, payWinners. rewrite length_fmap.
  destruct (1 <? length ws)%nat; [apply payEachN_lift|].
  destruct (length ws =? 1)%nat; [|done].
  rewrite list_lookup_fmap. destruct (ws !! 0%nat) as [[k p]|]; [|done].
  cbn. apply alter_addMoneyN_lift.
Qed.

Lemma resolveHandN_lift (r : room) :
  resolveHandN (liftR r) = liftR (resolveHand r).1.
Proof.
  unfold resolveHandN, resolveHand.
  rewrite activeSeatsN_lift, length_fmap.
  destruct (length (activeSeats r) =? 0)%nat; [done|].
  cbn [playersN potN liftR fst].
  rewrite winnersOfN_lift, payWinnersN_lift. done.
Qed.

Lemma solventN_lift (ps : list player) (i : nat) :
  solventN (liftP <$> ps) i = solvent ps i.
Proof.
  unfold solventN, solvent. rewrite list_lookup_fmap. by destruct (ps !! i).
Qed.

Lemma pruneRosterN_lift (r : room) :
  pruneRosterN (liftR r) = liftR (pruneRoster r).
Proof.
  unfold pruneRosterN, pruneRoster, liftR, set_tournamentPlayersN. cbn.
  f_equal. apply filter_ext_eq. intros i. apply solventN_lift.
Qed.

Lemma afterHandEndedN_lift (r : room) :
  afterHandEndedN (liftR r)
  = (liftR (afterHandEnded r).1.1, (afterHandEnded r).2)
  ∧ ((afterHandEnded r).2 = false ↔ (afterHandEnded r).1.2 = NextHandTimer).
Proof.
  unfold afterHandEndedN, afterHandEnded. rewrite pruneRosterN_lift.
  change (tournamentEndedN (liftR (pruneRoster r)))
    with (tournamentEnded (pruneRoster r)).
  destruct (tournamentEnded (pruneRoster r)); cbn; split; done.
Qed.

Lemma closeHandN_lift (s : server) : closeHandN (liftS s) = liftS (closeHand s).
Proof.
  unfold closeHandN, closeHand. cbn [theRoomN timersN liftS].
  rewrite isHandFinishedN_lift.
  destruct (isHandFinished (theRoom s)); [|done].
  rewrite resolveHandN_lift, pruneRosterN_lift.
  destruct (afterHandEndedN_lift (pruneRoster (resolveHand (theRoom s)).1))
    as [-> Htimer].
  destruct (afterHandEnded (pruneRoster (resolveHand (theRoom s)).1))
    as [[r3 eff] ended]. cbn in *.
  unfold liftS. cbn. f_equal.
  destruct ended, eff; try done.
  - pose proof (proj2 Htimer eq_refl). done.
  - pose proof (proj1 Htimer eq_refl). done.
Qed.

Lemma settleN_lift (s : server) : settleN (liftS s) = liftS (settle s).
Proof.
  unfold settleN, settle. cbn [theRoomN timersN liftS].
  rewrite closeRoundN_lift.
  exact (closeHandN_lift (Server (closeRound (theRoom s)) (timers s))).
Qed.

Lemma set_currentTurnN_lift (r : room) :
  ∀ rN i, rN = liftR r →
  set_currentTurnN (getNextActivePlayerIndexN rN i) rN
  = liftR (set_currentTurn (getNextActivePlayerIndex r i) r).
Proof. intros rN i ->. by rewrite getNextActivePlayerIndexN_lift. Qed.

Lemma apply_view_cardsN_lift (sid : string) (r : room) :
  apply_view_cardsN sid (liftR r) = liftO liftR (apply_view_cards sid r).
Proof.
  unfold apply_view_cardsN, apply_view_cards. cbn [playersN currentTurnN liftR].
  rewrite findPlayerN_lift.
  destruct (findPlayer sid (players r)) as [[i p]|]; [|done]. cbn.
  destruct (viewedCards p); [done|].
  destruct (negb (currentTurn r =? Z.of_nat i)); [done|]. cbn.
  f_equal. unfold liftR, set_playersN. cbn. f_equal.
  by rewrite list_fmap_insert.
Qed.

Lemma apply_foldN_lift (sid : string) (r : room) :
  apply_foldN sid (liftR r) = liftO liftR (apply_fold sid r).
Proof.
  unfold apply_foldN, apply_fold. cbn [playersN currentTurnN liftR].
  rewrite findPlayerN_lift.
  destruct (findPlayer sid (players r)) as [[i p]|]; [|done]. cbn.
  destruct (folded p); [done|].
  destruct (negb (currentTurn r =? Z.of_nat i)); [done|]. cbn.
  f_equal. apply set_currentTurnN_lift.
  unfold liftR, set_playersN. cbn. f_equal. by rewrite list_fmap_insert.
Qed.

Lemma apply_place_betN_lift (sid : string) (D : Z) (r : room) :
  apply_place_betN sid (Num D) (liftR r) = liftO liftR (apply_place_bet sid D r).
Proof.
  unfold apply_place_betN, apply_place_bet.
  cbn [playersN currentTurnN minBetN liftR].
  rewrite findPlayerN_lift.
  destruct (findPlayer sid (players r)) as [[i p]|]; [|done]. cbn.
  destruct (folded p); [done|].
  destruct (negb (currentTurn r =? Z.of_nat i)); [done|].
  destruct (D <? minBet r); [done|].
  assert (Hact : (if viewedCards p then Num D else Num (D `div` 2))
                 = Num (if viewedCards p then D else D `div` 2))
    by (by destruct (viewedCards p)).
  change (Z.of_nat 2) with 2. rewrite Hact. cbn.
  destruct (money p <? (if viewedCards p then D else D `div` 2)); [done|].
  cbn. f_equal. apply set_currentTurnN_lift.
  destruct (minBet r <? D); unfold liftR; cbn; f_equal;
    by rewrite ?list_fmap_insert, ?fmap_app.
Qed.

Lemma apply_all_inN_lift (sid : string) (r : room) :
  apply_all_inN sid (liftR r) = liftO liftR (apply_all_in sid r).
Proof.
  unfold apply_all_inN, apply_all_in. cbn [playersN currentTurnN liftR].
  rewrite findPlayerN_lift.
  destruct (findPlayer sid (players r)) as [[i p]|]; [|done]. cbn.
  destruct (folded p); [done|].
  destruct (allIn p); [done|].
  destruct (negb (currentTurn r =? Z.of_nat i)); [done|]. cbn.
  f_equal. apply set_currentTurnN_lift.
  destruct (minBet r <? money p); unfold liftR; cbn; f_equal;
    by rewrite ?list_fmap_insert.
Qed.

Lemma alter_lift (fN : playerN → playerN) (f : player → player) (i : nat)
      (ps : list player) :
  (∀ p, fN (liftP p) = liftP (f p)) →
  alter fN i (liftP <$> ps) = liftP <$> alter f i ps.
Proof.
  intros H. symmetry. apply list_fmap_alter. apply Forall_forall.
  intros p _. by rewrite H.
Qed.

Lemma apply_compare_cardsN_lift (sid target : string) (r : room) :
  apply_compare_cardsN sid target (liftR r)
  = liftO liftR (apply_compare_cards sid target r).
Proof.
  unfold apply_compare_cardsN, apply_compare_cards.
  cbn [playersN currentTurnN currentRoundN liftR].
  rewrite !findPlayerN_lift.
  destruct (findPlayer sid (players r)) as [[i p]|]; [|done].
  destruct (findPlayer target (players r)) as [[j q]|]; [|done]. cbn.
  destruct (folded p || folded q); [done|].
  destruct (currentRound r <? 2); [done|].
  destruct (negb (currentTurn r =? Z.of_nat i)); [done|].
  change (requiredActualN (liftP p) (liftR r)) with (requiredActual p r).
  destruct (currentBet p <? requiredActual p r); [done|].
  cbn. f_equal. apply set_currentTurnN_lift.
  unfold liftR, set_playersN. cbn. f_equal.
  destruct (0 <? compareHands _ _);
    [|destruct (compareHands _ _ <? 0)];
    rewrite ?(alter_lift (set_foldedN true) (set_folded true)) by done;
    by rewrite (alter_lift (set_actedThisRoundN true) (set_actedThisRound true)).
Qed.

Lemma applyActionN_lift (a : action) (r : room) :
  applyActionN (liftA a) (liftR r) = liftO liftR (applyAction a r).
Proof.
  destruct a; cbn [applyActionN liftA applyAction].
  - apply apply_place_betN_lift.
  - apply apply_foldN_lift.
  - apply apply_all_inN_lift.
  - apply apply_view_cardsN_lift.
  - apply apply_compare_cardsN_lift.
Qed.

Lemma handleN_lift (a : action) (s : server) :
  handleN (liftA a) (liftS s) = liftO liftS (handle a s).
Proof.
  unfold handleN, onRoomN. cbn [theRoomN timersN liftS].
  rewrite applyActionN_lift.
  destruct a; cbn [handle closesN liftA applyAction];
    unfold on_place_bet, on_fold, on_all_in, on_view_cards, on_compare_cards,
           onRoom;
    match goal with |- context [liftO liftR ?o] => destruct o as [e|r1] end;
    cbn; try done; f_equal;
    try exact (settleN_lift (Server r1 (timers s))).
Qed.

Lemma numericBet_lift (a : actionN) : numericBet a → ∃ a', a = liftA a'.
Proof.
  destruct a as [sid [D|]|sid|sid|sid|sid target]; intros H; try done.
  - by exists (PlaceBet sid D).
  - by exists (Fold sid).
  - by exists (AllIn sid).
  - by exists (ViewCards sid).
  - by exists (CompareCards sid target).
Qed.

(** A hand in which every bet has a numeric amount is a hand of the engine
    on integers. *)
Lemma inHandFromN_numeric (pick : nat → nat) (r0 : room) (n0 : nat)
      (acts : list actionN) (sN : serverN) :
  inHandFromN pick r0 n0 acts sN →
  Forall numericBet acts →
  ∃ (charges : list Z) (s : server),
    sN = liftS s ∧ inHandFrom pick r0 n0 charges s.
Proof.
  induction 1 as [|acts s s' a _ IH Ha]; intros Hnum.
  { exists [], (Server (startNewHand pick r0) n0). split; [done|constructor]. }
  apply Forall_cons in Hnum as [Hna Hnum].
  destruct (IH Hnum) as (charges & sz & -> & Hreach).
  destruct (numericBet_lift a Hna) as [a' ->].
  rewrite handleN_lift in Ha.
  destruct (handle a' sz) as [e|sz'] eqn:E; [done|].
  injection Ha as <-.
  exists (charged a' (theRoom sz) :: charges), sz'. split; [done|].
  by eapply hand_action.
Qed.

(** ** Hands with a bet that is not a number *)

Lemma findPlayerN_lookup (sid : string) (ps : list playerN) (i : nat) (p : playerN) :
  findPlayerN sid ps = Some (i, p) → ps !! i = Some p ∧ idN p = sid.
Proof.
  unfold findPlayerN. intros (H1 & H2 & _)%list_find_Some. by split.
Qed.

Lemma settledN_refl (p : playerN) : settledN p p.
Proof. unfold settledN. by split_and!. Qed.

Lemma Forall2_settledN_refl (ps : list playerN) : Forall2 settledN ps ps.
Proof. apply Forall_Forall2_diag, Forall_forall. intros; apply settledN_refl. Qed.

Lemma settledN_trans (p p1 p2 : playerN) :
  settledN p p1 → settledN p1 p2 → settledN p p2.
Proof.
  intros (?&?&?&?&Hf&?&?&Hm) (?&?&?&?&?&?&?&Hm').
  unfold settledN. split_and!; try congruence.
  intros Hin. rewrite Hm', Hm; try done.
  unfold inHandN in *. by rewrite Hf, (Hm Hin).
Qed.

Lemma Forall2_settledN_trans (ps ps1 ps2 : list playerN) :
  Forall2 settledN ps ps1 → Forall2 settledN ps1 ps2 → Forall2 settledN ps ps2.
Proof.
  intros H1. revert ps2. induction H1; inversion 1; subst; constructor;
    eauto using settledN_trans.
Qed.

Lemma seatedN_elem (ps : list playerN) (w : nat * playerN) :
  w ∈ seatedN ps ↔ ps !! w.1 = Some w.2.
Proof.
  unfold seatedN. rewrite list_elem_of_lookup. destruct w as [i p]. cbn. split.
  - intros [k Hk]. rewrite list_lookup_imap in Hk.
    destruct (ps !! k) eqn:E; [|done]. cbn in Hk. by simplify_eq.
  - intros Hi. exists i. rewrite list_lookup_imap, Hi. done.
Qed.

Lemma activeSeatsN_elem (r : roomN) (w : nat * playerN) :
  w ∈ activeSeatsN r ↔ playersN r !! w.1 = Some w.2 ∧ inHandN w.2 = true.
Proof.
  unfold activeSeatsN. rewrite list_elem_of_In, filter_In, <- list_elem_of_In.
  by rewrite seatedN_elem.
Qed.

Lemma winnersOfN_sub (active : list (nat * playerN)) (w : nat * playerN) :
  w ∈ winnersOfN active → w ∈ active.
Proof.
  unfold winnersOfN. destruct (length active =? 1)%nat.
  { intros H. eapply subseteq_take. exact H. }
  intros (e & -> & He)%list_elem_of_fmap.
  apply list_elem_of_In, filter_In in He as [He _].
  apply list_elem_of_In in He. rewrite sortBy_perm in He.
  apply list_elem_of_fmap in He as (c & -> & Hc). done.
Qed.

Lemma payEachN_settled (x : num) (ps : list playerN) (ws : list (nat * playerN)) :
  Forall (λ w, ps !! w.1 = Some w.2 ∧ inHandN w.2 = true) ws →
  ∀ acc, Forall2 settledN ps acc →
         Forall2 settledN ps (foldl (λ acc w, alter (addMoneyN x) w.1 acc) acc ws).
Proof.
  intros Hws. induction Hws as [|w ws [Hw Hin] _ IH]; intros acc Hacc; [done|].
  cbn [foldl]. apply IH. apply Forall2_alter_r; [done|].
  intros p q Hp _ (?&?&?&?&?&?&?&Hm). simplify_eq.
  unfold settledN, addMoneyN. cbn. split_and!; try done.
  intros Hc. congruence.
Qed.

Lemma payWinnersN_settled (pt : num) (ps : list playerN) (ws : list (nat * playerN)) :
  Forall (λ w, ps !! w.1 = Some w.2 ∧ inHandN w.2 = true) ws →
  Forall2 settledN ps (payWinnersN pt ws ps).
Proof.
  intros Hws. unfold payWinnersN.
  destruct (1 <? length ws)%nat.
  { apply payEachN_settled; [done|apply Forall2_settledN_refl]. }
  destruct (length ws =? 1)%nat; [|apply Forall2_settledN_refl].
  destruct (ws !! 0%nat) as [w|] eqn:E; [|apply Forall2_settledN_refl].
  apply (payEachN_settled pt ps [w]); [|apply Forall2_settledN_refl].
  constructor; [|done].
  eapply (proj1 (Forall_lookup _ _) Hws); eauto.
Qed.

Lemma resolveHandN_frame (r : roomN) :
  Forall2 settledN (playersN r) (playersN (resolveHandN r))
  ∧ potN (resolveHandN r) = potN r
  ∧ minBetN (resolveHandN r) = minBetN r
  ∧ currentTurnN (resolveHandN r) = currentTurnN r.
Proof.
  unfold resolveHandN. destruct (length (activeSeatsN r) =? 0)%nat; cbn.
  { split_and!; try done. apply Forall2_settledN_refl. }
  split_and!; try done. apply payWinnersN_settled, Forall_forall.
  intros w Hw%winnersOfN_sub. by apply activeSeatsN_elem.
Qed.

Lemma closeRoundN_frame (r : roomN) :
  Forall2 settledN (playersN r) (playersN (closeRoundN r))
  ∧ potN (closeRoundN r) = potN r
  ∧ minBetN (closeRoundN r) = minBetN r
  ∧ dealerIndexN (closeRoundN r) = dealerIndexN r.
Proof.
  unfold closeRoundN. destruct (isRoundCompleteN r).
  2: { split_and!; try done. apply Forall2_settledN_refl. }
  unfold checkAndAdvanceRoundN.
  destruct (length (List.filter inHandN (playersN r)) <=? 1)%nat; cbn.
  { split_and!; try done. apply Forall2_settledN_refl. }
  split_and!; try done. apply Forall2_fmap_r, Forall_Forall2_diag, Forall_forall.
  intros p _. unfold settledN. cbn. by split_and!.
Qed.

Lemma closeHandN_frame (s : serverN) :
  Forall2 settledN (playersN (theRoomN s)) (playersN (theRoomN (closeHandN s)))
  ∧ potN (theRoomN (closeHandN s)) = potN (theRoomN s)
  ∧ minBetN (theRoomN (closeHandN s)) = minBetN (theRoomN s)
  ∧ currentTurnN (theRoomN (closeHandN s)) = currentTurnN (theRoomN s).
Proof.
  unfold closeHandN. destruct (isHandFinishedN (theRoomN s)).
  2: { split_and!; try done. apply Forall2_settledN_refl. }
  destruct (resolveHandN_frame (theRoomN s)) as (Hps & Hpot & Hmin & Hturn).
  unfold afterHandEndedN.
  destruct (tournamentEndedN _); cbn; by split_and!.
Qed.

Lemma settleN_frame (s : serverN) :
  Forall2 settledN (playersN (theRoomN s)) (playersN (theRoomN (settleN s)))
  ∧ potN (theRoomN (settleN s)) = potN (theRoomN s)
  ∧ minBetN (theRoomN (settleN s)) = minBetN (theRoomN s).
Proof.
  unfold settleN.
  destruct (closeRoundN_frame (theRoomN s)) as (Hps1 & Hpot1 & Hmin1 & _).
  destruct (closeHandN_frame (ServerN (closeRoundN (theRoomN s)) (timersN s)))
    as (Hps2 & Hpot2 & Hmin2 & _).
  cbn [theRoomN] in Hps2, Hpot2, Hmin2.
  split_and!; [by eapply Forall2_settledN_trans|congruence|congruence].
Qed.

(** A bet whose amount is not a number passes both tests on the amount: it
    is accepted from any player in turn who has not folded, and leaves the
    pot, the player's stake and the player's balance NaN. *)
Lemma nan_bet_accepted (sid : string) (s : serverN) (i : nat) (p : playerN) :
  findPlayerN sid (playersN (theRoomN s)) = Some (i, p) →
  foldedN p = false →
  currentTurnN (theRoomN s) = Z.of_nat i →
  ∃ (s' : serverN) (p' : playerN),
    handleN (PlaceBetN sid NaN) s = Accepted s'
    ∧ potN (theRoomN s') = NaN
    ∧ minBetN (theRoomN s') = minBetN (theRoomN s)
    ∧ playersN (theRoomN s') !! i = Some p'
    ∧ moneyN p' = NaN ∧ currentBetN p' = NaN.
Proof.
  intros Hfind Hfold Hturn.
  destruct (findPlayerN_lookup _ _ _ _ Hfind) as [Hi _].
  unfold handleN, onRoomN. cbn [applyActionN closesN].
  unfold apply_place_betN. rewrite Hfind, Hfold, Hturn, Z.eqb_refl.
  cbn [negb num_ltb].
  assert (Hact : (if viewedCardsN p then NaN else num_floordiv NaN 2) = NaN)
    by (by destruct (viewedCardsN p)).
  rewrite Hact.
  assert (Hm : num_ltb (moneyN p) NaN = false) by (by destruct (moneyN p)).
  rewrite Hm.
  match goal with |- context [Accepted (settleN ?x)] => set (s1 := x) end.
  destruct (settleN_frame s1) as (Hps & Hpot & Hmin).
  assert (Hi1 : playersN (theRoomN s1) !! i
                = Some (set_actedThisRoundN true
                          (set_currentBetN (num_add (currentBetN p) NaN)
                             (set_moneyN (num_sub (moneyN p) NaN) p)))).
  { subst s1. cbn. apply list_lookup_insert_eq. by eapply lookup_lt_Some. }
  destruct (Forall2_lookup_l _ _ _ _ _ Hps Hi1) as (p' & Hi' & Hst).
  exists (settleN s1), p'. split; [done|].
  destruct Hst as (_&_&_&_&_&Hbet&_&Hmoney).
  split_and!.
  - rewrite Hpot. subst s1. cbn. by destruct (potN (theRoomN s)).
  - rewrite Hmin. subst s1. done.
  - done.
  - rewrite Hmoney; cbn.
    + by destruct (moneyN p).
    + unfold inHandN. cbn. destruct (moneyN p); cbn; apply andb_false_r.
  - rewrite Hbet. cbn. by destruct (currentBetN p).
Qed.

(** C4.  The accounting of the pot fails on the code.  At the two-player
    table, in the first hand that start-game deals, with the two antes, 200,
    in the pot, Binh, first to act, sends a bet whose amount is not a
    number.  The handler accepts it, and in the state it leaves the pot is
    NaN: it is not [>= 0], and it is not equal to the sum of the stakes
    (which is NaN too, and NaN equals nothing). *)
Theorem non_numeric_bet_breaks_pot :
  on_start_game noShuffle "sock-1" (Server duelRoom 0)
  = Accepted (Server (startNewHand noShuffle duelOpened) 0)
  ∧ potN (theRoomN (liftS (Server (startNewHand noShuffle duelOpened) 0)))
    = Num 200
  ∧ handleN (PlaceBetN "sock-2" NaN)
            (liftS (Server (startNewHand noShuffle duelOpened) 0))
    = Accepted duelNaN
  ∧ inHandFromN noShuffle duelOpened 0 [PlaceBetN "sock-2" NaN] duelNaN
  ∧ potN (theRoomN duelNaN) = NaN
  ∧ num_geb (potN (theRoomN duelNaN)) (Num 0) = false
  ∧ num_eqb (potN (theRoomN duelNaN)) (stakesN (playersN (theRoomN duelNaN)))
    = false.
Proof.
  split_and!; try (vm_compute; reflexivity).
  apply (hand_actionN _ _ _ [] _ _ _ (hand_startedN noShuffle duelOpened 0)).
  vm_compute. reflexivity.
Qed.

(** *** What holds of every hand, whatever the amounts *)

Lemma scanSeatsN_found (el : playerN → bool) (ps : list playerN) (n : Z)
      (fuel : nat) (idx : Z) (k : nat) :
  scanSeatsN el ps n fuel idx = Z.of_nat k →
  ∃ p, ps !! k = Some p ∧ el p = true.
Proof.
  revert idx. induction fuel as [|fuel IH]; intros idx; cbn [scanSeatsN]; [lia|].
  unfold seatAtN. destruct (Z.ltb_spec idx 0) as [|Hidx]; [lia|].
  destruct (ps !! Z.to_nat idx) as [p|] eqn:Hp; [|lia].
  destruct (el p) eqn:Hel; [|apply IH].
  intros ->. rewrite Nat2Z.id in Hp. eauto.
Qed.

Lemma getNextN_found (r : roomN) (i : Z) (k : nat) :
  getNextActivePlayerIndexN r i = Z.of_nat k →
  ∃ p, playersN r !! k = Some p ∧ canActN p = true.
Proof.
  unfold getNextActivePlayerIndexN.
  destruct (Z.of_nat (length (playersN r)) =? 0); [lia|].
  apply scanSeatsN_found.
Qed.

Lemma getFirstN_found (r : roomN) (k : nat) :
  getFirstPlayerAfterDealerN r = Z.of_nat k →
  ∃ p, playersN r !! k = Some p ∧ inHandN p = true.
Proof.
  unfold getFirstPlayerAfterDealerN.
  destruct (Z.of_nat (length (playersN r)) =? 0); [lia|].
  apply scanSeatsN_found.
Qed.

Lemma canActN_notAllIn (p : playerN) : canActN p = true → allInN p = false.
Proof.
  unfold canActN. intros [_ H]%andb_true_iff. by destruct (allInN p).
Qed.

Lemma inHandN_notAllIn (p : playerN) :
  (allInN p = true → moneyN p = Num 0) → inHandN p = true → allInN p = false.
Proof.
  unfold inHandN. intros Hb [_ Hm]%andb_true_iff.
  destruct (allInN p); [|done]. by rewrite Hb in Hm.
Qed.

Lemma turnNotAllIn_next (r : roomN) (i : Z) :
  turnNotAllIn (set_currentTurnN (getNextActivePlayerIndexN r i) r).
Proof.
  intros k p Hk Hp. cbn in Hk, Hp.
  destruct (getNextN_found _ _ _ Hk) as (q & Hq & Hact).
  assert (q = p) as -> by congruence. by apply canActN_notAllIn.
Qed.

Lemma applyActionN_frame (a : actionN) (r r1 : roomN) :
  applyActionN a r = Accepted r1 →
  (∃ i p, findPlayerN (senderN a) (playersN r) = Some (i, p)
          ∧ currentTurnN r = Z.of_nat i)
  ∧ minBetN r <= minBetN r1
  ∧ (allInBrokeN r → turnNotAllIn r → allInBrokeN r1 ∧ turnNotAllIn r1).
Proof.
  intros E. unfold allInBrokeN.
  destruct a as [sid D|sid|sid|sid|sid target]; cbn [applyActionN senderN] in *.
  - unfold apply_place_betN in E.
    destruct (findPlayerN sid (playersN r)) as [[i p]|] eqn:Hfind; [|done].
    destruct (findPlayerN_lookup _ _ _ _ Hfind) as [Hi _].
    destruct (foldedN p); [done|].
    destruct (Z.eqb_spec (currentTurnN r) (Z.of_nat i)) as [Hturn|]; [|done].
    cbn [negb] in E.
    destruct (num_ltb D (Num (minBetN r))); [done|].
    destruct (num_ltb (moneyN p) _); [done|].
    injection E as <-. split; [by exists i, p|].
    destruct D as [d|]; [destruct (Z.ltb_spec (minBetN r) d)|]; cbn;
      (split; [lia|]); intros Hb Ht;
      (split; [|apply turnNotAllIn_next]);
      (apply Forall_insert; [done|]); cbn; intros Hall;
      by rewrite (Ht i p Hturn Hi) in Hall.
  - unfold apply_foldN in E.
    destruct (findPlayerN sid (playersN r)) as [[i p]|] eqn:Hfind; [|done].
    destruct (findPlayerN_lookup _ _ _ _ Hfind) as [Hi _].
    destruct (foldedN p); [done|].
    destruct (Z.eqb_spec (currentTurnN r) (Z.of_nat i)) as [Hturn|]; [|done].
    injection E as <-. split; [by exists i, p|]. cbn. split; [lia|].
    intros Hb Ht. split; [|apply turnNotAllIn_next].
    apply Forall_insert; [done|].
    exact (proj1 (Forall_lookup _ _) Hb _ _ Hi).
  - unfold apply_all_inN in E.
    destruct (findPlayerN sid (playersN r)) as [[i p]|] eqn:Hfind; [|done].
    destruct (findPlayerN_lookup _ _ _ _ Hfind) as [Hi _].
    destruct (foldedN p); [done|]. destruct (allInN p); [done|].
    destruct (Z.eqb_spec (currentTurnN r) (Z.of_nat i)) as [Hturn|]; [|done].
    injection E as <-. split; [by exists i, p|].
    destruct (moneyN p) as [m|]; [destruct (Z.ltb_spec (minBetN r) m)|]; cbn;
      (split; [lia|]); intros Hb Ht;
      (split; [|apply turnNotAllIn_next]);
      by apply Forall_insert.
  - unfold apply_view_cardsN in E.
    destruct (findPlayerN sid (playersN r)) as [[i p]|] eqn:Hfind; [|done].
    destruct (findPlayerN_lookup _ _ _ _ Hfind) as [Hi _].
    destruct (viewedCardsN p); [done|].
    destruct (Z.eqb_spec (currentTurnN r) (Z.of_nat i)) as [Hturn|]; [|done].
    injection E as <-. split; [by exists i, p|]. cbn. split; [lia|].
    intros Hb Ht. split.
    + apply Forall_insert; [done|].
      exact (proj1 (Forall_lookup _ _) Hb _ _ Hi).
    + intros k q Hk Hq. cbn in Hk, Hq.
      assert (k = i) as -> by lia.
      rewrite list_lookup_insert_eq in Hq by (by eapply lookup_lt_Some).
      injection Hq as <-. cbn. by apply (Ht i p).
  - unfold apply_compare_cardsN in E.
    destruct (findPlayerN sid (playersN r)) as [[i p]|] eqn:Hfind; [|done].
    destruct (findPlayerN target (playersN r)) as [[j q]|]; [|done].
    destruct (foldedN p || foldedN q); [done|].
    destruct (currentRoundN r <? 2); [done|].
    destruct (Z.eqb_spec (currentTurnN r) (Z.of_nat i)) as [Hturn|]; [|done].
    cbn [negb] in E.
    destruct (num_ltb (currentBetN p) _); [done|].
    injection E as <-. split; [by exists i, p|]. cbn. split; [lia|].
    intros Hb Ht. split; [|apply turnNotAllIn_next].
    apply Forall_alter; [|done].
    repeat case_match; try done; by apply Forall_alter.
Qed.

Lemma handleN_split (a : actionN) (s s' : serverN) :
  handleN a s = Accepted s' →
  ∃ r1, applyActionN a (theRoomN s) = Accepted r1
        ∧ s' = (if closesN a then settleN else λ s, s) (ServerN r1 (timersN s)).
Proof.
  unfold handleN, onRoomN.
  destruct (applyActionN a (theRoomN s)) as [e|r1]; [done|].
  intros [= <-]. by exists r1.
Qed.

Lemma allInBrokeN_settled (r r' : roomN) :
  allInBrokeN r → Forall2 settledN (playersN r) (playersN r') → allInBrokeN r'.
Proof.
  intros Hr Hps. apply Forall_forall. intros p' Hp'.
  apply list_elem_of_lookup in Hp' as [i Hi].
  destruct (Forall2_lookup_r _ _ _ _ _ Hps Hi) as (p & Hp & Hst).
  destruct Hst as (_&_&_&_&_&_&Ha&Hm). rewrite Ha. intros Hall.
  pose proof (proj1 (Forall_lookup _ _) Hr _ _ Hp Hall) as H0.
  rewrite Hm; [done|]. unfold inHandN. rewrite H0. apply andb_false_r.
Qed.

Lemma turnNotAllIn_settled (r r' : roomN) :
  turnNotAllIn r → Forall2 settledN (playersN r) (playersN r') →
  currentTurnN r' = currentTurnN r → turnNotAllIn r'.
Proof.
  intros Ht Hps Hturn k p' Hk Hp'.
  destruct (Forall2_lookup_r _ _ _ _ _ Hps Hp') as (p & Hp & Hst).
  destruct Hst as (_&_&_&_&_&_&Ha&_). rewrite Ha.
  apply (Ht k p); [congruence|done].
Qed.

Lemma closeRoundN_inv (r : roomN) :
  allInBrokeN r → turnNotAllIn r →
  allInBrokeN (closeRoundN r) ∧ turnNotAllIn (closeRoundN r).
Proof.
  intros Hb Ht.
  destruct (closeRoundN_frame r) as (Hps & _).
  pose proof (allInBrokeN_settled _ _ Hb Hps) as Hb'.
  split; [done|].
  unfold closeRoundN in *. destruct (isRoundCompleteN r); [|done].
  unfold checkAndAdvanceRoundN in *.
  destruct (length (List.filter inHandN (playersN r)) <=? 1)%nat; [done|].
  cbn [fst] in *. intros k p Hk Hp. cbn in Hk, Hp.
  destruct (getFirstN_found _ _ Hk) as (q & Hq & Hin). cbn in Hq.
  assert (q = p) as -> by congruence.
  apply inHandN_notAllIn; [|done].
  apply (proj1 (Forall_lookup _ _) Hb' k p). exact Hp.
Qed.

Lemma settleN_inv (s : serverN) :
  allInBrokeN (theRoomN s) → turnNotAllIn (theRoomN s) →
  allInBrokeN (theRoomN (settleN s)) ∧ turnNotAllIn (theRoomN (settleN s)).
Proof.
  intros Hb Ht. destruct (closeRoundN_inv _ Hb Ht) as [Hb1 Ht1].
  unfold settleN.
  destruct (closeHandN_frame (ServerN (closeRoundN (theRoomN s)) (timersN s)))
    as (Hps & _ & _ & Hturn).
  cbn [theRoomN] in Hps, Hturn. split.
  - by eapply allInBrokeN_settled.
  - by eapply turnNotAllIn_settled.
Qed.

Lemma anteAll_noAllIn (ps : list player) (pt : Z) (d : list card) :
  Forall (λ p, allIn p = false) (anteAll ps pt d).1.1.
Proof.
  revert pt d. induction ps as [|p ps IH]; intros pt d; [constructor|].
  cbn [anteAll]. destruct (anteUp p pt d) as [[p' pt'] d'] eqn:E1.
  specialize (IH pt' d'). destruct (anteAll ps pt' d') as [[ps' pt''] d''].
  cbn [fst] in *. constructor; [|done].
  unfold anteUp in E1. cbn -[dealCards] in E1.
  destruct (dealCards 3 [] d). destruct (0 <? money p); by simplify_eq.
Qed.

Lemma inHandFromN_inv (pick : nat → nat) (r0 : room) (n0 : nat)
      (acts : list actionN) (s : serverN) :
  inHandFromN pick r0 n0 acts s →
  allInBrokeN (theRoomN s) ∧ turnNotAllIn (theRoomN s)
  ∧ 100 <= minBetN (theRoomN s).
Proof.
  induction 1 as [|acts s s' a _ (Hb & Ht & Hmin) Ha].
  - destruct (startNewHand_fields pick r0) as (Hps & _ & _ & Hmin & _).
    cbn [theRoomN liftS theRoom]. split_and!.
    + unfold allInBrokeN. cbn [playersN liftR]. apply Forall_fmap.
      eapply Forall_impl; [apply (allInBroke_start pick r0)|].
      intros p Hp Hall. cbn in *. by rewrite (Hp Hall).
    + intros k p _ Hp. cbn [playersN liftR] in Hp.
      rewrite list_lookup_fmap in Hp.
      destruct (players (startNewHand pick r0) !! k) as [q|] eqn:Hq; [|done].
      injection Hp as <-. cbn. rewrite Hps in Hq.
      exact (proj1 (Forall_lookup _ _) (anteAll_noAllIn _ _ _) _ _ Hq).
    + cbn. lia.
  - destruct (handleN_split _ _ _ Ha) as (r1 & E & ->).
    destruct (applyActionN_frame _ _ _ E) as (_ & Hmin1 & Hinv).
    destruct (Hinv Hb Ht) as [Hb1 Ht1].
    destruct (closesN a); [|cbn [theRoomN]; split_and!; [done|done|lia]].
    destruct (settleN_inv (ServerN r1 (timersN s)) Hb1 Ht1) as [Hb2 Ht2].
    destruct (settleN_frame (ServerN r1 (timersN s))) as (_ & _ & Hmin2).
    cbn [theRoomN] in Hmin2. split_and!; [done|done|lia].
Qed.

(** X11.  Throughout a hand dealt on a room with integer balances, whatever
    the amounts of the bets (a number or not), the minimum bet is at least
    100 and no accepted action lowers it. *)
Theorem minBet_ratchet (pick : nat → nat) (r0 : room) (n0 : nat)
        (acts : list actionN) (s : serverN) :
  inHandFromN pick r0 n0 acts s →
  100 <= minBetN (theRoomN s)
  ∧ ∀ a s', handleN a s = Accepted s' →
            minBetN (theRoomN s) <= minBetN (theRoomN s').
Proof.
  intros Hreach. split; [by destruct (inHandFromN_inv _ _ _ _ _ Hreach) as (_&_&?)|].
  intros a s' Ha.
  destruct (handleN_split _ _ _ Ha) as (r1 & E & ->).
  destruct (applyActionN_frame _ _ _ E) as (_ & Hmin1 & _).
  destruct (closesN a); [|done].
  destruct (settleN_frame (ServerN r1 (timersN s))) as (_ & _ & Hmin2).
  cbn [theRoomN] in Hmin2. lia.
Qed.

Lemma activeSeatsN_length (r : roomN) :
  length (activeSeatsN r) = length (List.filter inHandN (playersN r)).
Proof.
  unfold activeSeatsN, seatedN.
  assert (H : ∀ (ps : list playerN) (f : nat → playerN → nat * playerN),
             (∀ i p, (f i p).2 = p) →
             length (List.filter (λ e, inHandN e.2) (imap f ps))
             = length (List.filter inHandN ps)).
  { induction ps as [|p ps IH]; intros f Hf; [done|].
    cbn [imap List.filter]. rewrite Hf.
    destruct (inHandN p); cbn [length]; rewrite IH; try done;
      intros i q; apply Hf. }
  by apply H.
Qed.

Lemma finished_one_leftN (r : roomN) :
  allInBrokeN r → isHandFinishedN r = true → (length (activeSeatsN r) ≤ 1)%nat.
Proof.
  intros Hr. rewrite activeSeatsN_length. unfold isHandFinishedN.
  destruct (Nat.leb_spec (length (List.filter inHandN (playersN r))) 1) as [|Hlt];
    [done|].
  intros Hnone%Nat.eqb_eq. exfalso.
  destruct (List.filter inHandN (playersN r)) as [|p l] eqn:E; [cbn in Hlt; lia|].
  assert (Hin : In p (List.filter inHandN (playersN r))) by (rewrite E; by left).
  apply filter_In in Hin as [Hp Hact].
  cbn [List.filter] in Hnone.
  assert (Hall : allInN p = false).
  { apply inHandN_notAllIn; [|done]. apply list_elem_of_In in Hp.
    exact (proj1 (Forall_forall _ _) Hr _ Hp). }
  unfold inHandN in Hact. apply andb_true_iff in Hact as [_ Hm].
  by rewrite Hall, Hm in Hnone.
Qed.

(** X16.  In the course of a hand dealt on a room with integer balances,
    whatever the amounts of the bets (a number or not), the handlers
    resolve the hand only once at most one player is left in it: an all-in
    player has no money and the turn never comes to one, so
    [isHandFinished] never holds with several contenders and the comparison
    of hands in [resolveHand] is not reached. *)
Theorem no_showdown_in_play (pick : nat → nat) (r0 : room) (n0 : nat)
        (acts : list actionN) (s : serverN) (a : actionN) (r1 : roomN) :
  inHandFromN pick r0 n0 acts s →
  applyActionN a (theRoomN s) = Accepted r1 →
  isHandFinishedN (closeRoundN r1) = true →
  (length (activeSeatsN (closeRoundN r1)) ≤ 1)%nat.
Proof.
  intros (Hb & Ht & _)%inHandFromN_inv E.
  destruct (applyActionN_frame _ _ _ E) as (_ & _ & Hinv).
  destruct (Hinv Hb Ht) as [Hb1 Ht1].
  apply finished_one_leftN. by apply closeRoundN_inv.
Qed.

(** *** What holds of a hand in which every bet has a numeric amount *)


Lemma turnOkN_lift (r : room) : turnOk r → turnOkN (liftR r).
Proof.
  intros [[Hturn Hnone]|(i & p & Hturn & Hp & Hact)].
  - left. split; [done|]. cbn [playersN liftR]. apply Forall_fmap.
    eapply Forall_impl; [exact Hnone|]. by intros p Hp.
  - right. exists i, (liftP p). split_and!; [done| |done].
    cbn [playersN liftR]. by rewrite list_lookup_fmap, Hp.
Qed.


(** X12.  Balances never go negative, for hands in which every bet has a
    numeric amount.  If no balance is negative when the hand is dealt, then
    in every state reached by accepted actions whose bets carry a number,
    every balance and every stake is a number and not negative. *)
Theorem balances_never_negative (pick : nat → nat) (r0 : room) (n0 : nat)
        (acts : list actionN) (s : serverN) :
  Forall (λ p, 0 <= money p) (players r0) →
  inHandFromN pick r0 n0 acts s →
  Forall numericBet acts →
  Forall (λ p, ∃ m b : Z, moneyN p = Num m ∧ 0 <= m
                          ∧ currentBetN p = Num b ∧ 0 <= b)
         (playersN (theRoomN s)).
Proof.
  intros Hstart Hreach Hnum.
  destruct (inHandFromN_numeric _ _ _ _ _ Hreach Hnum) as (charges & sz & -> & Hz).
  destruct (inHandFrom_balances _ _ _ _ _ Hstart Hz) as [Hm Hb].
  cbn [theRoomN liftS playersN liftR]. apply Forall_fmap, Forall_forall.
  intros p Hp. cbn. exists (money p), (currentBet p). split_and!; try done.
  - exact (proj1 (Forall_forall _ _) Hm p Hp).
  - exact (proj1 (Forall_forall _ _) Hb p Hp).
Qed.

(** X17.  The turn stays on a player who can act, for hands played by the
    five handlers alone (nobody disconnects) in which every bet has a
    numeric amount.  In every state of such a hand, dealt on a room with
    integer balances and a dealer index of at least -1, [currentTurn] is -1
    and no player can act, or it is the seat of a player who is not folded,
    has money and is not all-in; so the next accepted action, whatever its
    amount, comes from such a player. *)
Theorem turn_on_an_actor (pick : nat → nat) (r0 : room) (n0 : nat)
        (acts : list actionN) (s : serverN) :
  -1 <= dealerIndex r0 →
  inHandFromN pick r0 n0 acts s →
  Forall numericBet acts →
  turnOkN (theRoomN s)
  ∧ ∀ a s', handleN a s = Accepted s' →
      ∃ (i : nat) (p : playerN),
        findPlayerN (senderN a) (playersN (theRoomN s)) = Some (i, p)
        ∧ foldedN p = false ∧ num_gtb (moneyN p) (Num 0) = true
        ∧ allInN p = false.
Proof.
  intros Hd Hreach Hnum.
  destruct (inHandFromN_numeric _ _ _ _ _ Hreach Hnum) as (charges & sz & -> & Hz).
  destruct (inHandFrom_turnOk _ _ _ _ _ Hd Hz) as [Hok _].
  apply turnOkN_lift in Hok. split; [done|]. intros a s' Ha.
  destruct (handleN_split _ _ _ Ha) as (r1 & E & _).
  destruct (applyActionN_frame _ _ _ E) as ((i & p & Hfind & Hturn) & _).
  exists i, p. split; [done|].
  destruct (findPlayerN_lookup _ _ _ _ Hfind) as [Hi _].
  destruct Hok as [[Hnone _]|(i' & p' & Hi' & Hp' & Hact)];
    [cbn [theRoomN liftS] in *; lia|].
  cbn [theRoomN liftS] in *.
  assert (i' = i) as -> by lia.
  assert (p' = p) as -> by congruence.
  unfold canActN in Hact.
  apply andb_true_iff in Hact as [[Hf Hm]%andb_true_iff Hall].
  split_and!; [by destruct (foldedN p)|done|by destruct (allInN p)].
Qed.

(** ** The roster stays in seat order *)

Lemma seq_sorted (a n : nat) : StronglySorted lt (seq a n).
Proof.
  revert a. induction n as [|n IH]; intros a; [constructor|].
  cbn. constructor; [apply IH|].
  apply Forall_forall. intros x Hx%list_elem_of_In%in_seq. lia.
Qed.

Lemma settle_roster_sorted (s : server) :
  StronglySorted lt (tournamentPlayers (theRoom s)) →
  StronglySorted lt (tournamentPlayers (theRoom (settle s))).
Proof.
  intros Hs. unfold settle, closeHand. cbn [theRoom timers].
  assert (H1 : tournamentPlayers (closeRound (theRoom s))
               = tournamentPlayers (theRoom s)).
  { unfold closeRound. destruct (isRoundComplete (theRoom s)); [|done].
    by destruct (checkAndAdvanceRound_frame 0 (theRoom s)) as (_&_&_&->&_). }
  destruct (isHandFinished (closeRound (theRoom s)));
    [|cbn [theRoom]; by rewrite H1].
  destruct (resolveHand_frame (closeRound (theRoom s))) as (_&_&_&H2&_).
  set (r2 := pruneRoster (resolveHand (closeRound (theRoom s))).1).
  assert (H3 : StronglySorted lt (tournamentPlayers r2)).
  { subst r2. cbn. apply StronglySorted_filter. by rewrite H2, H1. }
  assert (H4 : StronglySorted lt (tournamentPlayers (afterHandEnded r2).1.1)).
  { unfold afterHandEnded.
    destruct (tournamentEnded (pruneRoster r2)); cbn;
      by apply StronglySorted_filter. }
  by destruct (afterHandEnded r2) as [[r3 eff] b].
Qed.

(** X25.  The tournament roster is kept in seat order: start-game lists
    every seat in order, and no accepted action and no firing of the
    next-hand timer changes the order of those left. *)
Theorem roster_in_seat_order :
  (∀ pick sid s s',
      on_start_game pick sid s = Accepted s' →
      StronglySorted lt (tournamentPlayers (theRoom s')))
  ∧ (∀ s s',
      serverStep s s' →
      StronglySorted lt (tournamentPlayers (theRoom s)) →
      StronglySorted lt (tournamentPlayers (theRoom s'))).
Proof.
  split.
  - intros pick sid s s'. unfold on_start_game, onRoom, apply_start_game.
    destruct (negb (bool_decide (host (theRoom s) = sid))); [done|].
    destruct (length (players (theRoom s)) <? 2)%nat; [done|].
    intros [= <-]. cbn [theRoom].
    match goal with |- context [startNewHand pick ?x] =>
      destruct (startNewHand_fields pick x) as (_&_&_&_&_&_&->&_) end.
    cbn. apply seq_sorted.
  - intros s s' Hstep Hs. destruct Hstep.
    + destruct (handle_split _ _ _ H) as (r1 & E & Hs').
      destruct (applyAction_frame _ _ _ E) as (_&_&_&_&_&_&_&Htp&_).
      destruct Hs' as [[-> _]|[-> _]].
      * apply settle_roster_sorted. cbn [theRoom]. by rewrite Htp.
      * cbn [theRoom]. by rewrite Htp.
    + unfold fireTimer in H. destruct (timers s); [done|].
      injection H as <-. cbn [theRoom].
      by destruct (startNewHand_fields pick (theRoom s)) as (_&_&_&_&_&_&->&_).
Qed.

(** ** Statements at the two-player table, on the engine on numbers *)

Lemma duelNaN_reached :
  inHandFromN noShuffle duelOpened 0 [PlaceBetN "sock-2" NaN] duelNaN.
Proof.
  apply (hand_actionN _ _ _ [] _ _ _ (hand_startedN noShuffle duelOpened 0)).
  vm_compute. reflexivity.
Defined.

Lemma duelBetN_reached :
  inHandFromN noShuffle duelOpened 0 [PlaceBetN "sock-2" (Num 200)] duelBetN.
Proof.
  apply (hand_actionN _ _ _ [] _ _ _ (hand_startedN noShuffle duelOpened 0)).
  vm_compute. reflexivity.
Defined.

(** After the bet that is not a number the minimum is still at least 100. *)
Lemma minBet_ratchet_witness : 100 <= minBetN (theRoomN duelNaN).
Proof.
  exact (proj1 (minBet_ratchet _ _ _ _ _ duelNaN_reached)).
Defined.

(** After Binh's bet An folds: the hand is resolved with Binh alone. *)
Lemma no_showdown_in_play_witness :
  applyActionN (FoldN "sock-1") (theRoomN duelBetN)
  = Accepted (run (applyActionN (FoldN "sock-1") (theRoomN duelBetN))
                  (theRoomN duelBetN))
  ∧ (length (activeSeatsN
       (closeRoundN (run (applyActionN (FoldN "sock-1") (theRoomN duelBetN))
                         (theRoomN duelBetN)))) ≤ 1)%nat.
Proof.
  assert (E : applyActionN (FoldN "sock-1") (theRoomN duelBetN)
              = Accepted (run (applyActionN (FoldN "sock-1") (theRoomN duelBetN))
                              (theRoomN duelBetN)))
    by (vm_compute; reflexivity).
  assert (Hfin : isHandFinishedN
                   (closeRoundN (run (applyActionN (FoldN "sock-1") (theRoomN duelBetN))
                                     (theRoomN duelBetN))) = true)
    by (vm_compute; reflexivity).
  split; [exact E|].
  exact (no_showdown_in_play _ _ _ _ _ _ _ duelBetN_reached E Hfin).
Defined.


Lemma balances_never_negative_witness :
  Forall (λ p, 0 <= money p) (players duelOpened)
  ∧ Forall (λ p, ∃ m b : Z, moneyN p = Num m ∧ 0 <= m
                            ∧ currentBetN p = Num b ∧ 0 <= b)
           (playersN (theRoomN duelBetN)).
Proof.
  assert (H0 : Forall (λ p, 0 <= money p) (players duelOpened))
    by (repeat constructor; cbn; lia).
  assert (H : Forall numericBet [PlaceBetN "sock-2" (Num 200)])
    by (repeat constructor).
  split; [exact H0|].
  exact (balances_never_negative _ _ _ _ _ H0 duelBetN_reached H).
Defined.

Lemma turn_on_an_actor_witness :
  -1 <= dealerIndex duelOpened ∧ turnOkN (theRoomN duelBetN).
Proof.
  assert (H0 : -1 <= dealerIndex duelOpened) by (cbn; lia).
  assert (H : Forall numericBet [PlaceBetN "sock-2" (Num 200)])
    by (repeat constructor).
  split; [exact H0|].
  exact (proj1 (turn_on_an_actor _ _ _ _ _ H0 duelBetN_reached H)).
Defined.

(** The roster of the duel is in seat order when the game starts and after
    Binh's fold. *)
Lemma roster_in_seat_order_witness :
  StronglySorted lt (tournamentPlayers (theRoom duelFolded)).
Proof.
  assert (E0 : on_start_game noShuffle "sock-1" (Server duelRoom 0)
               = Accepted duelStart) by (vm_compute; reflexivity).
  assert (E1 : handle (Fold "sock-2") duelStart = Accepted duelFolded)
    by (vm_compute; reflexivity).
  exact (proj2 roster_in_seat_order _ _ (step_action _ _ _ E1)
           (proj1 roster_in_seat_order _ _ _ _ E0)).
Defined.
